(** * Loss functions of DeepSatModels (metrics/loss_functions.py)

    A shallow embedding of the loss factory [get_loss], of the loss functors
    (MaskedContrastiveLoss, MaskedBinaryCrossEntropy, MaskedCrossEntropyLoss,
    MaskedFocalLoss, MaskedDiceLoss, FocalLoss, FocalTverskyLoss,
    CombinedLoss) and of the diagnostic [per_class_loss]; then of
    [LinearLRScheduler] and [build_scheduler] (utils/lr_scheduler.py) and of
    the model factory [get_model] (models/__init__.py).

    Conventions of the embedding.
    - A tensor is a shape and its elements in row-major order; every tensor
      value is contiguous, so [view] and [reshape] coincide.
    - Floating-point elements are idealised as real numbers: rounding,
      overflow, infinities and NaN are outside the model.  Integer (int64)
      elements are [Z], boolean elements are [bool].
    - A Python exception is a value of [PyError]; code that may raise returns
      a [result].
    - The operations of torch used by the source (reshape, boolean indexing,
      repeat, gather, log_softmax, broadcasting arithmetic, reductions) are
      defined with the behaviour torch documents for them, including the
      errors they raise.
    - [print] calls, devices and gradient tracking ([detach], [Variable],
      [contiguous], [cpu]) do not change any value and are omitted. *)

From Stdlib Require Import String Bool Arith ZArith Reals Lra Lia List.
Import ListNotations.

Set Implicit Arguments.
Set Warnings "-register-all".

(** ** Exceptions and results *)

Inductive PyError : Type :=
| ValueError (msg : string)
| RuntimeError
| IndexError
| KeyError (key : string)
| TypeError
| ZeroDivisionError.

Inductive result (A : Type) : Type :=
| Ok (a : A)
| Raise (e : PyError).

Arguments Ok {A} a.
Arguments Raise {A} e.

Definition bind {A B : Type} (c : result A) (k : A -> result B) : result B :=
  match c with
  | Ok a => k a
  | Raise e => Raise e
  end.

Notation "'let*' x ':=' c 'in' k" := (bind c (fun x => k))
  (at level 10, x pattern, c at level 100, k at level 200).

Definition returns {A : Type} (c : result A) : Prop := exists a, c = Ok a.

(** ** Tensors *)

Record tensor (A : Type) : Type := Tensor { shape : list nat; data : list A }.

Arguments Tensor {A} shape data.

Definition numel_of_shape (s : list nat) : nat := fold_right Nat.mul 1 s.

Definition numel {A} (t : tensor A) : nat := length (data t).

Definition dim {A} (t : tensor A) : nat := length (shape t).

(** The elements fill the shape exactly. *)
Definition well_formed {A} (t : tensor A) : Prop :=
  length (data t) = numel_of_shape (shape t).

(** A zero-dimensional tensor. *)
Definition scalar {A} (x : A) : tensor A := Tensor [] [x].

Definition tmap {A B} (f : A -> B) (t : tensor A) : tensor B :=
  Tensor (shape t) (map f (data t)).

(** [chunks n k d]: the first [n] consecutive blocks of [k] elements of [d]. *)
Fixpoint chunks {A} (n k : nat) (d : list A) : list (list A) :=
  match n with
  | O => []
  | S n' => firstn k d :: chunks n' k (skipn k d)
  end.

(** [select m xs]: the elements of [xs] at the positions where [m] is true. *)
Fixpoint select {A} (m : list bool) (xs : list A) : list A :=
  match m, xs with
  | b :: m', x :: xs' => if b then x :: select m' xs' else select m' xs'
  | _, _ => []
  end.

Fixpoint prefix_eqb (p s : list nat) : bool :=
  match p, s with
  | [], _ => true
  | x :: p', y :: s' => (x =? y) && prefix_eqb p' s'
  | _ :: _, [] => false
  end.

(** [t.shape[-1]]: indexing an empty shape tuple raises IndexError. *)
Definition last_size {A} (t : tensor A) : result nat :=
  match rev (shape t) with
  | [] => Raise IndexError
  | c :: _ => Ok c
  end.

(** [t.reshape(-1)] and [t.view(-1)]. *)
Definition reshape_flat {A} (t : tensor A) : tensor A :=
  Tensor [numel t] (data t).

(** [t.reshape(-1, k)] and [t.view(-1, k)]: the number of elements must be a
    multiple of [k], and [k = 0] leaves [-1] ambiguous or the shape invalid. *)
Definition reshape_rows {A} (t : tensor A) (k : nat) : result (tensor A) :=
  if k =? 0 then Raise RuntimeError
  else if numel t mod k =? 0 then Ok (Tensor [numel t / k; k] (data t))
  else Raise RuntimeError.

(** [t.unsqueeze(-1)]. *)
Definition unsqueeze_last {A} (t : tensor A) : tensor A :=
  Tensor (shape t ++ [1]) (data t).

(** [t[m]] for a boolean tensor [m]: the shape of [m] must be a prefix of the
    shape of [t] (IndexError otherwise); the sub-tensors at the true positions
    are kept, in order. *)
Definition mask_index {A} (t : tensor A) (m : tensor bool) : result (tensor A) :=
  if prefix_eqb (shape m) (shape t) then
    let rest := skipn (length (shape m)) (shape t) in
    let sel := select (data m) (chunks (numel m) (numel_of_shape rest) (data t)) in
    Ok (Tensor (length sel :: rest) (concat sel))
  else Raise IndexError.

(** [t.repeat(1, ..., 1, c)] with [nd] arguments: the shape is padded on the
    left with ones up to [nd] dimensions, and every row along the last axis is
    written [c] times.  Fewer arguments than dimensions raise RuntimeError. *)
Definition repeat_last {A} (nd c : nat) (t : tensor A) : result (tensor A) :=
  if nd <? dim t then Raise RuntimeError
  else
    let s := repeat 1 (nd - dim t) ++ shape t in
    let lead := removelast s in
    let l := last s 1 in
    Ok (Tensor (lead ++ [l * c])
          (flat_map (fun row => concat (repeat row c))
             (chunks (numel_of_shape lead) l (data t)))).

(** *** Broadcasting arithmetic *)

(** Shapes are aligned on the right; here both are given reversed. *)
Fixpoint broadcast_rev (a b : list nat) : option (list nat) :=
  match a, b with
  | [], _ => Some b
  | _, [] => Some a
  | x :: a', y :: b' =>
      match broadcast_rev a' b' with
      | None => None
      | Some r =>
          if x =? y then Some (x :: r)
          else if x =? 1 then Some (y :: r)
          else if y =? 1 then Some (x :: r)
          else None
      end
  end.

Definition broadcast_shapes (a b : list nat) : option (list nat) :=
  option_map (@rev nat) (broadcast_rev (rev a) (rev b)).

(** [expand src dst d]: the elements of a tensor of shape [src] expanded to
    shape [dst] (same number of dimensions, each size equal or 1 in [src]). *)
Fixpoint expand {A} (src dst : list nat) (d : list A) : list A :=
  match src, dst with
  | s :: src', t :: dst' =>
      let rows := map (expand src' dst') (chunks s (numel_of_shape src') d) in
      if s =? t then concat rows else concat (repeat (concat rows) t)
  | _, _ => d
  end.

Definition pad_shape (n : nat) (s : list nat) : list nat :=
  repeat 1 (n - length s) ++ s.

Definition expand_to {A} (dst : list nat) (t : tensor A) : list A :=
  expand (pad_shape (length dst) (shape t)) dst (data t).

Fixpoint zip_with {A B C} (f : A -> B -> C) (xs : list A) (ys : list B) : list C :=
  match xs, ys with
  | x :: xs', y :: ys' => f x y :: zip_with f xs' ys'
  | _, _ => []
  end.

(** An elementwise binary operation; shapes that do not broadcast raise
    RuntimeError. *)
Definition tensor_op {A B C} (f : A -> B -> C) (a : tensor A) (b : tensor B)
  : result (tensor C) :=
  match broadcast_shapes (shape a) (shape b) with
  | None => Raise RuntimeError
  | Some s => Ok (Tensor s (zip_with f (expand_to s a) (expand_to s b)))
  end.

(** *** Reductions *)

Definition Rsum (l : list R) : R := fold_right Rplus 0%R l.

Definition tsum (t : tensor R) : tensor R := scalar (Rsum (data t)).

Definition tmean (t : tensor R) : tensor R :=
  scalar (Rsum (data t) / INR (numel t))%R.

(** [m.sum()] of a boolean tensor: the number of true elements. *)
Definition count_true (l : list bool) : Z :=
  fold_right (fun (b : bool) acc => ((if b then 1 else 0) + acc)%Z) 0%Z l.

(** *** Softmax, gather, one-hot and axis moves *)

Definition log_softmax_row (r : list R) : list R :=
  let z := ln (Rsum (map exp r)) in map (fun x => (x - z)%R) r.

Definition softmax_row (r : list R) : list R :=
  let z := Rsum (map exp r) in map (fun x => (exp x / z)%R) r.

(** The rows of a tensor along its last axis. *)
Definition rows {A} (t : tensor A) : list (list A) :=
  chunks (numel_of_shape (removelast (shape t))) (last (shape t) 1) (data t).

(** [F.log_softmax(t, dim=-1)] and [F.softmax(t, dim=-1)]. *)
Definition log_softmax (t : tensor R) : tensor R :=
  Tensor (shape t) (flat_map log_softmax_row (rows t)).

Definition softmax (t : tensor R) : tensor R :=
  Tensor (shape t) (flat_map softmax_row (rows t)).

Definition index_in_range (c : nat) (i : Z) : bool :=
  ((0 <=? i) && (i <? Z.of_nat c))%Z.

(** [t.gather(1, index)] for a two-dimensional [t] (every caller passes
    one).  An empty index returns an empty tensor without any check;
    otherwise the index needs as many dimensions as [t], no more rows than
    [t], and entries within the class axis (RuntimeError). *)
Definition gather_rows (t : tensor R) (index : tensor Z) : result (tensor R) :=
  if numel index =? 0 then Ok (Tensor (shape index) [])
  else
    match shape t, shape index with
    | [n; c], [m; k] =>
        if m <=? n then
          if forallb (index_in_range c) (data index) then
            Ok (Tensor [m; k]
                  (concat (zip_with
                             (fun row irow => map (fun i => nth (Z.to_nat i) row 0%R) irow)
                             (chunks n c (data t)) (chunks m k (data index)))))
          else Raise RuntimeError
        else Raise RuntimeError
    | _, _ => Raise RuntimeError
    end.

(** [alpha.gather(0, index)] for the one-dimensional class vector [alpha] and
    a one-dimensional index. *)
Definition gather_vec (alpha : list R) (index : tensor Z) : result (tensor R) :=
  if numel index =? 0 then Ok (Tensor (shape index) [])
  else if forallb (index_in_range (length alpha)) (data index) then
    Ok (Tensor (shape index) (map (fun i => nth (Z.to_nat i) alpha 0%R) (data index)))
  else Raise RuntimeError.

(** [t[:, j]] for a two-dimensional [t]. *)
Definition column (j : nat) (t : tensor R) : result (tensor R) :=
  match shape t with
  | [n; c] =>
      if j <? c then Ok (Tensor [n] (map (fun row => nth j row 0%R) (chunks n c (data t))))
      else Raise IndexError
  | _ => Raise IndexError
  end.

(** [t.view(t.size(0), t.size(1), -1)] *)
Definition view3 {A} (t : tensor A) : result (tensor A) :=
  match shape t with
  | s0 :: s1 :: _ =>
      if s0 * s1 =? 0 then Raise RuntimeError
      else if numel t mod (s0 * s1) =? 0
           then Ok (Tensor [s0; s1; numel t / (s0 * s1)] (data t))
           else Raise RuntimeError
  | _ => Raise IndexError
  end.

(** The elements of an [r] x [c] block, read column by column. *)
Definition transpose_block {A} (r c : nat) (d : list A) : list A :=
  flat_map (fun j => flat_map (fun row => firstn 1 (skipn j row)) (chunks r c d))
           (seq 0 c).

(** [t.transpose(1, 2).contiguous()] for a three-dimensional [t]. *)
Definition transpose12 {A} (t : tensor A) : result (tensor A) :=
  match shape t with
  | [a; b; c] =>
      Ok (Tensor [a; c; b] (flat_map (transpose_block b c) (chunks a (b * c) (data t))))
  | _ => Raise IndexError
  end.

(** [t.size(i)] *)
Definition size_at {A} (t : tensor A) (i : nat) : result nat :=
  match nth_error (shape t) i with
  | Some n => Ok n
  | None => Raise IndexError
  end.

(** [x ** y] on floating-point elements: [x ** 0 = 1]; [0 ** y = 0] for
    [y > 0]; [exp (y * ln x)] for [x > 0]; and for [x < 0] the integer power
    when [y] is an integer.  Two results of the floating-point power are no
    real numbers, [0 ** y = inf] for [y < 0] and [x ** y = NaN] for [x < 0]
    and an exponent that is no integer: they are written 0 here, and the
    properties that depend on the value of a power are stated away from
    them (a base that is not negative with an exponent that is not
    negative). *)
Definition Rpow (x y : R) : R :=
  if Req_dec_T y 0 then 1%R
  else if Req_dec_T x 0 then 0%R
  else if Rlt_dec 0 x then Rpower x y
  else if Req_dec_T y (IZR (Int_part y)) then powerRZ x (Int_part y)
  else 0%R.

Definition bool_to_float (b : bool) : R := if b then 1%R else 0%R.

(** ** Ground truth *)

Inductive any_tensor : Type :=
| FloatTensor (t : tensor R)
| LongTensor (t : tensor Z)
| BoolTensor (t : tensor bool).

(** A tuple or list of tensors given as ground truth: its first element is a
    target, its second a validity mask; further elements are arbitrary. *)
Inductive gt_items (T : Type) : Type :=
| Items0
| Items1 (target : tensor T)
| ItemsN (target : tensor T) (mask : tensor bool) (more : list any_tensor).

Arguments Items0 {T}.

(** The second argument of a masked functor: a bare tensor or a sequence. *)
Inductive ground_truth (T : Type) : Type :=
| GTensor (target : tensor T)
| GSeq (items : gt_items T).

Definition len {T} (s : gt_items T) : nat :=
  match s with
  | Items0 => 0
  | Items1 _ => 1
  | ItemsN _ _ more => 2 + length more
  end.

(** [ground_truth[0]] and [ground_truth[1]] *)
Definition item0 {T} (s : gt_items T) : result (tensor T) :=
  match s with
  | Items0 => Raise IndexError
  | Items1 t => Ok t
  | ItemsN t _ _ => Ok t
  end.

Definition item1 {T} (s : gt_items T) : result (tensor bool) :=
  match s with
  | ItemsN _ m _ => Ok m
  | _ => Raise IndexError
  end.

(** [self.reduction]: [None] or a string. *)
Definition reduction_t : Type := option string.

(** The tail shared by the focal, Dice and Tversky functors (lines 284-292,
    347-355, 389-397, 433-441): [None] returns the loss, "mean" and "sum"
    reduce it, anything else raises ValueError with the functor's message
    (written here without the quotation marks it has around mean and sum). *)
Definition reduce (msg : string) (reduction : reduction_t) (loss : tensor R)
  : result (tensor R) :=
  match reduction with
  | None => Ok loss
  | Some r =>
      if String.eqb r "mean" then Ok (tmean loss)
      else if String.eqb r "sum" then Ok (tsum loss)
      else Raise (ValueError msg)
  end.

Definition ground_truth_msg : string :=
  "ground_truth parameter for MaskedCrossEntropyLoss is either (target, mask) or (target)".

(** ** MaskedContrastiveLoss *)

Record MaskedContrastiveLoss : Type := {
  mcl_pos_weight : R;
  mcl_reduction : reduction_t
}.

(** Lines 148-156: the ground truth of MaskedContrastiveLoss.  Every sequence
    whose length is not 1 takes the last branch. *)
Definition MaskedContrastiveLoss_ground_truth (ground_truth : ground_truth R)
  : result (tensor R * option (tensor R)) :=
  match ground_truth with
  | GTensor target => Ok (target, None)
  | GSeq s =>
      if len s =? 1 then
        let* target := item0 s in Ok (target, None)
      else
        let* target := item0 s in
        let* mask := item1 s in
        Ok (target, Some (tmap bool_to_float mask))
  end.

Definition MaskedContrastiveLoss_forward (self : MaskedContrastiveLoss)
    (logits : tensor R) (ground_truth : ground_truth R) : result (tensor R) :=
  let* (target, mask) := MaskedContrastiveLoss_ground_truth ground_truth in
  let* pos := tensor_op Rmult (tmap (fun t => (- mcl_pos_weight self * t)%R) target) logits in
  let* neg := tensor_op Rmult (tmap (fun t => (1 - t)%R) target) logits in
  let* loss := tensor_op Rplus pos neg in
  let* loss := match mask with
               | Some mask => tensor_op Rmult mask loss
               | None => Ok loss
               end in
  match mcl_reduction self with
  | Some r => if String.eqb r "mean" then Ok (tmean loss) else Ok loss
  | None => Ok loss
  end.

(** ** MaskedBinaryCrossEntropy *)

(** [F.binary_cross_entropy_with_logits] of torch, with the optional scalar
    [pos_weight] the factory builds: the reduction string is resolved first,
    then the sizes are compared, then the loss is computed per element. *)
Definition BCEWithLogitsLoss (reduction : reduction_t) (pos_weight : option R)
    (input target : tensor R) : result (tensor R) :=
  let* red := match reduction with
              | Some r =>
                  if String.eqb r "none" then Ok (fun l : tensor R => l)
                  else if String.eqb r "mean" then Ok tmean
                  else if String.eqb r "elementwise_mean" then Ok tmean
                  else if String.eqb r "sum" then Ok tsum
                  else Raise (ValueError (r ++ " is not a valid value for reduction"))
              | None => Raise (ValueError "None is not a valid value for reduction")
              end in
  if list_eq_dec Nat.eq_dec (shape target) (shape input) then
    let w := match pos_weight with Some p => p | None => 1%R end in
    Ok (red (Tensor (shape input)
               (zip_with (fun x y => ((1 - y) * x + (1 + (w - 1) * y) * ln (1 + exp (- x)))%R)
                         (data input) (data target))))
  else Raise (ValueError "Target size must be the same as input size").

Record MaskedBinaryCrossEntropy : Type := {
  mbce_reduction : reduction_t;
  mbce_pos_weight : option R
}.

Definition MaskedBinaryCrossEntropy_forward (self : MaskedBinaryCrossEntropy)
    (logits : tensor R) (ground_truth : ground_truth R) : result (tensor R) :=
  let* (logits, target) :=
    match ground_truth with
    | GTensor target => Ok (logits, target)
    | GSeq s =>
        if len s =? 1 then
          let* target := item0 s in Ok (logits, target)
        else
          let* t := item0 s in
          let* m := item1 s in
          let* target := mask_index t m in
          let* logits := mask_index logits m in
          Ok (logits, target)
    end in
  BCEWithLogitsLoss (mbce_reduction self) (mbce_pos_weight self) logits target.

(** ** MaskedCrossEntropyLoss *)

Record MaskedCrossEntropyLoss : Type := { mce_mean : bool }.

(** Lines 209-218 (the same statements open MaskedFocalLoss.forward, lines
    252-261, and MaskedDiceLoss.forward, lines 308-317). *)
Definition MaskedCrossEntropyLoss_ground_truth {T} (ground_truth : ground_truth T)
  : result (tensor T * option (tensor bool)) :=
  match ground_truth with
  | GTensor target => Ok (target, None)
  | GSeq s =>
      if len s =? 1 then
        let* target := item0 s in Ok (target, None)
      else if len s =? 2 then
        let* target := item0 s in
        let* mask := item1 s in
        Ok (target, Some mask)
      else Raise (ValueError ground_truth_msg)
  end.

Definition MaskedCrossEntropyLoss_forward (self : MaskedCrossEntropyLoss)
    (logits : tensor R) (ground_truth : ground_truth Z) : result (tensor R) :=
  let* (target, mask) := MaskedCrossEntropyLoss_ground_truth ground_truth in
  let* (masked_logits_flat, masked_target_flat) :=
    match mask with
    | Some mask =>
        let* mask_flat := reshape_rows mask 1 in
        let* nclasses := last_size logits in
        let* logits_flat := reshape_rows logits nclasses in
        let* rep := repeat_last 2 nclasses mask_flat in
        let* sel := mask_index logits_flat rep in
        let* masked_logits_flat := reshape_rows sel nclasses in
        let* target_flat := reshape_rows target 1 in
        let* masked_target := mask_index target_flat mask_flat in
        Ok (masked_logits_flat, unsqueeze_last masked_target)
    | None =>
        let* nclasses := last_size logits in
        let* masked_logits_flat := reshape_rows logits nclasses in
        let* masked_target_flat := reshape_rows target 1 in
        Ok (masked_logits_flat, masked_target_flat)
    end in
  let masked_log_probs_flat := log_softmax masked_logits_flat in
  let* gathered := gather_rows masked_log_probs_flat masked_target_flat in
  let masked_losses_flat := tmap Ropp gathered in
  if mce_mean self then Ok (tmean masked_losses_flat) else Ok masked_losses_flat.

(** ** MaskedFocalLoss and FocalLoss *)

Definition focal_msg : string :=
  "FocalLoss: reduction parameter not in list of acceptable values [mean, sum, None]".

(** [alpha] after [__init__]: a number [a] has become the vector [[a, 1 - a]],
    a list the vector of its elements. *)
Record MaskedFocalLoss : Type := {
  mfl_gamma : R;
  mfl_alpha : option (list R);
  mfl_reduction : reduction_t
}.

Record FocalLoss : Type := {
  fl_gamma : R;
  fl_alpha : option (list R);
  fl_reduction : reduction_t
}.

Definition MaskedFocalLoss_forward (self : MaskedFocalLoss)
    (logits : tensor R) (ground_truth : ground_truth Z) : result (tensor R) :=
  let* (target, mask) := MaskedCrossEntropyLoss_ground_truth ground_truth in
  let* target := reshape_rows target 1 in
  let* c := last_size logits in
  let* logits := reshape_rows logits c in
  let* (target, logits) :=
    match mask with
    | Some mask =>
        let* mask := reshape_rows mask 1 in
        let* target := mask_index target mask in
        let* c := last_size logits in
        let* rep := repeat_last 2 c mask in
        let* sel := mask_index logits rep in
        let* logits := reshape_rows sel c in
        Ok (target, logits)
    | None => Ok (target, logits)
    end in
  let logpt := log_softmax logits in
  let* logpt := gather_rows logpt (unsqueeze_last target) in
  let logpt := reshape_flat logpt in
  let pt := tmap exp logpt in
  let* logpt := match mfl_alpha self with
                | Some alpha =>
                    let* at_ := gather_vec alpha (reshape_flat target) in
                    tensor_op Rmult logpt at_
                | None => Ok logpt
                end in
  let* loss := tensor_op Rmult (tmap (fun p => (-1 * Rpow (1 - p) (mfl_gamma self))%R) pt) logpt in
  reduce focal_msg (mfl_reduction self) loss.

(** Lines 371-374 (the same statements open FocalTverskyLoss.forward):
    N,C,H,W => N,C,H*W => N,H*W,C => N*H*W,C. *)
Definition channels_last_rows (input : tensor R) : result (tensor R) :=
  if 2 <? dim input then
    let* input := view3 input in
    let* input := transpose12 input in
    let* c := size_at input 2 in
    reshape_rows input c
  else Ok input.

(** [F.log_softmax(input, dim=1)] and [F.softmax(input, dim=1)] where [input]
    has at most two dimensions (it left [channels_last_rows]): axis 1 is the
    last axis of a matrix and does not exist below two dimensions. *)
Definition log_softmax_dim1 (input : tensor R) : result (tensor R) :=
  if dim input <? 2 then Raise IndexError else Ok (log_softmax input).

Definition softmax_dim1 (input : tensor R) : result (tensor R) :=
  if dim input <? 2 then Raise IndexError else Ok (softmax input).

Definition FocalLoss_forward (self : FocalLoss)
    (input : tensor R) (target : tensor Z) : result (tensor R) :=
  let* input := channels_last_rows input in
  let* target := reshape_rows target 1 in
  let* logpt := log_softmax_dim1 input in
  let* logpt := gather_rows logpt target in
  let logpt := reshape_flat logpt in
  let pt := tmap exp logpt in
  let* logpt := match fl_alpha self with
                | Some alpha =>
                    let* at_ := gather_vec alpha (reshape_flat target) in
                    tensor_op Rmult logpt at_
                | None => Ok logpt
                end in
  let* loss := tensor_op Rmult (tmap (fun p => (-1 * Rpow (1 - p) (fl_gamma self))%R) pt) logpt in
  reduce focal_msg (fl_reduction self) loss.

(** [__init__] of both focal functors: lines 242-248 and 362-368. *)
Inductive alpha_arg : Type :=
| AlphaNumber (a : R)
| AlphaList (l : list R).

Definition init_alpha (alpha : option alpha_arg) : option (list R) :=
  match alpha with
  | Some (AlphaNumber a) => Some [a; (1 - a)%R]
  | Some (AlphaList l) => Some l
  | None => None
  end.

Definition MaskedFocalLoss_init (gamma : R) (alpha : option alpha_arg)
    (reduction : reduction_t) : MaskedFocalLoss :=
  {| mfl_gamma := gamma; mfl_alpha := init_alpha alpha; mfl_reduction := reduction |}.

Definition FocalLoss_init (gamma : R) (alpha : option alpha_arg)
    (reduction : reduction_t) : FocalLoss :=
  {| fl_gamma := gamma; fl_alpha := init_alpha alpha; fl_reduction := reduction |}.

(** ** MaskedDiceLoss *)

Definition dice_msg : string :=
  "DiceLoss: reduction parameter not in list of acceptable values [mean, sum, None]".

Record MaskedDiceLoss : Type := {
  mdl_reduction : reduction_t;
  mdl_label_smoothing : R;
  mdl_device : string
}.

(** The target matrix of lines 328-335: row [i] holds [on] at column
    [target[i]] and [off] elsewhere; a class outside [0, c) is refused by
    [scatter_] and by [F.one_hot] alike (RuntimeError). *)
Definition class_matrix (on off : R) (c : nat) (target : tensor Z) : result (tensor R) :=
  if forallb (index_in_range c) (data target) then
    Ok (Tensor [numel target; c]
          (flat_map (fun t => map (fun j => if (Z.of_nat j =? t)%Z then on else off) (seq 0 c))
                    (data target)))
  else Raise RuntimeError.

Definition MaskedDiceLoss_forward (self : MaskedDiceLoss)
    (logits : tensor R) (ground_truth : ground_truth Z) : result (tensor R) :=
  let* (target, mask) := MaskedCrossEntropyLoss_ground_truth ground_truth in
  let target := reshape_flat target in
  let* c := last_size logits in
  let* logits := reshape_rows logits c in
  let* (target, logits) :=
    match mask with
    | Some mask =>
        let* mask := reshape_rows mask 1 in
        let* target := mask_index target mask in
        let* c := last_size logits in
        let* rep := repeat_last 2 c mask in
        let* sel := mask_index logits rep in
        let* logits := reshape_rows sel c in
        Ok (target, logits)
    | None => Ok (target, logits)
    end in
  let* target_onehot :=
    if Rlt_dec 0 (mdl_label_smoothing self) then
      let* num_classes := last_size logits in
      if num_classes =? 1 then Raise ZeroDivisionError
      else
        let smoothing_value := (mdl_label_smoothing self / (INR num_classes - 1))%R in
        class_matrix (1 - mdl_label_smoothing self)%R smoothing_value num_classes target
    else
      let* num_classes := last_size logits in
      class_matrix 1%R 0%R num_classes target in
  let predicted_prob := softmax logits in
  let* predicted_prob_pos := column 1 predicted_prob in
  let* target_pos := column 1 target_onehot in
  let* prod := tensor_op Rmult predicted_prob_pos target_pos in
  let inter := Rsum (data prod) in
  let union := (Rsum (data predicted_prob_pos) + Rsum (data target_pos))%R in
  let loss := scalar (1 - 2 * inter / union)%R in
  reduce dice_msg (mdl_reduction self) loss.

(** ** FocalTverskyLoss *)

Definition tversky_msg : string :=
  "TverskyLoss: reduction parameter not in list of acceptable values [mean, sum, None]".

Record FocalTverskyLoss : Type := {
  ftl_smooth : R;
  ftl_alpha : alpha_arg;
  ftl_beta : R;
  ftl_gamma : R;
  ftl_reduction : reduction_t
}.

Definition FocalTverskyLoss_forward (self : FocalTverskyLoss)
    (inputs : tensor R) (targets : tensor Z) : result (tensor R) :=
  let* inputs := channels_last_rows inputs in
  let* inputs := softmax_dim1 inputs in
  let targets := tmap IZR (reshape_flat targets) in
  let* p1 := column 1 inputs in
  let* tp := tensor_op Rmult p1 targets in
  let TP := Rsum (data tp) in
  let* p1 := column 1 inputs in
  let* fp := tensor_op Rmult (tmap (fun t => (1 - t)%R) targets) p1 in
  let FP := Rsum (data fp) in
  let* p0 := column 0 inputs in
  let* fn := tensor_op Rmult targets p0 in
  let FN := Rsum (data fn) in
  let* alpha := match ftl_alpha self with
                 | AlphaNumber a => Ok a
                 | AlphaList _ => Raise TypeError
                 end in
  let Tversky := ((TP + ftl_smooth self)
                  / (TP + alpha * FP + ftl_beta self * FN + ftl_smooth self))%R in
  let loss := scalar (Rpow (1 - Tversky) (ftl_gamma self)) in
  reduce tversky_msg (ftl_reduction self) loss.

(** ** CombinedLoss *)

(** What [forward] accumulates: the Python number it starts from, or a tensor
    once a weighted sub-loss has been added. *)
Inductive loss_value : Type :=
| Number (x : R)
| TensorValue (t : tensor R).

(** [loss += term].  A Python number has no in-place addition: from the
    number [loss] starts with, the statement is [loss = loss + term] and
    gives a new tensor of the shape of [term].  Once [loss] is a tensor the
    statement is the in-place [loss.add_(term)], which writes the sum into
    [loss]: [term] has to broadcast to the shape [loss] already has, and a
    sum of another shape raises RuntimeError, as shapes that do not
    broadcast do. *)
Definition add_term (loss : loss_value) (term : tensor R) : result loss_value :=
  match loss with
  | Number x => Ok (TensorValue (tmap (fun y => (x + y)%R) term))
  | TensorValue t =>
      let* s := tensor_op Rplus t term in
      if list_eq_dec Nat.eq_dec (shape s) (shape t) then Ok (TensorValue s)
      else Raise RuntimeError
  end.

(** [weights[i]] *)
Definition list_item {A} (l : list A) (i : nat) : result A :=
  match nth_error l i with
  | Some x => Ok x
  | None => Raise IndexError
  end.

Record CombinedLoss (F : Type) : Type := {
  loss_fns : list F;
  weights : list R
}.

Section CombinedLoss_forward.
  (** The sub-losses are any callables: [call f inputs targets] is the call
      [f(inputs, targets)]. *)
Variables F Inputs Targets : Type.
Variable call : F -> Inputs -> Targets -> result (tensor R).

  (** Lines 452-453, from index [i] and the running [loss]. *)
Fixpoint CombinedLoss_loop (weights : list R) (inputs : Inputs) (targets : Targets)
      (i : nat) (fns : list F) (loss : loss_value) : result loss_value :=
    match fns with
    | [] => Ok loss
    | loss_fn :: fns' =>
        let* w := list_item weights i in
        let* v := call loss_fn inputs targets in
        let* loss := add_term loss (tmap (Rmult w) v) in
        CombinedLoss_loop weights inputs targets (S i) fns' loss
    end.

Definition CombinedLoss_forward (self : CombinedLoss F)
      (inputs : Inputs) (targets : Targets) : result loss_value :=
    CombinedLoss_loop (weights self) inputs targets 0 (loss_fns self) (Number 0).
End CombinedLoss_forward.

(** ** The factory get_loss *)

(** A key of a configuration mapping: missing, bound to [None], or bound to a
    value. *)
Inductive entry (A : Type) : Type :=
| Missing
| IsNone
| Value (a : A).

Arguments Missing {A}.
Arguments IsNone {A}.

(** [SOLVER.loss_function]: an identifier, or a list or tuple of such values. *)
Inductive loss_function_t : Type :=
| LossName (s : string)
| LossNames (l : list loss_function_t).

Record SolverConfig : Type := {
  loss_function : entry loss_function_t;
  pos_weight : entry R;
  class_weights : entry (list (Z * R));
  label_smoothing : entry R;
  gamma : entry R;
  alpha : entry alpha_arg;
  smooth : entry R;
  beta : entry R;
  loss_weights : entry (list R)
}.

Record ModelConfig : Type := { num_classes : entry Z }.

(** [config]: [None] stands for a missing 'MODEL' or 'SOLVER' key. *)
Record Config : Type := {
  MODEL : option ModelConfig;
  SOLVER : option SolverConfig
}.

(** [d[key]] *)
Definition getitem {A} (key : string) (e : entry A) : result (option A) :=
  match e with
  | Missing => Raise (KeyError key)
  | IsNone => Ok None
  | Value a => Ok (Some a)
  end.

(** Modelled from the spec: get_params_values of
    deepsat/utils/config_files_utils.py is not among the sources; the spec
    calls it the single "get with default" accessor that makes every tunable
    optional.  The value bound to the key when there is one, the default
    otherwise (a key bound to [None] holds no value). *)
Definition get_params_values {A} (e : entry A) (default : A) : A :=
  match e with
  | Value a => a
  | _ => default
  end.

(** The same accessor with the default [None]. *)
Definition get_params_values_None {A} (e : entry A) : option A :=
  match e with
  | Value a => Some a
  | _ => None
  end.

(** The functors the factory builds; the two classes of torch.nn keep their
    constructor arguments. *)
Inductive nn_Module : Type :=
| M_MaskedContrastiveLoss (m : MaskedContrastiveLoss)
| M_BCEWithLogitsLoss (reduction : reduction_t)
| M_MaskedBinaryCrossEntropy (m : MaskedBinaryCrossEntropy)
| M_CrossEntropyLoss (weight : option (list R)) (reduction : reduction_t) (label_smoothing : R)
| M_MaskedCrossEntropyLoss (m : MaskedCrossEntropyLoss)
| M_FocalLoss (m : FocalLoss)
| M_MaskedFocalLoss (m : MaskedFocalLoss)
| M_MaskedDiceLoss (m : MaskedDiceLoss)
| M_FocalTverskyLoss (m : FocalTverskyLoss)
| M_CombinedLoss (m : CombinedLoss nn_Module).

(** What get_loss returns: a functor, a list of returned values, or [None]. *)
Inductive py_value : Type :=
| PyNone
| PyModule (m : nn_Module)
| PyList (l : list py_value).

(** [weight[key] = w] on a vector of [n] entries; a negative key counts from
    the end. *)
Definition setitem (weight : list R) (key : Z) (w : R) : result (list R) :=
  let n := Z.of_nat (length weight) in
  if ((0 <=? key) && (key <? n))%Z then
    Ok (firstn (Z.to_nat key) weight ++ w :: skipn (S (Z.to_nat key)) weight)
  else if ((- n <=? key) && (key <? 0))%Z then
    Ok (firstn (Z.to_nat (key + n)) weight ++ w :: skipn (S (Z.to_nat (key + n))) weight)
  else Raise IndexError.

Fixpoint set_class_weights (weight : list R) (overrides : list (Z * R)) : result (list R) :=
  match overrides with
  | [] => Ok weight
  | (key, w) :: rest =>
      let* weight := setitem weight key w in set_class_weights weight rest
  end.

(** Lines 58-63 and 105-110: the two class weights from [pos_weight]. *)
Definition pos_weight_pair (pos_weight : R) : result (list R) :=
  if Req_dec_T pos_weight 0 then Raise ZeroDivisionError
  else
    let weight_1 := (1 / pos_weight)%R in
    let weight_2 := 1%R in
    let total_weight := (weight_1 + weight_2)%R in
    if Req_dec_T total_weight 0 then Raise ZeroDivisionError
    else Ok [(weight_1 / total_weight)%R; (weight_2 / total_weight)%R].

Definition in_names (s : string) (names : list string) : bool :=
  existsb (String.eqb s) names.

Open Scope string_scope.

(** Lines 26-117: the factory for a [loss_function] that is not a list or a
    tuple; [None] stands for a [loss_function] bound to [None].  No branch
    matches an identifier outside the ones compared below, and the function
    then ends without a [return] statement. *)
Definition get_loss_named (model_config : ModelConfig) (loss_config : SolverConfig)
    (name : option string) (device : string) (reduction : reduction_t)
  : result py_value :=
  let named (s : string) : bool :=
    match name with Some n => String.eqb n s | None => false end in
  let among (l : list string) : bool :=
    match name with Some n => in_names n l | None => false end in
  if among ["contrastive_loss"; "masked_contrastive_loss"]%string then
    let pos_weight := get_params_values (pos_weight loss_config) 1%R in
    Ok (PyModule (M_MaskedContrastiveLoss
                    {| mcl_pos_weight := pos_weight; mcl_reduction := reduction |}))
  else if named "binary_cross_entropy" then
    let reduction := match reduction with None => Some "none"%string | r => r end in
    Ok (PyModule (M_BCEWithLogitsLoss reduction))
  else if named "masked_binary_cross_entropy" then
    let* pos_weight := getitem "pos_weight" (pos_weight loss_config) in
    Ok (PyModule (M_MaskedBinaryCrossEntropy
                    {| mbce_reduction := reduction; mbce_pos_weight := pos_weight |}))
  else if named "cross_entropy" then
    match get_params_values_None (num_classes model_config) with
    | None => Raise TypeError
    | Some n =>
        let weight := repeat 1%R (Z.to_nat n) in
        let* cw := getitem "class_weights" (class_weights loss_config) in
        let* weight := match cw with
                       | None | Some [] => Ok weight
                       | Some overrides => set_class_weights weight overrides
                       end in
        Ok (PyModule (M_CrossEntropyLoss (Some weight) reduction 0%R))
    end
  else if named "weight_cross_entropy" then
    let label_smoothing := get_params_values (label_smoothing loss_config) 0%R in
    let* pos_weight := getitem "pos_weight" (pos_weight loss_config) in
    match pos_weight with
    | Some pos_weight =>
        let* weight := pos_weight_pair pos_weight in
        Ok (PyModule (M_CrossEntropyLoss (Some weight) reduction label_smoothing))
    | None => Ok (PyModule (M_CrossEntropyLoss None reduction label_smoothing))
    end
  else if named "masked_cross_entropy" then
    let mean := match reduction with Some r => String.eqb r "mean" | None => false end in
    Ok (PyModule (M_MaskedCrossEntropyLoss {| mce_mean := mean |}))
  else if among ["focal_loss"; "masked_focal_loss"]%string then
    let gamma := get_params_values (gamma loss_config) 1%R in
    let alpha := get_params_values_None (alpha loss_config) in
    if named "focal_loss" then
      Ok (PyModule (M_FocalLoss (FocalLoss_init gamma alpha reduction)))
    else if named "masked_focal_loss" then
      Ok (PyModule (M_MaskedFocalLoss (MaskedFocalLoss_init gamma alpha reduction)))
    else Ok PyNone
  else if named "masked_dice_loss" then
    let label_smoothing := get_params_values (label_smoothing loss_config) 0%R in
    Ok (PyModule (M_MaskedDiceLoss
                    {| mdl_reduction := reduction; mdl_label_smoothing := label_smoothing;
                       mdl_device := device |}))
  else if among ["tversky_loss"; "focal_tversky_loss"]%string then
    let smooth := get_params_values (smooth loss_config) 1%R in
    let alpha := get_params_values (alpha loss_config) (AlphaNumber (5 / 10)) in
    let beta := get_params_values (beta loss_config) (5 / 10)%R in
    let gamma := if named "tversky_loss" then 1%R
                 else get_params_values (gamma loss_config) 1%R in
    Ok (PyModule (M_FocalTverskyLoss
                    {| ftl_smooth := smooth; ftl_alpha := alpha; ftl_beta := beta;
                       ftl_gamma := gamma; ftl_reduction := reduction |}))
  else if named "combined_dice_ce" then
    let dice := M_MaskedDiceLoss {| mdl_reduction := reduction; mdl_label_smoothing := 0%R;
                                    mdl_device := device |} in
    let label_smoothing := get_params_values (label_smoothing loss_config) 0%R in
    let* pos_weight := getitem "pos_weight" (pos_weight loss_config) in
    let* ce := match pos_weight with
               | Some pos_weight =>
                   let* weight := pos_weight_pair pos_weight in
                   Ok (M_CrossEntropyLoss (Some weight) reduction label_smoothing)
               | None => Ok (M_CrossEntropyLoss None reduction label_smoothing)
               end in
    let weights := get_params_values (loss_weights loss_config) [(5 / 10)%R; (5 / 10)%R] in
    Ok (PyModule (M_CombinedLoss {| loss_fns := [dice; ce]; weights := weights |}))
  else Ok PyNone.

Close Scope string_scope.

(** [for x in l: out.append(f(x))], stopping at the first exception. *)
Definition for_each {A B} (f : A -> result B) : list A -> result (list B) :=
  fix loop (l : list A) : result (list B) :=
    match l with
    | [] => Ok []
    | x :: l' =>
        let* y := f x in
        let* ys := loop l' in
        Ok (y :: ys)
    end.

(** Lines 17-24 and the dispatch after them, for the configuration [config_]
    whose [loss_function] has been set to [lf]: a list is built element by
    element, in order, by the recursive call. *)
Fixpoint get_loss_of (model_config : ModelConfig) (loss_config : SolverConfig)
    (device : string) (reduction : reduction_t) (lf : loss_function_t)
  : result py_value :=
  match lf with
  | LossNames loss_types =>
      let* loss_fun :=
        for_each (get_loss_of model_config loss_config device reduction) loss_types in
      Ok (PyList loss_fun)
  | LossName s => get_loss_named model_config loss_config (Some s) device reduction
  end.

Definition get_loss (config : Config) (device : string) (reduction : reduction_t)
  : result py_value :=
  match MODEL config with
  | None => Raise (KeyError "MODEL")
  | Some model_config =>
      match SOLVER config with
      | None => Raise (KeyError "SOLVER")
      | Some loss_config =>
          let* lf := getitem "loss_function" (loss_function loss_config) in
          match lf with
          | Some lf => get_loss_of model_config loss_config device reduction lf
          | None => get_loss_named model_config loss_config None device reduction
          end
      end
  end.

(** [config_['SOLVER']['loss_function'] = loss_fun_type] *)
Definition set_loss_function (config : Config) (lf : loss_function_t) : Config :=
  {| MODEL := MODEL config;
     SOLVER := option_map
                 (fun s => {| loss_function := Value lf;
                              pos_weight := pos_weight s;
                              class_weights := class_weights s;
                              label_smoothing := label_smoothing s;
                              gamma := gamma s;
                              alpha := alpha s;
                              smooth := smooth s;
                              beta := beta s;
                              loss_weights := loss_weights s |})
                 (SOLVER config) |}.

(** The identifiers some branch of the factory compares with. *)
Definition supported_identifiers : list string :=
  ["contrastive_loss"; "masked_contrastive_loss"; "binary_cross_entropy";
   "masked_binary_cross_entropy"; "cross_entropy"; "weight_cross_entropy";
   "masked_cross_entropy"; "focal_loss"; "masked_focal_loss"; "masked_dice_loss";
   "tversky_loss"; "focal_tversky_loss"; "combined_dice_ce"]%string.

(** ** per_class_loss *)

(** [np.array] of the per-class results: arrays of one common shape stack,
    others are refused. *)
Definition same_shapes {A} (l : list (tensor A)) : bool :=
  match l with
  | [] => true
  | t :: l' => forallb (fun u => if list_eq_dec Nat.eq_dec (shape u) (shape t) then true else false) l'
  end.

Section per_class_loss.
Variable criterion : tensor R -> tensor Z -> tensor bool -> result (tensor R).
Variables (logits : tensor R) (labels : tensor Z) (unk_masks : tensor bool).
Variable n_classes : nat.

  (** Lines 124-130 for one class: its loss and its count. *)
Definition per_class_step (class_ : nat) : result (tensor R * Z) :=
    let idx := tmap (Z.eqb (Z.of_nat class_)) labels in
    let* rep := repeat_last 4 n_classes idx in
    let* sel := mask_index logits rep in
    let* class_logits := reshape_rows sel n_classes in
    let* l := mask_index labels idx in
    let* class_labels := reshape_rows l 1 in
    let* m := mask_index unk_masks idx in
    let* class_masks := reshape_rows m 1 in
    let* loss := criterion class_logits class_labels class_masks in
    let* m := mask_index unk_masks idx in
    Ok (loss, count_true (data m)).

Fixpoint per_class_loop (classes : list nat) : result (list (tensor R) * list Z) :=
    match classes with
    | [] => Ok ([], [])
    | class_ :: rest =>
        let* (loss, count) := per_class_step class_ in
        let* (class_loss, class_counts) := per_class_loop rest in
        Ok (loss :: class_loss, count :: class_counts)
    end.

  (** No element is NaN in this model, so [np.nan_to_num] returns its
      argument. *)
Definition per_class_loss : result (list (tensor R) * list Z) :=
    let* (class_loss, class_counts) := per_class_loop (seq 0 n_classes) in
    if same_shapes class_loss then Ok (class_loss, class_counts)
    else Raise (ValueError "setting an array element with a sequence").
End per_class_loss.

Definition Zsum (l : list Z) : Z := fold_right Z.add 0%Z l.

(** ** The functors of the file, under one interface *)

(** A functor class of the file with its parameters other than the
    reduction.  (CombinedLoss has no reduction of its own.) *)
Inductive functor : Type :=
| ContrastiveF (pos_weight : R)
| BinaryCrossEntropyF (pos_weight : option R)
| CrossEntropyF
| MaskedFocalF (gamma : R) (alpha : option (list R))
| DiceF (label_smoothing : R) (device : string)
| FocalF (gamma : R) (alpha : option (list R))
| TverskyF (smooth : R) (alpha : alpha_arg) (beta gamma : R).

(** The second argument of [forward]. *)
Definition second_argument (f : functor) : Type :=
  match f with
  | ContrastiveF _ | BinaryCrossEntropyF _ => ground_truth R
  | CrossEntropyF | MaskedFocalF _ _ | DiceF _ _ => ground_truth Z
  | FocalF _ _ | TverskyF _ _ _ _ => tensor Z
  end.

(** [forward] of the functor built with the given reduction.
    MaskedCrossEntropyLoss has the flag [mean] instead, which the factory
    sets to [reduction == 'mean'] (line 71). *)
Definition forward (f : functor) (reduction : reduction_t)
  : tensor R -> second_argument f -> result (tensor R) :=
  match f with
  | ContrastiveF pw =>
      MaskedContrastiveLoss_forward {| mcl_pos_weight := pw; mcl_reduction := reduction |}
  | BinaryCrossEntropyF pw =>
      MaskedBinaryCrossEntropy_forward {| mbce_reduction := reduction; mbce_pos_weight := pw |}
  | CrossEntropyF =>
      MaskedCrossEntropyLoss_forward
        {| mce_mean := match reduction with
                       | Some r => String.eqb r "mean"
                       | None => false
                       end |}
  | MaskedFocalF g a =>
      MaskedFocalLoss_forward {| mfl_gamma := g; mfl_alpha := a; mfl_reduction := reduction |}
  | DiceF ls device =>
      MaskedDiceLoss_forward
        {| mdl_reduction := reduction; mdl_label_smoothing := ls; mdl_device := device |}
  | FocalF g a =>
      FocalLoss_forward {| fl_gamma := g; fl_alpha := a; fl_reduction := reduction |}
  | TverskyF s a b g =>
      FocalTverskyLoss_forward
        {| ftl_smooth := s; ftl_alpha := a; ftl_beta := b; ftl_gamma := g;
           ftl_reduction := reduction |}
  end.

(** The value of [reduction] under which a functor returns the loss of every
    element: [None] for the functors that end with the three-way test of
    lines 284-292, the string "none" for the others. *)
Definition no_reduction (f : functor) : reduction_t :=
  match f with
  | ContrastiveF _ | BinaryCrossEntropyF _ | CrossEntropyF => Some "none"%string
  | MaskedFocalF _ _ | DiceF _ _ | FocalF _ _ | TverskyF _ _ _ _ => None
  end.

(** The functors whose [forward] ends with the three-way test on
    [self.reduction], and the message each raises. *)
Definition reduction_message (f : functor) : option string :=
  match f with
  | MaskedFocalF _ _ | FocalF _ _ => Some focal_msg
  | DiceF _ _ => Some dice_msg
  | TverskyF _ _ _ _ => Some tversky_msg
  | ContrastiveF _ | BinaryCrossEntropyF _ | CrossEntropyF => None
  end.

(** * The specification's formulas

    Definitions that follow the words of the specification; the properties
    below compare them with the definitions taken from the source. *)


(** "sum over all elements of mask * (-posWeight * target * logits
    + (1 - target) * logits), divided by the total number of elements", on the
    elements of three tensors of one shape. *)
Definition contrastive_terms (pos_weight : R) (logits target : list R) : list R :=
  zip_with (fun t x => (- pos_weight * t * x + (1 - t) * x)%R) target logits.

Definition contrastive_mean (pos_weight : R) (logits target : list R) : R :=
  (Rsum (contrastive_terms pos_weight logits target) / INR (length logits))%R.

Definition masked_contrastive_mean (pos_weight : R) (logits target : list R)
    (mask : list bool) : R :=
  (Rsum (zip_with (fun (b : bool) v => (bool_to_float b * v)%R) mask
           (contrastive_terms pos_weight logits target))
   / INR (length logits))%R.

(** C1 as the specification states it, on well-formed tensors: for logits
    whose last axis holds the classes, a target over the leading axes and an
    all-true mask of the shape of the target, MaskedFocalLoss and FocalLoss
    with identical gamma, alpha and reduction return the same. *)
Definition masked_focal_agrees_with_focal : Prop :=
  forall (gamma : R) (alpha : option (list R)) (reduction : reduction_t)
         (logits : tensor R) (target : tensor Z) (mask : tensor bool),
    well_formed logits -> well_formed target -> well_formed mask ->
    shape target = removelast (shape logits) ->
    shape mask = shape target ->
    forallb (fun b => b) (data mask) = true ->
    MaskedFocalLoss_forward
      {| mfl_gamma := gamma; mfl_alpha := alpha; mfl_reduction := reduction |}
      logits (GSeq (ItemsN target mask []))
    = FocalLoss_forward
        {| fl_gamma := gamma; fl_alpha := alpha; fl_reduction := reduction |}
        logits target.

(** "the count of valid elements contributing" to a class: the true mask
    elements at the positions the class labels. *)
Definition class_count (labels : tensor Z) (unk_masks : tensor bool) (class_ : nat) : Z :=
  count_true (select (map (Z.eqb (Z.of_nat class_)) (data labels)) (data unk_masks)).

(** C4 as the specification states it: under a reduction string other than
    "mean", "sum" and "none", every functor fails with the reduction error. *)
Definition every_functor_rejects_unsupported_reduction : Prop :=
  forall (f : functor) (r : string) (logits : tensor R) (gt : second_argument f),
    r <> "mean"%string -> r <> "sum"%string -> r <> "none"%string ->
    exists msg, forward f (Some r) logits gt = Raise (ValueError msg).




(** C8 as the specification states it: for every configuration whose
    [loss_function] is a sequence of [n] supported identifiers, the factory
    returns a sequence of [n] functors. *)
Definition factory_builds_every_sequence : Prop :=
  forall (mc : ModelConfig) (sc : SolverConfig) (device : string) (reduction : reduction_t)
         (ids : list string),
    loss_function sc = Value (LossNames (map LossName ids)) ->
    Forall (fun id => In id supported_identifiers) ids ->
    exists ms : list nn_Module,
      get_loss {| MODEL := Some mc; SOLVER := Some sc |} device reduction
      = Ok (PyList (map PyModule ms))
      /\ length ms = length ids.

(** ** Sample configurations *)

(** A configuration with every optional key missing. *)
Definition bare_solver (lf : loss_function_t) : SolverConfig :=
  {| loss_function := Value lf; pos_weight := Missing; class_weights := Missing;
     label_smoothing := Missing; gamma := Missing; alpha := Missing;
     smooth := Missing; beta := Missing; loss_weights := Missing |}.

Definition bare_config (lf : loss_function_t) : Config :=
  {| MODEL := Some {| num_classes := Missing |}; SOLVER := Some (bare_solver lf) |}.

(** * The learning-rate schedulers (utils/lr_scheduler.py) *)

(** ** LinearLRScheduler *)

(** [base_values] comes from the base class: the initial learning rate of
    every parameter group.  The noise arguments are passed on to the base
    class and never read here. *)
Record LinearLRScheduler : Type := {
  lin_base_values : list R;
  lin_t_initial : Z;
  lin_lr_min_rate : R;
  lin_warmup_t : Z;
  lin_warmup_lr_init : R;
  lin_t_in_epochs : bool;
  lin_warmup_steps : list R
}.

(** Lines 82-109.  [if self.warmup_t:] holds for every number but 0. *)
Definition LinearLRScheduler_init (base_values : list R) (t_initial : Z) (lr_min_rate : R)
    (warmup_t : Z) (warmup_lr_init : R) (t_in_epochs : bool) : LinearLRScheduler :=
  {| lin_base_values := base_values;
     lin_t_initial := t_initial;
     lin_lr_min_rate := lr_min_rate;
     lin_warmup_t := warmup_t;
     lin_warmup_lr_init := warmup_lr_init;
     lin_t_in_epochs := t_in_epochs;
     lin_warmup_steps :=
       if (warmup_t =? 0)%Z then map (fun _ => 1%R) base_values
       else map (fun v => ((v - warmup_lr_init) / IZR warmup_t)%R) base_values |}.

(** Lines 111-118.  The division [t / total_t] is made once per base value:
    it raises ZeroDivisionError when [total_t] is 0 and there is a value. *)
Definition LinearLRScheduler_get_lr (self : LinearLRScheduler) (t : Z) : result (list R) :=
  if (t <? lin_warmup_t self)%Z then
    Ok (map (fun s => (lin_warmup_lr_init self + IZR t * s)%R) (lin_warmup_steps self))
  else
    let t := (t - lin_warmup_t self)%Z in
    let total_t := (lin_t_initial self - lin_warmup_t self)%Z in
    match lin_base_values self with
    | [] => Ok []
    | _ :: _ =>
        if (total_t =? 0)%Z then Raise ZeroDivisionError
        else Ok (map (fun v => (v - (v - v * lin_lr_min_rate self) * (IZR t / IZR total_t))%R)
                     (lin_base_values self))
    end.

(** Lines 120-129; [None] is Python's [None]. *)
Definition LinearLRScheduler_get_epoch_values (self : LinearLRScheduler) (epoch : Z)
  : result (option (list R)) :=
  if lin_t_in_epochs self then
    let* lrs := LinearLRScheduler_get_lr self epoch in Ok (Some lrs)
  else Ok None.

Definition LinearLRScheduler_get_update_values (self : LinearLRScheduler) (num_updates : Z)
  : result (option (list R)) :=
  if negb (lin_t_in_epochs self) then
    let* lrs := LinearLRScheduler_get_lr self num_updates in Ok (Some lrs)
  else Ok None.

(** ** build_scheduler *)

(** The keys of [config['SOLVER']] that build_scheduler reads. *)
Record SchedulerConfig : Type := {
  num_epochs : entry Z;
  num_cycles : entry Z;
  num_warmup_epochs : entry Z;
  lr_scheduler : entry string;
  lr_min : entry R;
  lr_start : entry R
}.

(** The arguments build_scheduler passes to timm's CosineLRScheduler
    (besides the optimizer). *)
Record CosineLRScheduler_args : Type := {
  cos_t_initial : Z;
  cos_lr_min : R;
  cos_warmup_lr_init : R;
  cos_warmup_t : Z;
  cos_cycle_limit : Z;
  cos_t_in_epochs : bool
}.

(** [d[key]] for a key that has to hold a number: a missing key raises
    KeyError, [None] makes the arithmetic on it raise TypeError. *)
Definition number_at {A} (key : string) (e : entry A) : result A :=
  match e with
  | Missing => Raise (KeyError key)
  | IsNone => Raise TypeError
  | Value a => Ok a
  end.

Section build_scheduler.
(** The class is imported from timm: its constructor is a parameter. *)
Variable Scheduler : Type.
Variable CosineLRScheduler : CosineLRScheduler_args -> result Scheduler.

(** Lines 16-34, on integer epochs and cycles: [int(a * n / c)] truncates the
    quotient towards zero. *)
Definition build_scheduler (solver : SchedulerConfig) (n_iter_per_epoch : Z)
  : result (option Scheduler) :=
  let* epochs := number_at "num_epochs" (num_epochs solver) in
  let* cycles := number_at "num_cycles" (num_cycles solver) in
  if (cycles =? 0)%Z then Raise ZeroDivisionError
  else
    let t_initial := Z.quot (epochs * n_iter_per_epoch) cycles in
    let* warmup := number_at "num_warmup_epochs" (num_warmup_epochs solver) in
    let warmup_steps := (warmup * n_iter_per_epoch)%Z in
    let* name := getitem "lr_scheduler" (lr_scheduler solver) in
    let cosine := match name with
                  | Some n => String.eqb n "cosine"
                  | None => false
                  end in
    if cosine then
      let* lr_min := number_at "lr_min" (lr_min solver) in
      let* lr_start := number_at "lr_start" (lr_start solver) in
      let* cycles' := number_at "num_cycles" (num_cycles solver) in
      let* lr_scheduler :=
        CosineLRScheduler {| cos_t_initial := t_initial;
                             cos_lr_min := lr_min;
                             cos_warmup_lr_init := lr_start;
                             cos_warmup_t := warmup_steps;
                             cos_cycle_limit := cycles';
                             cos_t_in_epochs := false |} in
      Ok (Some lr_scheduler)
    else Ok None.
End build_scheduler.

(** * get_model (models/__init__.py) *)

(** What a call of get_model ends with: a network, an exception raised by a
    lookup or by a constructor, or one of the two exceptions get_model raises
    itself. *)
Inductive get_model_outcome (Net : Type) : Type :=
| Built (net : Net)
| Raised (e : PyError)
| NotImplementedError (msg : string)
| NameError (msg : string).

Arguments Built {Net} net.
Arguments Raised {Net} e.
Arguments NotImplementedError {Net} msg.
Arguments NameError {Net} msg.

Definition architectures : list string :=
  ["UNET3Df"; "UNET3D"; "UNET2D-CLSTM"; "ConvBiRNN"; "TSViTcls"; "TSViT"]%string.

Section get_model.
(** The network classes are imported from other packages: each constructor
    is a parameter, called on the model configuration (and on the device
    where the source passes it). *)
Variables Cfg Net : Type.
Variable architecture : Cfg -> entry string.
Variables UNet3D_CSCL UNet3D TSViTcls TSViT : Cfg -> result Net.
Variable BiRNNSequentialEncoder : Cfg -> string -> result Net.
(** [model_config['device'] = device] *)
Variable set_device : Cfg -> string -> Cfg.

Definition constructed (r : result Net) : get_model_outcome Net :=
  match r with
  | Ok net => Built net
  | Raise e => Raised e
  end.

(** [model] is [None] when the configuration has no 'MODEL' key. *)
Definition get_model (model : option Cfg) (device : string) : get_model_outcome Net :=
  match model with
  | None => Raised (KeyError "MODEL")
  | Some model_config =>
      match architecture model_config with
      | Missing => Raised (KeyError "architecture")
      | e =>
          let named (s : string) : bool :=
            match e with Value a => String.eqb a s | _ => false end in
          if named "UNET3Df"%string then constructed (UNet3D_CSCL model_config)
          else if named "UNET3D"%string then constructed (UNet3D model_config)
          else if named "UNET2D-CLSTM"%string then NotImplementedError "Error with "%string
          else if named "ConvBiRNN"%string then constructed (BiRNNSequentialEncoder model_config device)
          else if named "TSViTcls"%string then constructed (TSViTcls (set_device model_config device))
          else if named "TSViT"%string then constructed (TSViT model_config)
          else NameError "Model architecture %s not found, choose from: 'UNET3D', 'UNET3Df', 'UNET2D-CLSTM', 'TSViT', 'TSViTcls'"%string
      end
  end.
End get_model.

(** The position [weight[key]] names in a vector of [n] entries. *)
Definition key_index (n : nat) (key : Z) : nat :=
  if (0 <=? key)%Z then Z.to_nat key else Z.to_nat (key + Z.of_nat n).

Definition key_in_range (n : nat) (key : Z) : bool :=
  ((- Z.of_nat n <=? key) && (key <? Z.of_nat n))%Z.

(** ** What a mask keeps *)

(** The entries of [t] at the positions where the flattened [mask] is true,
    and the rows of [c] entries of [t] at those positions. *)
Definition kept {A} (mask : tensor bool) (t : tensor A) : tensor A :=
  let sel := select (data mask) (data t) in
  Tensor [length sel] sel.

Definition kept_rows {A} (c : nat) (mask : tensor bool) (t : tensor A) : tensor A :=
  let sel := select (data mask) (chunks (numel mask) c (data t)) in
  Tensor [length sel; c] (concat sel).

(** ** The functors built on log-probabilities *)

(** [alpha] holds no negative class weight. *)
Definition nonnegative_alpha (alpha : option (list R)) : Prop :=
  match alpha with
  | Some a => Forall (fun w => (0 <= w)%R) a
  | None => True
  end.

(** MaskedCrossEntropyLoss, and the two focal functors when gamma is not
    negative and no class weight is negative. *)
Definition log_likelihood_functor (f : functor) : Prop :=
  match f with
  | CrossEntropyF => True
  | MaskedFocalF gamma alpha | FocalF gamma alpha =>
      (0 <= gamma)%R /\ nonnegative_alpha alpha
  | _ => False
  end.

(** * Properties *)

Unset Implicit Arguments.

(** Follow a run that returned: every step of [H : ... = Ok _] is replaced by
    its outcome, in [H] and in the goal. *)
Ltac follow H :=
  repeat (cbn [String.eqb Ascii.eqb Bool.eqb] in H |- *;
          match type of H with
          | bind ?c _ = _ => destruct c as [?|?]; cbn [bind] in H |- *
          | (let (_, _) := ?p in _) = _ => destruct p
          | (if ?b then _ else _) = _ => destruct b
          | match ?x with _ => _ end = _ => destruct x
          end; try discriminate H).

(** ** Lists and tensors *)

Lemma concat_chunks {A} (n k : nat) (d : list A) :
  length d = n * k -> concat (chunks n k d) = d.
Proof.
  revert d; induction n as [|n IH]; intros d H; simpl in *.
  - destruct d; [reflexivity | discriminate].
  - rewrite IH.
    + apply firstn_skipn.
    + rewrite length_skipn. lia.
Qed.

Lemma chunks_Forall_length {A} (n k : nat) (d : list A) :
  length d = n * k -> Forall (fun c => length c = k) (chunks n k d).
Proof.
  revert d; induction n as [|n IH]; intros d H; simpl in *; constructor.
  - rewrite length_firstn. lia.
  - apply IH. rewrite length_skipn. lia.
Qed.

Lemma chunks_1 {A} (d : list A) :
  chunks (length d) 1 d = map (fun x => [x]) d.
Proof.
  induction d as [|x d IH]; simpl; [reflexivity|].
  now rewrite IH.
Qed.

Lemma broadcast_rev_same (s : list nat) : broadcast_rev s s = Some s.
Proof.
  induction s as [|x s IH]; simpl; [reflexivity|].
  now rewrite IH, Nat.eqb_refl.
Qed.

Lemma broadcast_shapes_same (s : list nat) : broadcast_shapes s s = Some s.
Proof.
  unfold broadcast_shapes. rewrite broadcast_rev_same. simpl.
  now rewrite rev_involutive.
Qed.

Lemma pad_shape_same (s : list nat) : pad_shape (length s) s = s.
Proof. unfold pad_shape. now rewrite Nat.sub_diag. Qed.

Lemma map_id_Forall {A} (f : A -> A) (l : list A) :
  Forall (fun x => f x = x) l -> map f l = l.
Proof.
  induction 1 as [|x l Hx _ IH]; simpl; [reflexivity|].
  now rewrite Hx, IH.
Qed.

Lemma expand_same {A} (s : list nat) (d : list A) :
  length d = numel_of_shape s -> expand s s d = d.
Proof.
  revert d; induction s as [|x s IH]; intros d H; simpl in *; [reflexivity|].
  rewrite Nat.eqb_refl.
  rewrite map_id_Forall.
  - now apply concat_chunks.
  - eapply Forall_impl; [|apply chunks_Forall_length; exact H].
    intros c Hc. now apply IH.
Qed.

Lemma expand_to_same {A} (t : tensor A) :
  well_formed t -> expand_to (shape t) t = data t.
Proof.
  intros H. unfold expand_to. rewrite pad_shape_same. now apply expand_same.
Qed.

Lemma tensor_op_same_shape {A B C} (f : A -> B -> C) (a : tensor A) (b : tensor B) :
  shape a = shape b -> well_formed a -> well_formed b ->
  tensor_op f a b = Ok (Tensor (shape a) (zip_with f (data a) (data b))).
Proof.
  intros Hs Ha Hb. unfold tensor_op.
  rewrite <- Hs, broadcast_shapes_same.
  rewrite (expand_to_same a Ha).
  rewrite Hs at 2. now rewrite (expand_to_same b Hb).
Qed.

Lemma zip_with_length {A B C} (f : A -> B -> C) (xs : list A) (ys : list B) :
  length xs = length ys -> length (zip_with f xs ys) = length xs.
Proof.
  revert ys; induction xs as [|x xs IH]; intros [|y ys] H; simpl in *;
    try discriminate; [reflexivity|].
  now rewrite IH by lia.
Qed.

Lemma zip_with_map_l {A A' B C} (f : A' -> B -> C) (g : A -> A') xs ys :
  zip_with f (map g xs) ys = zip_with (fun x y => f (g x) y) xs ys.
Proof.
  revert ys; induction xs as [|x xs IH]; intros [|y ys]; simpl; try reflexivity.
  now rewrite IH.
Qed.



(** ** CombinedLoss *)

Section CombinedLoss_properties.
Variables F Inputs Targets : Type.
Variable call : F -> Inputs -> Targets -> result (tensor R).
Variables (inputs : Inputs) (targets : Targets).

  (** The loop reads [weights] only at the indices of the sub-losses left. *)
Lemma CombinedLoss_loop_weights (ws ws' : list R) (fns : list F) :
    forall i loss,
      (forall j, i <= j < i + length fns -> nth_error ws j = nth_error ws' j) ->
      CombinedLoss_loop call ws inputs targets i fns loss
      = CombinedLoss_loop call ws' inputs targets i fns loss.
  Proof.
    induction fns as [|f fns IH]; intros i loss H; simpl in *; [reflexivity|].
    unfold list_item. rewrite (H i) by lia.
    destruct (nth_error ws' i) as [w|]; simpl; [|reflexivity].
    destruct (call f inputs targets) as [v|e]; simpl; [|reflexivity].
    destruct (add_term loss (tmap (Rmult w) v)) as [l|e]; simpl; [|reflexivity].
    apply IH. intros j Hj. apply H. lia.
  Qed.


End CombinedLoss_properties.




(** C10.  With no sub-loss, forward returns the number 0 whatever the
    weights, inputs and targets are; and forward reads only the first
    [len(loss_fns)] weights: cutting the weights to that length, or adding
    surplus weights, changes nothing. *)
Theorem CombinedLoss_forward_empty_and_surplus :
  forall (F Inputs Targets : Type) (call : F -> Inputs -> Targets -> result (tensor R))
         (inputs : Inputs) (targets : Targets),
    (forall ws : list R,
        CombinedLoss_forward call {| loss_fns := []; weights := ws |} inputs targets
        = Ok (Number 0))
    /\ (forall (fns : list F) (ws : list R),
           CombinedLoss_forward call {| loss_fns := fns; weights := ws |} inputs targets
           = CombinedLoss_forward call
               {| loss_fns := fns; weights := firstn (length fns) ws |} inputs targets)
    /\ (forall (fns : list F) (ws surplus : list R),
           length ws = length fns ->
           CombinedLoss_forward call {| loss_fns := fns; weights := ws ++ surplus |}
             inputs targets
           = CombinedLoss_forward call {| loss_fns := fns; weights := ws |} inputs targets).
Proof.
  intros F Inputs Targets call inputs targets.
  assert (Hcut : forall (fns : list F) (ws : list R),
             CombinedLoss_forward call {| loss_fns := fns; weights := ws |} inputs targets
             = CombinedLoss_forward call
                 {| loss_fns := fns; weights := firstn (length fns) ws |} inputs targets).
  { intros fns ws. unfold CombinedLoss_forward. cbn [weights loss_fns].
    apply CombinedLoss_loop_weights. intros j Hj.
    rewrite nth_error_firstn.
    destruct (j <? length fns) eqn:E; [reflexivity|].
    apply Nat.ltb_ge in E. lia. }
  split; [reflexivity|]. split; [exact Hcut|].
  intros fns ws surplus Hlen.
  rewrite Hcut. rewrite <- Hlen, firstn_app, Nat.sub_diag, firstn_all. simpl.
  now rewrite app_nil_r.
Qed.

(** ** The factory *)

(** The dispatch never reads [loss_function] from the configuration it is
    given: the identifier is passed to it. *)
Lemma get_loss_of_loss_function (mc : ModelConfig) (sc : SolverConfig)
    (e : entry loss_function_t) (device : string) (reduction : reduction_t) :
  forall lf,
    get_loss_of mc {| loss_function := e;
                      pos_weight := pos_weight sc;
                      class_weights := class_weights sc;
                      label_smoothing := label_smoothing sc;
                      gamma := gamma sc;
                      alpha := alpha sc;
                      smooth := smooth sc;
                      beta := beta sc;
                      loss_weights := loss_weights sc |} device reduction lf
    = get_loss_of mc sc device reduction lf.
Proof.
  fix IH 1. intros [s|l].
  - reflexivity.
  - cbn [get_loss_of]. f_equal.
    induction l as [|x l IHl]; [reflexivity|].
    simpl. rewrite (IH x). now rewrite IHl.
Qed.

(** The recursive call of line 23 is made on a copy of the configuration
    whose [loss_function] is the element: [get_loss_of] computes it. *)
Lemma get_loss_set_loss_function (mc : ModelConfig) (sc : SolverConfig)
    (lf : loss_function_t) (device : string) (reduction : reduction_t) :
  get_loss (set_loss_function {| MODEL := Some mc; SOLVER := Some sc |} lf) device reduction
  = get_loss_of mc sc device reduction lf.
Proof.
  unfold get_loss, set_loss_function. cbn [MODEL SOLVER option_map loss_function getitem bind].
  apply get_loss_of_loss_function.
Qed.

Lemma for_each_ext {A B} (f g : A -> result B) (l : list A) :
  (forall x, In x l -> f x = g x) -> for_each f l = for_each g l.
Proof.
  induction l as [|x l IH]; intros H; simpl; [reflexivity|].
  rewrite (H x) by now left.
  rewrite IH; [reflexivity|]. intros y Hy. apply H. now right.
Qed.

Lemma get_loss_list (mc : ModelConfig) (sc : SolverConfig) (l : list loss_function_t)
    (device : string) (reduction : reduction_t) :
  loss_function sc = Value (LossNames l) ->
  get_loss {| MODEL := Some mc; SOLVER := Some sc |} device reduction
  = let* fs := for_each
                 (fun x => get_loss
                             (set_loss_function {| MODEL := Some mc; SOLVER := Some sc |} x)
                             device reduction) l in
    Ok (PyList fs).
Proof.
  intros H. unfold get_loss at 1. cbn [MODEL SOLVER]. rewrite H.
  cbn [getitem bind get_loss_of]. f_equal.
  apply for_each_ext. intros x _. symmetry. apply get_loss_set_loss_function.
Qed.

Lemma get_loss_single (mc : ModelConfig) (sc : SolverConfig) (s : string)
    (device : string) (reduction : reduction_t) :
  loss_function sc = Value (LossName s) ->
  get_loss {| MODEL := Some mc; SOLVER := Some sc |} device reduction
  = get_loss_named mc sc (Some s) device reduction.
Proof.
  intros H. unfold get_loss. cbn [MODEL SOLVER]. now rewrite H.
Qed.

(** For a supported identifier the dispatch raises or returns a functor. *)
Lemma get_loss_named_supported (mc : ModelConfig) (sc : SolverConfig) (s : string)
    (device : string) (reduction : reduction_t) (v : py_value) :
  In s supported_identifiers ->
  get_loss_named mc sc (Some s) device reduction = Ok v ->
  exists m, v = PyModule m.
Proof.
  intros Hin. unfold supported_identifiers in Hin. simpl in Hin.
  repeat (destruct Hin as [<-|Hin]); try contradiction;
    unfold get_loss_named; cbn -[Rdiv Rplus Rinv Rmult];
    unfold getitem, pos_weight_pair;
    repeat match goal with
           | |- context [match ?x with _ => _ end] => destruct x; cbn -[Rdiv Rplus Rinv Rmult]
           | |- context [bind ?c _] => destruct c; cbn -[Rdiv Rplus Rinv Rmult]
           end;
    intros H; inversion H; eauto.
Qed.

(** C3.  For an identifier outside the supported ones the factory raises
    nothing: no branch of the dispatch matches, and get_loss returns
    [None]. *)
Theorem get_loss_unknown_identifier :
  forall (mc : ModelConfig) (sc : SolverConfig) (s : string)
         (device : string) (reduction : reduction_t),
    loss_function sc = Value (LossName s) ->
    ~ In s supported_identifiers ->
    get_loss {| MODEL := Some mc; SOLVER := Some sc |} device reduction = Ok PyNone.
Proof.
  intros mc sc s device reduction Hlf Hs.
  rewrite (get_loss_single mc sc s device reduction Hlf).
  assert (Hne : forall x, In x supported_identifiers -> String.eqb s x = false).
  { intros x Hx. apply String.eqb_neq. intros ->. contradiction. }
  unfold get_loss_named, in_names. cbn [existsb].
  repeat match goal with
         | |- context [String.eqb s ?x] =>
             rewrite (Hne x) by (unfold supported_identifiers; simpl; tauto)
         end.
  reflexivity.
Qed.

(** The failing input of C3: [loss_function = "dice_loss"]. *)
Lemma get_loss_unknown_identifier_witness :
  get_loss (bare_config (LossName "dice_loss")) "cpu" (Some "mean"%string) = Ok PyNone.
Proof.
  apply (get_loss_unknown_identifier _ (bare_solver (LossName "dice_loss")) "dice_loss").
  - reflexivity.
  - unfold supported_identifiers. simpl.
    intros H. repeat (destruct H as [H|H]; [discriminate H|]). exact H.
Defined.

(** C8, amended.  For a [loss_function] that is a sequence of supported
    identifiers, each of which the factory can build on its own from the
    configuration, get_loss returns the list of the functors it builds for the
    identifiers one by one, as many as there are identifiers and in their
    order; [["focal_loss", "masked_dice_loss"]] gives a FocalLoss followed by
    a MaskedDiceLoss, whatever the rest of the configuration is; and when the
    factory raises for one identifier of the sequence on its own, it returns
    nothing for the sequence. *)
Theorem get_loss_sequence :
  forall (mc : ModelConfig) (sc : SolverConfig) (device : string) (reduction : reduction_t),
    let config := {| MODEL := Some mc; SOLVER := Some sc |} in
    (forall ids : list string,
        loss_function sc = Value (LossNames (map LossName ids)) ->
        Forall (fun id => In id supported_identifiers) ids ->
        Forall (fun id => returns (get_loss (set_loss_function config (LossName id))
                                     device reduction)) ids ->
        exists ms : list nn_Module,
          get_loss config device reduction = Ok (PyList (map PyModule ms))
          /\ length ms = length ids
          /\ Forall2 (fun id m => get_loss (set_loss_function config (LossName id))
                                    device reduction = Ok (PyModule m)) ids ms)
    /\ (loss_function sc
        = Value (LossNames [LossName "focal_loss"; LossName "masked_dice_loss"]) ->
        get_loss config device reduction
        = Ok (PyList
                [PyModule (M_FocalLoss
                             (FocalLoss_init (get_params_values (gamma sc) 1%R)
                                (get_params_values_None (alpha sc)) reduction));
                 PyModule (M_MaskedDiceLoss
                             {| mdl_reduction := reduction;
                                mdl_label_smoothing :=
                                  get_params_values (label_smoothing sc) 0%R;
                                mdl_device := device |})]))
    /\ (forall ids : list string,
           loss_function sc = Value (LossNames (map LossName ids)) ->
           Exists (fun id => ~ returns (get_loss (set_loss_function config (LossName id))
                                          device reduction)) ids ->
           ~ returns (get_loss config device reduction)).
Proof.
  intros mc sc device reduction config. split; [|split].
  - intros ids Hlf Hsup Hret.
    unfold config. rewrite (get_loss_list mc sc _ device reduction Hlf).
    clear Hlf. induction ids as [|id ids IH].
    + exists []. repeat split. constructor.
    + apply Forall_cons_iff in Hsup. destruct Hsup as [Hid Hsup].
      apply Forall_cons_iff in Hret. destruct Hret as [[v Hv] Hret].
      destruct (IH Hsup Hret) as (ms & Hms & Hlen & Hall).
      assert (Hm : exists m, v = PyModule m).
      { unfold config in Hv. rewrite get_loss_set_loss_function in Hv.
        apply (get_loss_named_supported mc sc id device reduction v Hid Hv). }
      destruct Hm as [m ->].
      exists (m :: ms). repeat split.
      * cbn [map for_each]. fold config. rewrite Hv. cbn [bind].
        destruct (for_each _ (map LossName ids)) as [fs|e]; cbn [bind] in *;
          [|discriminate].
        inversion Hms. reflexivity.
      * simpl. now rewrite Hlen.
      * constructor; assumption.
  - intros Hlf. unfold config. rewrite (get_loss_list mc sc _ device reduction Hlf).
    cbn [for_each]. rewrite !get_loss_set_loss_function. reflexivity.
  - intros ids Hlf Hex [v Hv].
    unfold config in Hv. rewrite (get_loss_list mc sc _ device reduction Hlf) in Hv.
    fold config in Hv. clear Hlf.
    destruct (for_each (fun x => get_loss (set_loss_function config x) device reduction)
                (map LossName ids)) as [fs|e] eqn:E; cbn [bind] in Hv; [|discriminate].
    clear Hv. revert fs E.
    induction Hex as [id ids Hid|id ids Hex IH]; intros fs E; cbn [map for_each] in E.
    + destruct (get_loss (set_loss_function config (LossName id)) device reduction)
        as [x|e] eqn:Ex; cbn [bind] in E; [|discriminate].
      apply Hid. exists x. reflexivity.
    + destruct (get_loss (set_loss_function config (LossName id)) device reduction)
        as [x|e]; cbn [bind] in E; [|discriminate].
      destruct (for_each (fun x => get_loss (set_loss_function config x) device reduction)
                  (map LossName ids)) as [xs|e]; cbn [bind] in E; [|discriminate].
      apply (IH xs eq_refl).
Qed.

(** A concrete run of C8. *)
Lemma get_loss_sequence_witness :
  exists ms : list nn_Module,
    get_loss (bare_config (LossNames (map LossName ["masked_contrastive_loss";
                                                     "masked_cross_entropy"]%string)))
      "cpu" (Some "mean"%string)
    = Ok (PyList (map PyModule ms))
    /\ length ms = 2
    /\ Forall2 (fun id m =>
                  get_loss (set_loss_function
                              (bare_config (LossNames (map LossName
                                                         ["masked_contrastive_loss";
                                                          "masked_cross_entropy"]%string)))
                              (LossName id)) "cpu" (Some "mean"%string)
                  = Ok (PyModule m))
         ["masked_contrastive_loss"; "masked_cross_entropy"]%string ms.
Proof.
  apply (proj1 (get_loss_sequence {| num_classes := Missing |}
                  (bare_solver (LossNames (map LossName ["masked_contrastive_loss";
                                                         "masked_cross_entropy"]%string)))
                  "cpu" (Some "mean"%string))
           ["masked_contrastive_loss"; "masked_cross_entropy"]%string).
  - reflexivity.
  - repeat constructor; unfold supported_identifiers; simpl; tauto.
  - repeat constructor; eexists; reflexivity.
Defined.

(** The sequence ["combined_dice_ce"] in a configuration without
    [pos_weight]: the factory raises KeyError. *)
Lemma get_loss_sequence_missing_key :
  ~ factory_builds_every_sequence.
Proof.
  intros H.
  destruct (H {| num_classes := Missing |}
              (bare_solver (LossNames (map LossName ["combined_dice_ce"]%string)))
              "cpu"%string None ["combined_dice_ce"]%string eq_refl)
    as (ms & Hms & _).
  - constructor; [|constructor]. unfold supported_identifiers. simpl. tauto.
  - discriminate Hms.
Qed.

(** ** Reductions *)

(** C5.  For every functor of the file and every input, when the functor
    built without reduction returns the tensor [t] of per-element losses, the
    same functor built with reduction "mean" returns the mean of [t]. *)
Theorem mean_of_unreduced_loss :
  forall (f : functor) (logits : tensor R) (gt : second_argument f) (t : tensor R),
    forward f (no_reduction f) logits gt = Ok t ->
    forward f (Some "mean"%string) logits gt = Ok (tmean t).
Proof.
  intros f logits gt t H.
  destruct f; cbn [forward no_reduction second_argument] in *.
  - unfold MaskedContrastiveLoss_forward in *.
    cbn [mcl_reduction mcl_pos_weight] in *.
    follow H. inversion H. reflexivity.
  - unfold MaskedBinaryCrossEntropy_forward, BCEWithLogitsLoss in *.
    cbn [mbce_reduction mbce_pos_weight bind] in *.
    follow H. inversion H. reflexivity.
  - unfold MaskedCrossEntropyLoss_forward in *.
    cbn [mce_mean String.eqb Ascii.eqb Bool.eqb] in *.
    follow H. inversion H. reflexivity.
  - unfold MaskedFocalLoss_forward in *.
    cbn [mfl_reduction mfl_gamma mfl_alpha] in *.
    follow H. inversion H. reflexivity.
  - unfold MaskedDiceLoss_forward in *.
    cbn [mdl_reduction mdl_label_smoothing mdl_device] in *.
    follow H. inversion H. reflexivity.
  - unfold FocalLoss_forward in *.
    cbn [fl_reduction fl_gamma fl_alpha] in *.
    follow H. inversion H. reflexivity.
  - unfold FocalTverskyLoss_forward in *.
    cbn [ftl_reduction ftl_gamma ftl_alpha ftl_beta ftl_smooth] in *.
    follow H. inversion H. reflexivity.
Qed.

(** A concrete run of C5 on FocalLoss: three rows of two classes, hence
    three losses, which the mean divides by 3. *)
Lemma mean_of_unreduced_loss_witness :
  exists t : tensor R,
    forward (FocalF 2 None) None
      (Tensor [3; 2] [0%R; 1%R; 2%R; 0%R; 1%R; 1%R]) (Tensor [3] [1%Z; 0%Z; 1%Z]) = Ok t
    /\ numel t = 3
    /\ forward (FocalF 2 None) (Some "mean"%string)
         (Tensor [3; 2] [0%R; 1%R; 2%R; 0%R; 1%R; 1%R]) (Tensor [3] [1%Z; 0%Z; 1%Z])
       = Ok (tmean t).
Proof.
  eexists. split; [reflexivity|]. split; [reflexivity|].
  apply (mean_of_unreduced_loss (FocalF 2 None)). reflexivity.
Defined.

(** MaskedContrastiveLoss built with reduction "bogus" returns the
    per-element loss of a one-element input. *)
Lemma MaskedContrastiveLoss_bogus_reduction :
  ~ every_functor_rejects_unsupported_reduction.
Proof.
  intros H.
  destruct (H (ContrastiveF 1%R) "bogus"%string (Tensor [1] [2%R])
              (GTensor (Tensor [1] [1%R]))) as [msg Hmsg]; try discriminate.
Qed.

(** C4, amended.  Under a reduction string [r] other than "mean":
    - MaskedFocalLoss, MaskedDiceLoss, FocalLoss and FocalTverskyLoss never
      return a result when [r] is not "sum" either, and raise ValueError with
      their reduction message whenever the loss itself can be computed;
    - MaskedContrastiveLoss returns what it returns without reduction;
    - MaskedCrossEntropyLoss, whose flag [mean] is then false, also does;
    - MaskedBinaryCrossEntropy never returns a result when [r] is none of
      "none", "elementwise_mean" and "sum". *)
Theorem unsupported_reduction :
  forall r : string,
    r <> "mean"%string ->
    (forall (f : functor) (msg : string) (logits : tensor R) (gt : second_argument f),
        r <> "sum"%string ->
        reduction_message f = Some msg ->
        ~ returns (forward f (Some r) logits gt)
        /\ (returns (forward f None logits gt) ->
            forward f (Some r) logits gt = Raise (ValueError msg)))
    /\ (forall (pw : R) (logits : tensor R) (gt : ground_truth R),
           forward (ContrastiveF pw) (Some r) logits gt
           = forward (ContrastiveF pw) None logits gt)
    /\ (forall (logits : tensor R) (gt : ground_truth Z),
           forward CrossEntropyF (Some r) logits gt = forward CrossEntropyF None logits gt)
    /\ (forall (pw : option R) (logits : tensor R) (gt : ground_truth R),
           r <> "none"%string -> r <> "elementwise_mean"%string -> r <> "sum"%string ->
           ~ returns (forward (BinaryCrossEntropyF pw) (Some r) logits gt)).
Proof.
  intros r Hmean. apply String.eqb_neq in Hmean.
  split; [|split; [|split]].
  - intros f msg logits gt Hsum Hmsg. apply String.eqb_neq in Hsum.
    split.
    + intros [a H].
      destruct f; try discriminate Hmsg; cbn [forward] in H;
        unfold MaskedFocalLoss_forward, MaskedDiceLoss_forward, FocalLoss_forward,
          FocalTverskyLoss_forward, reduce in H;
        cbn [mfl_reduction mdl_reduction fl_reduction ftl_reduction] in H;
        rewrite Hmean, Hsum in H; follow H.
    + intros [a H].
      destruct f; try discriminate Hmsg; inversion Hmsg; subst msg;
        cbn [forward] in H |- *;
        unfold MaskedFocalLoss_forward, MaskedDiceLoss_forward, FocalLoss_forward,
          FocalTverskyLoss_forward, reduce in H |- *;
        cbn [mfl_reduction mdl_reduction fl_reduction ftl_reduction mfl_gamma mfl_alpha
               fl_gamma fl_alpha mdl_label_smoothing mdl_device ftl_smooth ftl_alpha
               ftl_beta ftl_gamma] in H |- *;
        rewrite Hmean, Hsum; follow H; reflexivity.
  - intros pw logits gt. cbn [forward]. unfold MaskedContrastiveLoss_forward.
    cbn [mcl_reduction]. rewrite Hmean. reflexivity.
  - intros logits gt. cbn [forward]. rewrite Hmean. reflexivity.
  - intros pw logits gt Hnone Hel Hsum [a Ha].
    apply String.eqb_neq in Hnone, Hel, Hsum.
    cbn [forward] in Ha.
    unfold MaskedBinaryCrossEntropy_forward, BCEWithLogitsLoss in Ha.
    cbn [mbce_reduction] in Ha. rewrite Hnone, Hmean, Hel, Hsum in Ha.
    cbn [bind] in Ha. follow Ha.
Qed.

(** C4 at the reduction string "bogus". *)
Lemma unsupported_reduction_witness :
  ~ returns (forward (FocalF 2 None) (Some "bogus"%string)
               (Tensor [1; 2] [0%R; 0%R]) (Tensor [1] [1%Z]))
  /\ forward (FocalF 2 None) (Some "bogus"%string)
       (Tensor [1; 2] [0%R; 0%R]) (Tensor [1] [1%Z])
     = Raise (ValueError focal_msg).
Proof.
  assert (Hmean : "bogus"%string <> "mean"%string) by discriminate.
  assert (Hsum : "bogus"%string <> "sum"%string) by discriminate.
  destruct (proj1 (unsupported_reduction "bogus" Hmean) (FocalF 2 None) focal_msg
              (Tensor [1; 2] [0%R; 0%R]) (Tensor [1] [1%Z]) Hsum eq_refl) as [Hnot Hraise].
  split.
  - exact Hnot.
  - apply Hraise. eexists. reflexivity.
Defined.

(** ** Ground truth *)

(** The rule of section 4.1, as MaskedCrossEntropyLoss, MaskedFocalLoss and
    MaskedDiceLoss implement it. *)
Lemma MaskedCrossEntropyLoss_ground_truth_rule (T : Type) :
  (forall t : tensor T, MaskedCrossEntropyLoss_ground_truth (GTensor t) = Ok (t, None))
  /\ (forall t : tensor T,
         MaskedCrossEntropyLoss_ground_truth (GSeq (Items1 t)) = Ok (t, None))
  /\ (forall (t : tensor T) (m : tensor bool),
         MaskedCrossEntropyLoss_ground_truth (GSeq (ItemsN t m [])) = Ok (t, Some m))
  /\ (forall s : gt_items T,
         len s <> 1 -> len s <> 2 ->
         MaskedCrossEntropyLoss_ground_truth (GSeq s) = Raise (ValueError ground_truth_msg)).
Proof.
  repeat split; try reflexivity.
  intros s H1 H2. unfold MaskedCrossEntropyLoss_ground_truth.
  apply Nat.eqb_neq in H1, H2. now rewrite H1, H2.
Qed.

(** C2.  MaskedContrastiveLoss and MaskedBinaryCrossEntropy do not follow the
    rule: a ground truth of three or more elements is read as its first two
    elements, and [forward] returns on such an input. *)
Theorem ground_truth_of_arity_3_accepted :
  (forall (self : MaskedContrastiveLoss) (logits target : tensor R) (mask : tensor bool)
          (x : any_tensor) (more : list any_tensor),
      MaskedContrastiveLoss_forward self logits (GSeq (ItemsN target mask (x :: more)))
      = MaskedContrastiveLoss_forward self logits (GSeq (ItemsN target mask [])))
  /\ (forall (self : MaskedBinaryCrossEntropy) (logits target : tensor R)
             (mask : tensor bool) (x : any_tensor) (more : list any_tensor),
         MaskedBinaryCrossEntropy_forward self logits (GSeq (ItemsN target mask (x :: more)))
         = MaskedBinaryCrossEntropy_forward self logits (GSeq (ItemsN target mask [])))
  /\ MaskedContrastiveLoss_forward
       {| mcl_pos_weight := 1; mcl_reduction := None |}
       (Tensor [1] [2%R])
       (GSeq (ItemsN (Tensor [1] [1%R]) (Tensor [1] [true])
                     [BoolTensor (Tensor [1] [true])]))
     = Ok (Tensor [1] [(1 * (- (1) * 1 * 2 + (1 - 1) * 2))%R]).
Proof.
  repeat split.
Qed.

(** ** MaskedContrastiveLoss *)

Lemma well_formed_tmap {A B} (f : A -> B) (t : tensor A) :
  well_formed t -> well_formed (tmap f t).
Proof. unfold well_formed, tmap. simpl. now rewrite length_map. Qed.

Lemma well_formed_zip {A B C} (f : A -> B -> C) (a : tensor A) (b : tensor B) :
  shape a = shape b -> well_formed a -> well_formed b ->
  well_formed (Tensor (shape a) (zip_with f (data a) (data b))).
Proof.
  unfold well_formed. simpl. intros Hs Ha Hb.
  rewrite zip_with_length; [exact Ha|]. rewrite Ha, Hb. now rewrite Hs.
Qed.

Lemma zip_with_zip_with_same {A B C D} (f : A -> B -> C) (g : A -> B -> C)
    (h : C -> C -> D) (xs : list A) (ys : list B) :
  zip_with h (zip_with f xs ys) (zip_with g xs ys)
  = zip_with (fun x y => h (f x y) (g x y)) xs ys.
Proof.
  revert ys; induction xs as [|x xs IH]; intros [|y ys]; simpl; try reflexivity.
  now rewrite IH.
Qed.

(** The per-element loss of lines 158-160 on tensors of one shape. *)
Lemma MaskedContrastiveLoss_terms (pw : R) (logits target : tensor R) :
  shape target = shape logits -> well_formed logits -> well_formed target ->
  (let* pos := tensor_op Rmult (tmap (fun t => (- pw * t)%R) target) logits in
   let* neg := tensor_op Rmult (tmap (fun t => (1 - t)%R) target) logits in
   tensor_op Rplus pos neg)
  = Ok (Tensor (shape logits) (contrastive_terms pw (data logits) (data target))).
Proof.
  intros Hs Hl Ht.
  rewrite (tensor_op_same_shape Rmult (tmap _ target) logits Hs
             (well_formed_tmap _ target Ht) Hl).
  cbn [bind].
  rewrite (tensor_op_same_shape Rmult (tmap _ target) logits Hs
             (well_formed_tmap _ target Ht) Hl).
  cbn [bind tmap shape data].
  rewrite !zip_with_map_l.
  assert (Hw : forall (f : R -> R -> R),
             well_formed (Tensor (shape target) (zip_with f (data target) (data logits)))).
  { intros f. apply (well_formed_zip f target logits Hs Ht Hl). }
  rewrite (tensor_op_same_shape Rplus
             (Tensor (shape target)
                (zip_with (fun x y => (- pw * x * y)%R) (data target) (data logits)))
             (Tensor (shape target)
                (zip_with (fun x y => ((1 - x) * y)%R) (data target) (data logits)))
             eq_refl (Hw _) (Hw _)).
  cbn [shape data]. rewrite zip_with_zip_with_same, Hs. reflexivity.
Qed.

(** C7.  With reduction "mean", on a target and a mask of the shape of the
    logits, MaskedContrastiveLoss returns the sum over all elements of
    [mask * (- pos_weight * target * logits + (1 - target) * logits)] divided
    by the number of elements of the logits, masked or not; without a mask the
    factor [mask] is absent and the divisor is the same.  For every ground
    truth, of whatever shapes, the result is the sum of the per-element loss
    divided by the number of its elements. *)
Theorem MaskedContrastiveLoss_mean_over_all_elements :
  forall (pos_weight : R) (logits : tensor R),
    (forall (target : tensor R) (mask : tensor bool),
        shape target = shape logits -> shape mask = shape logits ->
        well_formed logits -> well_formed target -> well_formed mask ->
        MaskedContrastiveLoss_forward
          {| mcl_pos_weight := pos_weight; mcl_reduction := Some "mean"%string |}
          logits (GSeq (ItemsN target mask []))
        = Ok (scalar (masked_contrastive_mean pos_weight
                        (data logits) (data target) (data mask)))
        /\ MaskedContrastiveLoss_forward
             {| mcl_pos_weight := pos_weight; mcl_reduction := Some "mean"%string |}
             logits (GTensor target)
           = Ok (scalar (contrastive_mean pos_weight (data logits) (data target))))
    /\ (forall (gt : ground_truth R) (loss : tensor R),
           MaskedContrastiveLoss_forward
             {| mcl_pos_weight := pos_weight; mcl_reduction := None |} logits gt
           = Ok loss ->
           MaskedContrastiveLoss_forward
             {| mcl_pos_weight := pos_weight; mcl_reduction := Some "mean"%string |}
             logits gt
           = Ok (scalar (Rsum (data loss) / INR (numel loss))%R)).
Proof.
  intros pw logits. split.
  - intros target mask Hst Hsm Hl Ht Hm.
    assert (Hn : length (contrastive_terms pw (data logits) (data target))
                 = length (data logits)).
    { unfold contrastive_terms. rewrite zip_with_length.
      - unfold well_formed in *. rewrite Ht, Hl. now rewrite Hst.
      - unfold well_formed in *. rewrite Ht, Hl. now rewrite Hst. }
    pose proof (MaskedContrastiveLoss_terms pw logits target Hst Hl Ht) as Hterms.
    unfold MaskedContrastiveLoss_forward.
    cbn [MaskedContrastiveLoss_ground_truth len length Nat.add Nat.eqb item0 item1 bind
           mcl_pos_weight mcl_reduction String.eqb Ascii.eqb Bool.eqb].
    destruct (tensor_op Rmult (tmap (fun t => (- pw * t)%R) target) logits)
      as [pos|e]; cbn [bind] in *; [|discriminate].
    destruct (tensor_op Rmult (tmap (fun t => (1 - t)%R) target) logits)
      as [neg|e]; cbn [bind] in *; [|discriminate].
    rewrite Hterms. cbn [bind]. split.
    + rewrite (tensor_op_same_shape Rmult (tmap bool_to_float mask)
                 (Tensor (shape logits) (contrastive_terms pw (data logits) (data target)))).
      * cbn [bind].
        unfold tmean, numel, masked_contrastive_mean. cbn [data tmap shape].
        rewrite zip_with_map_l. rewrite zip_with_length.
        -- unfold well_formed in *. rewrite Hm, Hl, Hsm. reflexivity.
        -- rewrite Hn. unfold well_formed in *. rewrite Hm, Hl. now rewrite Hsm.
      * exact Hsm.
      * apply well_formed_tmap. exact Hm.
      * unfold well_formed. cbn [data shape]. rewrite Hn. exact Hl.
    + unfold tmean, numel, contrastive_mean. cbn [data]. now rewrite Hn.
  - intros gt loss H. unfold MaskedContrastiveLoss_forward in *.
    cbn [mcl_pos_weight mcl_reduction] in *.
    follow H. inversion H. reflexivity.
Qed.

(** A concrete run of C7: two elements, the second masked out; the divisor is
    2 all the same. *)
Lemma MaskedContrastiveLoss_mean_over_all_elements_witness :
  MaskedContrastiveLoss_forward {| mcl_pos_weight := 2; mcl_reduction := Some "mean"%string |}
    (Tensor [2] [1%R; 3%R])
    (GSeq (ItemsN (Tensor [2] [1%R; 0%R]) (Tensor [2] [true; false]) []))
  = Ok (scalar (masked_contrastive_mean 2 [1%R; 3%R] [1%R; 0%R] [true; false]))
  /\ MaskedContrastiveLoss_forward
       {| mcl_pos_weight := 2; mcl_reduction := Some "mean"%string |}
       (Tensor [2] [1%R; 3%R]) (GTensor (Tensor [2] [1%R; 0%R]))
     = Ok (scalar (contrastive_mean 2 [1%R; 3%R] [1%R; 0%R])).
Proof.
  apply (proj1 (MaskedContrastiveLoss_mean_over_all_elements 2 (Tensor [2] [1%R; 3%R]))
           (Tensor [2] [1%R; 0%R]) (Tensor [2] [true; false]));
    reflexivity.
Defined.

(** ** Boolean indexing *)

Lemma prefix_eqb_refl (s : list nat) : prefix_eqb s s = true.
Proof.
  induction s as [|x s IH]; simpl; [reflexivity|].
  now rewrite Nat.eqb_refl, IH.
Qed.

Lemma select_map {A B} (f : A -> B) (m : list bool) (xs : list A) :
  select m (map f xs) = map f (select m xs).
Proof.
  revert xs; induction m as [|b m IH]; intros [|x xs]; simpl; try reflexivity.
  destruct b; simpl; now rewrite IH.
Qed.

Lemma concat_singletons {A} (l : list A) : concat (map (fun x => [x]) l) = l.
Proof.
  induction l as [|x l IH]; simpl; [reflexivity|]. now rewrite IH.
Qed.

(** A mask of the shape of the tensor selects elements. *)
Lemma mask_index_same_shape {A} (t : tensor A) (m : tensor bool) :
  shape m = shape t -> well_formed t -> well_formed m ->
  mask_index t m
  = Ok (Tensor [length (select (data m) (data t))] (select (data m) (data t))).
Proof.
  intros Hs Ht Hm. unfold mask_index.
  rewrite Hs, prefix_eqb_refl, skipn_all. cbn [numel_of_shape fold_right].
  assert (Hn : numel m = length (data t)).
  { unfold numel, well_formed in *. now rewrite Hm, Ht, Hs. }
  rewrite Hn, chunks_1, select_map, concat_singletons, length_map. reflexivity.
Qed.

Lemma select_all_true {A} (m : list bool) (xs : list A) :
  length m = length xs -> forallb (fun b => b) m = true -> select m xs = xs.
Proof.
  revert xs; induction m as [|b m IH]; intros [|x xs] Hl Hb; simpl in *;
    try discriminate; [reflexivity|].
  apply andb_prop in Hb. destruct Hb as [-> Hb]. rewrite IH; [reflexivity|lia|exact Hb].
Qed.

(** ** per_class_loss *)

Lemma Zsum_map_add {A} (f g : A -> Z) (l : list A) :
  Zsum (map (fun c => (f c + g c)%Z) l) = (Zsum (map f l) + Zsum (map g l))%Z.
Proof.
  induction l as [|x l IH]; simpl; [reflexivity|]. rewrite IH. lia.
Qed.

Lemma Zsum_app (a b : list Z) : Zsum (a ++ b) = (Zsum a + Zsum b)%Z.
Proof.
  induction a as [|x a IH]; simpl; [reflexivity|]. rewrite IH. lia.
Qed.

(** A label is counted for its class and for no other. *)
Lemma Zsum_one_class (v l : Z) (n : nat) :
  Zsum (map (fun c => if (Z.of_nat c =? l)%Z then v else 0%Z) (seq 0 n))
  = if ((0 <=? l) && (l <? Z.of_nat n))%Z then v else 0%Z.
Proof.
  induction n as [|n IH].
  - simpl. destruct (0 <=? l)%Z eqn:E; simpl; [|reflexivity].
    destruct (l <? 0)%Z eqn:E'; [|reflexivity].
    apply Z.leb_le in E. apply Z.ltb_lt in E'. lia.
  - rewrite seq_S, map_app, Zsum_app, IH. cbn [map Zsum fold_right Nat.add].
    destruct (Z.eqb_spec (Z.of_nat n) l), (Z.leb_spec 0 l),
      (Z.ltb_spec l (Z.of_nat n)), (Z.ltb_spec l (Z.of_nat (S n))); cbn [andb]; lia.
Qed.

(** Over all classes, the counts of the selected mask elements add up to the
    number of true mask elements. *)
Lemma class_counts_total (n : nat) (ls : list Z) (ms : list bool) :
  Forall (fun l => (0 <= l < Z.of_nat n)%Z) ls ->
  length ls = length ms ->
  Zsum (map (fun c => count_true (select (map (Z.eqb (Z.of_nat c)) ls) ms)) (seq 0 n))
  = count_true ms.
Proof.
  intros Hr. revert ms. induction Hr as [|l ls Hl _ IH]; intros [|b ms] Hlen;
    simpl in Hlen; try discriminate.
  - simpl. induction (seq 0 n) as [|c cs IHc]; simpl; [reflexivity|]. now rewrite IHc.
  - transitivity
      (Zsum (map (fun c => ((if (Z.of_nat c =? l)%Z then (if b then 1 else 0) else 0)
                            + count_true (select (map (Z.eqb (Z.of_nat c)) ls) ms))%Z)
                 (seq 0 n))).
    + f_equal. apply map_ext. intros c. simpl.
      destruct (Z.of_nat c =? l)%Z; simpl; [destruct b; reflexivity|reflexivity].
    + rewrite Zsum_map_add, Zsum_one_class, IH by lia.
      assert (E : ((0 <=? l) && (l <? Z.of_nat n))%Z = true).
      { apply andb_true_intro. split; [apply Z.leb_le|apply Z.ltb_lt]; lia. }
      rewrite E. simpl. reflexivity.
Qed.

Section per_class_counts.
Variable criterion : tensor R -> tensor Z -> tensor bool -> result (tensor R).
Variables (logits : tensor R) (labels : tensor Z) (unk_masks : tensor bool).
Variable n_classes : nat.
Hypothesis same_shape : shape unk_masks = shape labels.
Hypothesis labels_wf : well_formed labels.
Hypothesis masks_wf : well_formed unk_masks.

Lemma per_class_step_count (class_ : nat) (loss : tensor R) (count : Z) :
    per_class_step criterion logits labels unk_masks n_classes class_ = Ok (loss, count) ->
    count = class_count labels unk_masks class_.
  Proof.
    unfold per_class_step. intros H.
    rewrite (mask_index_same_shape unk_masks (tmap (Z.eqb (Z.of_nat class_)) labels)) in H.
    - follow H. inversion H. reflexivity.
    - simpl. now rewrite same_shape.
    - exact masks_wf.
    - apply well_formed_tmap. exact labels_wf.
  Qed.

Lemma per_class_loop_counts (classes : list nat) :
    forall class_loss class_counts,
      per_class_loop criterion logits labels unk_masks n_classes classes
      = Ok (class_loss, class_counts) ->
      class_counts = map (class_count labels unk_masks) classes.
  Proof.
    induction classes as [|c classes IH]; intros ls cs H; simpl in H.
    - inversion H. reflexivity.
    - destruct (per_class_step criterion logits labels unk_masks n_classes c)
        as [[loss count]|e] eqn:Hstep; cbn [bind] in H; [|discriminate].
      destruct (per_class_loop criterion logits labels unk_masks n_classes classes)
        as [[ls' cs']|e]; cbn [bind] in H; [|discriminate].
      inversion H; subst. simpl. f_equal.
      + apply (per_class_step_count c loss count Hstep).
      + apply (IH ls' cs' eq_refl).
  Qed.
End per_class_counts.

(** C9.  For labels within [0, n_classes), a mask of the shape of the labels
    and every criterion, the per-class counts that per_class_loss returns add
    up to [mask.sum()], the number of true mask elements. *)
Theorem per_class_counts_sum :
  forall (criterion : tensor R -> tensor Z -> tensor bool -> result (tensor R))
         (logits : tensor R) (labels : tensor Z) (unk_masks : tensor bool)
         (n_classes : nat) (class_loss : list (tensor R)) (class_counts : list Z),
    Forall (fun l => (0 <= l < Z.of_nat n_classes)%Z) (data labels) ->
    shape unk_masks = shape labels ->
    well_formed labels -> well_formed unk_masks ->
    per_class_loss criterion logits labels unk_masks n_classes
    = Ok (class_loss, class_counts) ->
    Zsum class_counts = count_true (data unk_masks).
Proof.
  intros criterion logits labels unk_masks n_classes class_loss class_counts
    Hrange Hshape Hl Hm H.
  unfold per_class_loss in H.
  destruct (per_class_loop criterion logits labels unk_masks n_classes (seq 0 n_classes))
    as [[ls cs]|e] eqn:Hloop; cbn [bind] in H; [|discriminate].
  destruct (same_shapes ls); [|discriminate].
  inversion H; subst.
  rewrite (per_class_loop_counts criterion logits labels unk_masks n_classes
             Hshape Hl Hm _ _ _ Hloop).
  unfold class_count. apply class_counts_total; [exact Hrange|].
  unfold well_formed in *. now rewrite Hl, Hm, Hshape.
Qed.

(** A concrete run of C9: labels 0, 1, 1 over two classes, logits of shape
    (1, 1, 3, 2), the second element masked out; the counts are 1 and 1. *)
Lemma per_class_counts_sum_witness :
  per_class_loss (fun l _ _ => Ok (tmean l))
    (Tensor [1; 1; 3; 2] [0%R; 0%R; 0%R; 0%R; 0%R; 0%R])
    (Tensor [1; 1; 3; 1] [0%Z; 1%Z; 1%Z])
    (Tensor [1; 1; 3; 1] [true; false; true]) 2
  = Ok ([tmean (Tensor [1; 2] [0%R; 0%R]); tmean (Tensor [2; 2] [0%R; 0%R; 0%R; 0%R])],
        [1%Z; 1%Z])
  /\ Zsum [1%Z; 1%Z] = count_true [true; false; true].
Proof.
  split; [reflexivity|].
  apply (per_class_counts_sum
           (fun l _ _ => Ok (tmean l))
           (Tensor [1; 1; 3; 2] [0%R; 0%R; 0%R; 0%R; 0%R; 0%R])
           (Tensor [1; 1; 3; 1] [0%Z; 1%Z; 1%Z])
           (Tensor [1; 1; 3; 1] [true; false; true])
           2
           [tmean (Tensor [1; 2] [0%R; 0%R]);
            tmean (Tensor [2; 2] [0%R; 0%R; 0%R; 0%R])]
           [1%Z; 1%Z]).
  - repeat constructor; lia.
  - reflexivity.
  - reflexivity.
  - reflexivity.
  - reflexivity.
Defined.

(** ** MaskedFocalLoss and FocalLoss *)

Lemma reshape_rows_1 {A} (t : tensor A) :
  reshape_rows t 1 = Ok (Tensor [numel t; 1] (data t)).
Proof.
  unfold reshape_rows. cbn [Nat.eqb]. rewrite Nat.mod_1_r, Nat.div_1_r. reflexivity.
Qed.

Lemma reshape_rows_exact {A} (s : list nat) (d : list A) (n c : nat) :
  c <> 0 -> length d = n * c ->
  reshape_rows (Tensor s d) c = Ok (Tensor [n; c] d).
Proof.
  intros Hc Hd. unfold reshape_rows, numel. cbn [data].
  destruct (Nat.eqb_spec c 0) as [E|_]; [contradiction|].
  rewrite Hd, Nat.Div0.mod_mul, Nat.div_mul by exact Hc. reflexivity.
Qed.

Lemma concat_repeat_singleton {A} (b : A) (c : nat) : concat (repeat [b] c) = repeat b c.
Proof.
  induction c as [|c IH]; simpl; [reflexivity|]. now rewrite IH.
Qed.

(** [mask.repeat(1, c)] of a column of [n] booleans. *)
Lemma repeat_last_column (c : nat) (dm : list bool) :
  repeat_last 2 c (Tensor [length dm; 1] dm)
  = Ok (Tensor [length dm; c] (flat_map (fun b => repeat b c) dm)).
Proof.
  unfold repeat_last. cbn [dim shape length Nat.ltb Nat.leb Nat.sub repeat app
                             removelast last numel_of_shape fold_right data].
  rewrite Nat.mul_1_l, Nat.mul_1_r, chunks_1. f_equal. f_equal.
  rewrite flat_map_concat_map, map_map, <- flat_map_concat_map.
  apply flat_map_ext. intros b. apply concat_repeat_singleton.
Qed.

Lemma flat_map_repeat_length {A} (c : nat) (l : list A) :
  length (flat_map (fun b => repeat b c) l) = length l * c.
Proof.
  induction l as [|x l IH]; simpl; [reflexivity|].
  now rewrite length_app, repeat_length, IH.
Qed.

Lemma flat_map_repeat_all_true (c : nat) (dm : list bool) :
  forallb (fun b => b) dm = true ->
  forallb (fun b => b) (flat_map (fun b => repeat b c) dm) = true.
Proof.
  induction dm as [|b dm IH]; simpl; [reflexivity|].
  intros H. apply andb_prop in H. destruct H as [-> H].
  rewrite forallb_app, (IH H), andb_true_r.
  clear. induction c as [|c IHc]; simpl; [reflexivity|exact IHc].
Qed.

(** Lines 263-269 with an all-true mask of [n] elements, on [n] rows of [c]
    logits: nothing is removed. *)
Lemma masked_selection_all_true (n c : nat) (dl : list R) (dt : list Z) (dm : list bool) :
  c <> 0 -> length dl = n * c -> length dt = n -> length dm = n ->
  forallb (fun b => b) dm = true ->
  (let* target := mask_index (Tensor [n; 1] dt) (Tensor [n; 1] dm) in
   let* c' := last_size (Tensor [n; c] dl) in
   let* rep := repeat_last 2 c' (Tensor [n; 1] dm) in
   let* sel := mask_index (Tensor [n; c] dl) rep in
   let* logits := reshape_rows sel c' in
   Ok (target, logits))
  = Ok (Tensor [n] dt, Tensor [n; c] dl).
Proof.
  intros Hc Hl Ht Hm Htrue.
  rewrite (mask_index_same_shape (Tensor [n; 1] dt) (Tensor [n; 1] dm) eq_refl).
  2:{ unfold well_formed. cbn [data shape numel_of_shape fold_right]. lia. }
  2:{ unfold well_formed. cbn [data shape numel_of_shape fold_right]. lia. }
  cbn [bind data last_size shape rev app].
  rewrite (select_all_true dm dt) by (try exact Htrue; lia).
  rewrite <- Hm at 1. rewrite repeat_last_column. cbn [bind]. rewrite Hm.
  rewrite (mask_index_same_shape (Tensor [n; c] dl) (Tensor [n; c] _) eq_refl).
  2:{ unfold well_formed. cbn [data shape numel_of_shape fold_right]. lia. }
  2:{ unfold well_formed. cbn [data shape numel_of_shape fold_right].
      rewrite flat_map_repeat_length. lia. }
  cbn [bind data].
  rewrite (select_all_true _ dl).
  2:{ rewrite flat_map_repeat_length. lia. }
  2:{ apply flat_map_repeat_all_true. exact Htrue. }
  rewrite (reshape_rows_exact _ dl n c Hc Hl). cbn [bind]. now rewrite Ht.
Qed.

(** C1, amended.  On logits of two dimensions, [n] rows of [c >= 1] classes,
    with a target of [n] entries and an all-true mask of [n] entries,
    MaskedFocalLoss called with [(target, mask)] and FocalLoss called with the
    target, built with the same gamma, alpha and reduction, return the same
    value or raise the same exception. *)
Theorem MaskedFocalLoss_all_true_mask :
  forall (gamma : R) (alpha : option (list R)) (reduction : reduction_t)
         (logits : tensor R) (target : tensor Z) (mask : tensor bool) (n c : nat),
    shape logits = [n; c] -> well_formed logits -> c <> 0 ->
    numel target = n -> numel mask = n ->
    forallb (fun b => b) (data mask) = true ->
    MaskedFocalLoss_forward
      {| mfl_gamma := gamma; mfl_alpha := alpha; mfl_reduction := reduction |}
      logits (GSeq (ItemsN target mask []))
    = FocalLoss_forward
        {| fl_gamma := gamma; fl_alpha := alpha; fl_reduction := reduction |}
        logits target.
Proof.
  intros gamma alpha reduction [sl dl] [st dt] [sm dm] n c Hs Hwf Hc Ht Hm Htrue.
  unfold well_formed, numel in *. cbn [shape data] in *. subst sl.
  cbn [numel_of_shape fold_right] in Hwf. rewrite Nat.mul_1_r in Hwf.
  unfold MaskedFocalLoss_forward, FocalLoss_forward.
  cbn [MaskedCrossEntropyLoss_ground_truth len length Nat.add Nat.eqb item0 item1 bind
         mfl_gamma mfl_alpha mfl_reduction fl_gamma fl_alpha fl_reduction].
  rewrite !reshape_rows_1. unfold numel. cbn [data bind last_size shape rev app].
  rewrite (reshape_rows_exact [n; c] dl n c Hc Hwf). cbn [bind]. rewrite Ht, Hm.
  rewrite (masked_selection_all_true n c dl dt dm Hc Hwf Ht Hm Htrue).
  unfold channels_last_rows, log_softmax_dim1.
  cbn [dim shape length Nat.ltb Nat.leb bind unsqueeze_last app reshape_flat numel data].
  reflexivity.
Qed.

(** A concrete run of the amended C1: two rows of two classes. *)
Lemma MaskedFocalLoss_all_true_mask_witness :
  MaskedFocalLoss_forward
    {| mfl_gamma := 2; mfl_alpha := Some [1%R; 3%R]; mfl_reduction := Some "mean"%string |}
    (Tensor [2; 2] [0%R; 1%R; 2%R; 0%R])
    (GSeq (ItemsN (Tensor [2] [0%Z; 1%Z]) (Tensor [2] [true; true]) []))
  = FocalLoss_forward
      {| fl_gamma := 2; fl_alpha := Some [1%R; 3%R]; fl_reduction := Some "mean"%string |}
      (Tensor [2; 2] [0%R; 1%R; 2%R; 0%R]) (Tensor [2] [0%Z; 1%Z]).
Proof.
  apply (MaskedFocalLoss_all_true_mask 2 (Some [1%R; 3%R]) (Some "mean"%string)
           (Tensor [2; 2] [0%R; 1%R; 2%R; 0%R]) (Tensor [2] [0%Z; 1%Z])
           (Tensor [2] [true; true]) 2 2).
  - reflexivity.
  - reflexivity.
  - discriminate.
  - reflexivity.
  - reflexivity.
  - reflexivity.
Defined.

Lemma Rpow_0 (x : R) : Rpow x 0 = 1%R.
Proof.
  unfold Rpow. destruct (Req_dec_T 0 0) as [_|E]; [reflexivity|].
  exfalso. apply E. reflexivity.
Qed.

(** On logits of shape (1, 2, 2) whose last axis holds the classes, with the
    target (0, 0) and an all-true mask, the two functors return different
    losses: MaskedFocalLoss reads the rows (0, 0) and (1, 0), FocalLoss, which
    takes axis 1 for the classes, the rows (0, 1) and (0, 0). *)
Lemma MaskedFocalLoss_differs_from_FocalLoss :
  ~ masked_focal_agrees_with_focal.
Proof.
  intros H.
  specialize (H 0%R None None (Tensor [1; 2; 2] [0%R; 0%R; 1%R; 0%R])
                (Tensor [1; 2] [0%Z; 0%Z]) (Tensor [1; 2] [true; true])
                eq_refl eq_refl eq_refl eq_refl eq_refl eq_refl).
  cbn -[Rplus Rminus Rmult Ropp Rdiv Rinv exp ln Rpow IZR INR] in H.
  inversion H as [[H1 H2]]. clear H H2.
  rewrite !Rpow_0 in H1.
  assert (Hln : ln (exp 0 + (exp 0 + 0)) = ln (exp 0 + (exp 1 + 0))) by lra.
  apply ln_inv in Hln.
  - assert (He : exp 0 = exp 1) by lra.
    apply exp_inv in He. lra.
  - pose proof (exp_pos 0). lra.
  - pose proof (exp_pos 0). pose proof (exp_pos 1). lra.
Qed.

(** ** Masks the functors cannot take or cannot do without *)

(** MaskedDiceLoss flattens the target to one dimension (line 319) and
    reshapes the mask to two (line 323): [target[mask]] then has too many
    indices, so [forward] raises on every ground truth [(target, mask)]. *)
Lemma MaskedDiceLoss_with_mask_raises :
  forall (self : MaskedDiceLoss) (logits : tensor R) (target : tensor Z) (mask : tensor bool),
    exists e, MaskedDiceLoss_forward self logits (GSeq (ItemsN target mask [])) = Raise e.
Proof.
  intros self logits target mask. unfold MaskedDiceLoss_forward.
  cbn [MaskedCrossEntropyLoss_ground_truth len length Nat.add Nat.eqb item0 item1 bind].
  destruct (last_size logits) as [c|e]; cbn [bind]; [|eexists; reflexivity].
  destruct (reshape_rows logits c) as [l|e]; cbn [bind]; [|eexists; reflexivity].
  rewrite reshape_rows_1. cbn [bind]. unfold mask_index, reshape_flat.
  cbn [shape prefix_eqb]. rewrite andb_false_r. cbn [bind].
  eexists. reflexivity.
Qed.

(** Without a mask MaskedFocalLoss passes to [gather] an index of three
    dimensions, (T, 1, 1), against log-probabilities of two (lines 263 and
    272): on a target that is not empty [forward] raises. *)
Lemma MaskedFocalLoss_without_mask_raises :
  forall (self : MaskedFocalLoss) (logits : tensor R) (target : tensor Z),
    numel target <> 0 ->
    exists e, MaskedFocalLoss_forward self logits (GTensor target) = Raise e.
Proof.
  intros self logits target Hn. unfold MaskedFocalLoss_forward.
  cbn [MaskedCrossEntropyLoss_ground_truth bind].
  rewrite reshape_rows_1. cbn [bind].
  destruct (last_size logits) as [c|e]; cbn [bind]; [|eexists; reflexivity].
  destruct (reshape_rows logits c) as [l|e]; cbn [bind]; [|eexists; reflexivity].
  unfold gather_rows, unsqueeze_last, numel. cbn [data shape app].
  apply Nat.eqb_neq in Hn. unfold numel in Hn. rewrite Hn.
  destruct (shape (log_softmax l)) as [|n [|c' [|x s]]]; cbn [bind]; eexists; reflexivity.
Qed.

Lemma MaskedFocalLoss_without_mask_raises_witness :
  exists e,
    MaskedFocalLoss_forward {| mfl_gamma := 1; mfl_alpha := None; mfl_reduction := None |}
      (Tensor [1; 2] [0%R; 0%R]) (GTensor (Tensor [1] [0%Z]))
    = Raise e.
Proof.
  apply (MaskedFocalLoss_without_mask_raises
           {| mfl_gamma := 1; mfl_alpha := None; mfl_reduction := None |}
           (Tensor [1; 2] [0%R; 0%R]) (Tensor [1] [0%Z])).
  discriminate.
Defined.

(** ** LinearLRScheduler *)

(** A scheduler built by [__init__] with a warm-up of [warmup_t > 0] steps
    starts every group at [warmup_lr_init], reaches the base values exactly at
    step [warmup_t], where the decay begins, and ends the decay at step
    [t_initial] on [lr_min_rate] times the base values. *)
Lemma LinearLRScheduler_endpoints :
  forall (base_values : list R) (t_initial : Z) (lr_min_rate : R) (warmup_t : Z)
         (warmup_lr_init : R) (t_in_epochs : bool),
    (0 < warmup_t < t_initial)%Z ->
    let self := LinearLRScheduler_init base_values t_initial lr_min_rate warmup_t
                  warmup_lr_init t_in_epochs in
    LinearLRScheduler_get_lr self 0 = Ok (map (fun _ => warmup_lr_init) base_values)
    /\ LinearLRScheduler_get_lr self warmup_t = Ok base_values
    /\ LinearLRScheduler_get_lr self t_initial
       = Ok (map (fun v => (v * lr_min_rate)%R) base_values).
Proof.
  intros base_values t_initial lr_min_rate warmup_t warmup_lr_init t_in_epochs Hw self.
  unfold self, LinearLRScheduler_get_lr, LinearLRScheduler_init.
  cbn [lin_warmup_t lin_warmup_steps lin_warmup_lr_init lin_base_values lin_t_initial
         lin_lr_min_rate].
  assert (H0 : (0 <? warmup_t)%Z = true) by (apply Z.ltb_lt; lia).
  assert (Hww : (warmup_t <? warmup_t)%Z = false) by (apply Z.ltb_irrefl).
  assert (Htw : (t_initial <? warmup_t)%Z = false) by (apply Z.ltb_ge; lia).
  assert (Hne : (t_initial - warmup_t =? 0)%Z = false) by (apply Z.eqb_neq; lia).
  assert (Hw0 : (warmup_t =? 0)%Z = false) by (apply Z.eqb_neq; lia).
  rewrite H0, Hww, Htw, Hne, Hw0. repeat split.
  - f_equal. rewrite map_map. apply map_ext. intros v. simpl. lra.
  - destruct base_values as [|v vs]; [reflexivity|]. f_equal.
    rewrite Z.sub_diag. rewrite <- (map_id (v :: vs)) at 2.
    apply map_ext. intros x. unfold Rdiv. simpl. lra.
  - destruct base_values as [|v vs]; [reflexivity|]. f_equal.
    apply map_ext. intros x.
    assert (Hr : IZR (t_initial - warmup_t) <> 0%R).
    { apply not_0_IZR. lia. }
    field. exact Hr.
Qed.

Lemma LinearLRScheduler_endpoints_witness :
  LinearLRScheduler_get_lr (LinearLRScheduler_init [1%R; 2%R] 10 (1 / 10) 2 0 true) 0
  = Ok (map (fun _ => 0%R) [1%R; 2%R])
  /\ LinearLRScheduler_get_lr (LinearLRScheduler_init [1%R; 2%R] 10 (1 / 10) 2 0 true) 2
     = Ok [1%R; 2%R]
  /\ LinearLRScheduler_get_lr (LinearLRScheduler_init [1%R; 2%R] 10 (1 / 10) 2 0 true) 10
     = Ok (map (fun v => (v * (1 / 10))%R) [1%R; 2%R]).
Proof.
  apply (LinearLRScheduler_endpoints [1%R; 2%R] 10 (1 / 10) 2 0 true). lia.
Defined.

(** During the decay, from step [warmup_t] to step [t_initial], every
    learning rate lies between [lr_min_rate] times its base value and the base
    value, for a base value that is not negative and a rate within [0, 1].
    Past [t_initial] nothing stops the decay: with a rate below 1 a positive
    base value gives a learning rate strictly below [lr_min_rate] times it. *)
Lemma LinearLRScheduler_decay_range :
  forall (self : LinearLRScheduler) (t : Z) (lrs : list R),
    (lin_warmup_t self <= t)%Z ->
    (lin_warmup_t self < lin_t_initial self)%Z ->
    LinearLRScheduler_get_lr self t = Ok lrs ->
    Forall2 (fun v lr =>
               ((t <= lin_t_initial self)%Z -> (0 <= v)%R ->
                (0 <= lin_lr_min_rate self <= 1)%R ->
                (v * lin_lr_min_rate self <= lr <= v)%R)
               /\ ((lin_t_initial self < t)%Z -> (0 < v)%R ->
                   (lin_lr_min_rate self < 1)%R ->
                   (lr < v * lin_lr_min_rate self)%R))
            (lin_base_values self) lrs.
Proof.
  intros self t lrs Hwt Hti H. unfold LinearLRScheduler_get_lr in H.
  assert (E1 : (t <? lin_warmup_t self)%Z = false) by (apply Z.ltb_ge; lia).
  assert (E2 : (lin_t_initial self - lin_warmup_t self =? 0)%Z = false)
    by (apply Z.eqb_neq; lia).
  rewrite E1 in H.
  assert (Hlrs : lrs = map (fun v => (v - (v - v * lin_lr_min_rate self)
                                          * (IZR (t - lin_warmup_t self)
                                             / IZR (lin_t_initial self - lin_warmup_t self)))%R)
                           (lin_base_values self)).
  { destruct (lin_base_values self); [now inversion H|].
    rewrite E2 in H. now inversion H. }
  subst lrs. clear H.
  set (total := IZR (lin_t_initial self - lin_warmup_t self)).
  set (d := IZR (t - lin_warmup_t self)).
  assert (Htot : (0 < total)%R) by (apply IZR_lt; lia).
  assert (Hd : (0 <= d)%R) by (apply IZR_le; lia).
  induction (lin_base_values self) as [|v vs IH]; simpl; constructor; [|exact IH].
  split.
  - intros Ht Hv [Hr0 Hr1].
    assert (Hdt : (d <= total)%R) by (apply IZR_le; lia).
    assert (Hq : (0 <= d / total <= 1)%R).
    { split.
      - apply Rmult_le_pos; [exact Hd|]. left. now apply Rinv_0_lt_compat.
      - apply (Rmult_le_reg_r total); [exact Htot|].
        unfold Rdiv. rewrite Rmult_assoc, Rinv_l by lra. lra. }
    assert (Hx : (0 <= v - v * lin_lr_min_rate self)%R) by nra.
    split; nra.
  - intros Ht Hv Hr.
    assert (Hdt : (total < d)%R) by (apply IZR_lt; lia).
    assert (Hq : (1 < d / total)%R).
    { apply (Rmult_lt_reg_r total); [exact Htot|].
      unfold Rdiv. rewrite Rmult_assoc, Rinv_l by lra. lra. }
    assert (Hx : (0 < v - v * lin_lr_min_rate self)%R) by nra.
    nra.
Qed.

Lemma LinearLRScheduler_decay_range_witness :
  Forall2 (fun v lr =>
             ((6 <= 10)%Z -> (0 <= v)%R -> (0 <= 1 / 10 <= 1)%R ->
              (v * (1 / 10) <= lr <= v)%R)
             /\ ((10 < 6)%Z -> (0 < v)%R -> (1 / 10 < 1)%R -> (lr < v * (1 / 10))%R))
          [1%R]
          [(1 - (1 - 1 * (1 / 10)) * (IZR (6 - 2) / IZR (10 - 2)))%R].
Proof.
  apply (LinearLRScheduler_decay_range
           (LinearLRScheduler_init [1%R] 10 (1 / 10) 2 0 true) 6).
  - simpl. lia.
  - simpl. lia.
  - reflexivity.
Defined.

(** When [t_initial] equals [warmup_t] there is no decay phase to divide by:
    from step [warmup_t] on, [_get_lr] raises ZeroDivisionError as soon as
    there is a parameter group, and so does whichever of [get_epoch_values]
    and [get_update_values] is in use, while the other returns [None]. *)
Lemma LinearLRScheduler_no_decay_phase :
  forall (self : LinearLRScheduler) (t : Z),
    lin_t_initial self = lin_warmup_t self ->
    (lin_warmup_t self <= t)%Z ->
    lin_base_values self <> [] ->
    LinearLRScheduler_get_lr self t = Raise ZeroDivisionError
    /\ (if lin_t_in_epochs self
        then LinearLRScheduler_get_epoch_values self t = Raise ZeroDivisionError
             /\ LinearLRScheduler_get_update_values self t = Ok None
        else LinearLRScheduler_get_epoch_values self t = Ok None
             /\ LinearLRScheduler_get_update_values self t = Raise ZeroDivisionError).
Proof.
  intros self t Hti Hwt Hne.
  assert (H : LinearLRScheduler_get_lr self t = Raise ZeroDivisionError).
  { unfold LinearLRScheduler_get_lr.
    assert (E1 : (t <? lin_warmup_t self)%Z = false) by (apply Z.ltb_ge; lia).
    rewrite E1, Hti, Z.sub_diag. cbn [Z.eqb].
    destruct (lin_base_values self); [contradiction|reflexivity]. }
  split; [exact H|].
  unfold LinearLRScheduler_get_epoch_values, LinearLRScheduler_get_update_values.
  rewrite H. destruct (lin_t_in_epochs self); split; reflexivity.
Qed.

Lemma LinearLRScheduler_no_decay_phase_witness :
  LinearLRScheduler_get_lr (LinearLRScheduler_init [1%R] 5 (1 / 10) 5 0 false) 7
  = Raise ZeroDivisionError
  /\ LinearLRScheduler_get_epoch_values (LinearLRScheduler_init [1%R] 5 (1 / 10) 5 0 false) 7
     = Ok None
  /\ LinearLRScheduler_get_update_values (LinearLRScheduler_init [1%R] 5 (1 / 10) 5 0 false) 7
     = Raise ZeroDivisionError.
Proof.
  apply (LinearLRScheduler_no_decay_phase
           (LinearLRScheduler_init [1%R] 5 (1 / 10) 5 0 false) 7).
  - reflexivity.
  - simpl. lia.
  - discriminate.
Defined.

(** ** build_scheduler and get_model *)

(** For a scheduler name other than "cosine", build_scheduler builds nothing
    and returns [None] without a word; the step counts are computed first all
    the same, so [num_cycles = 0] raises ZeroDivisionError even then. *)
Lemma build_scheduler_not_cosine :
  forall (Scheduler : Type) (CosineLRScheduler : CosineLRScheduler_args -> result Scheduler)
         (solver : SchedulerConfig) (n_iter_per_epoch epochs cycles warmup : Z)
         (name : string),
    num_epochs solver = Value epochs ->
    num_cycles solver = Value cycles ->
    num_warmup_epochs solver = Value warmup ->
    lr_scheduler solver = Value name ->
    name <> "cosine"%string ->
    @build_scheduler Scheduler CosineLRScheduler solver n_iter_per_epoch
    = if (cycles =? 0)%Z then Raise ZeroDivisionError else Ok None.
Proof.
  intros Scheduler ctor solver n epochs cycles warmup name He Hc Hw Hn Hne.
  unfold build_scheduler. rewrite He, Hc, Hw, Hn. cbn [number_at getitem bind].
  apply String.eqb_neq in Hne. rewrite Hne.
  destruct (cycles =? 0)%Z; reflexivity.
Qed.

Lemma build_scheduler_not_cosine_witness :
  @build_scheduler unit (fun _ => Ok tt)
    {| num_epochs := Value 10%Z; num_cycles := Value 0%Z; num_warmup_epochs := Value 1%Z;
       lr_scheduler := Value "step"%string; lr_min := Missing; lr_start := Missing |} 100
  = Raise ZeroDivisionError.
Proof.
  apply (build_scheduler_not_cosine unit (fun _ => Ok tt)
           {| num_epochs := Value 10%Z; num_cycles := Value 0%Z;
              num_warmup_epochs := Value 1%Z; lr_scheduler := Value "step"%string;
              lr_min := Missing; lr_start := Missing |} 100 10 0 1 "step").
  - reflexivity.
  - reflexivity.
  - reflexivity.
  - reflexivity.
  - discriminate.
Defined.

(** get_model builds a network only for five architecture names: for
    "UNET2D-CLSTM" it raises NotImplementedError, and for every other name, or
    an architecture bound to [None], it raises NameError, whatever the
    constructors are; it never returns [None].  The NameError message is the
    format string itself: the name asked for is not put in place of [%s]. *)
Lemma get_model_unknown_architecture :
  forall (Cfg Net : Type) (architecture : Cfg -> entry string)
         (UNet3D_CSCL UNet3D TSViTcls TSViT : Cfg -> result Net)
         (BiRNNSequentialEncoder : Cfg -> string -> result Net)
         (set_device : Cfg -> string -> Cfg) (model_config : Cfg) (device : string),
    (forall a, architecture model_config = Value a ->
               a = "UNET2D-CLSTM"%string \/ ~ In a architectures) ->
    architecture model_config <> Missing ->
    @get_model Cfg Net architecture UNet3D_CSCL UNet3D TSViTcls TSViT BiRNNSequentialEncoder
      set_device (Some model_config) device
    = if match architecture model_config with
         | Value a => String.eqb a "UNET2D-CLSTM"
         | _ => false
         end
      then NotImplementedError "Error with "%string
      else NameError "Model architecture %s not found, choose from: 'UNET3D', 'UNET3Df', 'UNET2D-CLSTM', 'TSViT', 'TSViTcls'"%string.
Proof.
  intros Cfg Net architecture c1 c2 c3 c4 c5 set_device model_config device Ha Hm.
  unfold get_model.
  destruct (architecture model_config) as [| |a] eqn:E.
  - contradiction.
  - reflexivity.
  - destruct (Ha a eq_refl) as [->|Hn].
    + reflexivity.
    + assert (Hne : forall x, In x architectures -> String.eqb a x = false).
      { intros x Hx. apply String.eqb_neq. intros ->. contradiction. }
      repeat match goal with
             | |- context [String.eqb a ?x] =>
                 rewrite (Hne x) by (unfold architectures; simpl; tauto)
             end.
      reflexivity.
Qed.

Lemma get_model_unknown_architecture_witness :
  @get_model string unit (fun a => Value a) (fun _ => Ok tt) (fun _ => Ok tt)
    (fun _ => Ok tt) (fun _ => Ok tt) (fun _ _ => Ok tt) (fun c _ => c)
    (Some "ResNet"%string) "cpu"
  = NameError "Model architecture %s not found, choose from: 'UNET3D', 'UNET3Df', 'UNET2D-CLSTM', 'TSViT', 'TSViTcls'"%string.
Proof.
  apply (get_model_unknown_architecture string unit (fun a => Value a) (fun _ => Ok tt)
           (fun _ => Ok tt) (fun _ => Ok tt) (fun _ => Ok tt) (fun _ _ => Ok tt)
           (fun c _ => c) "ResNet"%string "cpu").
  - intros a H. inversion H. right. unfold architectures. simpl.
    intros Hin. repeat (destruct Hin as [Hin|Hin]; [discriminate Hin|]). exact Hin.
  - discriminate.
Defined.

(** ** More on the factory *)

Lemma pos_weight_pair_values (p : R) :
  p <> 0%R -> p <> (-1)%R ->
  exists w1 w2,
    pos_weight_pair p = Ok [w1; w2] /\ (w1 + w2 = 1)%R /\ (w2 = p * w1)%R.
Proof.
  intros H0 H1. unfold pos_weight_pair.
  destruct (Req_dec_T p 0) as [E|_]; [contradiction|].
  assert (Ht : (1 / p + 1)%R <> 0%R).
  { intros E. apply H1. apply (Rmult_eq_compat_l p) in E.
    rewrite Rmult_plus_distr_l, Rmult_0_r in E.
    unfold Rdiv in E. rewrite Rmult_1_l, Rinv_r in E by exact H0. lra. }
  destruct (Req_dec_T (1 / p + 1) 0) as [E|_]; [contradiction|].
  eexists. eexists. split; [reflexivity|].
  split; field; repeat split; try assumption; intros E; apply H1; lra.
Qed.

Lemma pos_weight_pair_zero_division (p : R) :
  p = 0%R \/ p = (-1)%R -> pos_weight_pair p = Raise ZeroDivisionError.
Proof.
  intros H. unfold pos_weight_pair.
  destruct (Req_dec_T p 0) as [_|H0]; [reflexivity|].
  destruct H as [H|H]; [contradiction|]. subst p.
  destruct (Req_dec_T (1 / -1 + 1) 0) as [_|E]; [reflexivity|].
  exfalso. apply E. field.
Qed.

(** For "weight_cross_entropy" with a [pos_weight] [p], the factory gives the
    cross-entropy two class weights that add up to 1, the second [p] times the
    first ([1 / (1 + p)] and [p / (1 + p)]); [p = 0] and [p = -1] raise
    ZeroDivisionError. *)
Lemma get_loss_weight_cross_entropy :
  forall (mc : ModelConfig) (sc : SolverConfig) (device : string)
         (reduction : reduction_t) (p : R),
    loss_function sc = Value (LossName "weight_cross_entropy") ->
    pos_weight sc = Value p ->
    (p = 0%R \/ p = (-1)%R ->
     get_loss {| MODEL := Some mc; SOLVER := Some sc |} device reduction
     = Raise ZeroDivisionError)
    /\ (p <> 0%R -> p <> (-1)%R ->
        exists w1 w2,
          get_loss {| MODEL := Some mc; SOLVER := Some sc |} device reduction
          = Ok (PyModule (M_CrossEntropyLoss (Some [w1; w2]) reduction
                            (get_params_values (label_smoothing sc) 0%R)))
          /\ (w1 + w2 = 1)%R /\ (w2 = p * w1)%R).
Proof.
  intros mc sc device reduction p Hlf Hp.
  rewrite (get_loss_single mc sc _ device reduction Hlf).
  unfold get_loss_named. cbn [in_names existsb String.eqb Ascii.eqb Bool.eqb orb].
  rewrite Hp. cbn [getitem bind]. split.
  - intros H. now rewrite (pos_weight_pair_zero_division p H).
  - intros H0 H1. destruct (pos_weight_pair_values p H0 H1) as (w1 & w2 & E & Hs & Hr).
    exists w1, w2. rewrite E. cbn [bind]. repeat split; assumption.
Qed.

Lemma get_loss_weight_cross_entropy_witness :
  exists w1 w2,
    get_loss {| MODEL := Some {| num_classes := Missing |};
                SOLVER := Some {| loss_function := Value (LossName "weight_cross_entropy");
                                  pos_weight := Value 3%R; class_weights := Missing;
                                  label_smoothing := Missing; gamma := Missing;
                                  alpha := Missing; smooth := Missing; beta := Missing;
                                  loss_weights := Missing |} |} "cpu" None
    = Ok (PyModule (M_CrossEntropyLoss (Some [w1; w2]) None 0%R))
    /\ (w1 + w2 = 1)%R /\ (w2 = 3 * w1)%R.
Proof.
  apply (proj2 (get_loss_weight_cross_entropy {| num_classes := Missing |}
                  {| loss_function := Value (LossName "weight_cross_entropy");
                     pos_weight := Value 3%R; class_weights := Missing;
                     label_smoothing := Missing; gamma := Missing;
                     alpha := Missing; smooth := Missing; beta := Missing;
                     loss_weights := Missing |} "cpu" None 3%R eq_refl eq_refl)); lra.
Defined.

(** [pos_weight] is a required key for "masked_binary_cross_entropy",
    "weight_cross_entropy" and "combined_dice_ce": without it the factory
    raises KeyError.  For the contrastive identifiers it is optional and
    defaults to 1. *)
Lemma get_loss_missing_pos_weight :
  forall (mc : ModelConfig) (sc : SolverConfig) (s : string) (device : string)
         (reduction : reduction_t),
    loss_function sc = Value (LossName s) ->
    pos_weight sc = Missing ->
    (In s ["masked_binary_cross_entropy"; "weight_cross_entropy"; "combined_dice_ce"]%string ->
     get_loss {| MODEL := Some mc; SOLVER := Some sc |} device reduction
     = Raise (KeyError "pos_weight"))
    /\ (In s ["contrastive_loss"; "masked_contrastive_loss"]%string ->
        get_loss {| MODEL := Some mc; SOLVER := Some sc |} device reduction
        = Ok (PyModule (M_MaskedContrastiveLoss
                          {| mcl_pos_weight := 1; mcl_reduction := reduction |}))).
Proof.
  intros mc sc s device reduction Hlf Hp.
  rewrite (get_loss_single mc sc _ device reduction Hlf).
  split; intros Hin; simpl in Hin;
    repeat (destruct Hin as [<-|Hin]); try contradiction;
    unfold get_loss_named;
    cbn [in_names existsb String.eqb Ascii.eqb Bool.eqb orb];
    rewrite Hp; reflexivity.
Qed.

Lemma get_loss_missing_pos_weight_witness :
  get_loss (bare_config (LossName "combined_dice_ce")) "cpu" (Some "mean"%string)
  = Raise (KeyError "pos_weight").
Proof.
  apply (proj1 (get_loss_missing_pos_weight {| num_classes := Missing |}
                  (bare_solver (LossName "combined_dice_ce")) "combined_dice_ce" "cpu"
                  (Some "mean"%string) eq_refl eq_refl)).
  right. right. left. reflexivity.
Defined.

Lemma length_update (l : list R) (k : nat) (w : R) :
  k < length l -> length (firstn k l ++ w :: skipn (S k) l) = length l.
Proof.
  intros H. rewrite length_app. cbn [length]. rewrite length_firstn, length_skipn. lia.
Qed.

Lemma nth_update_other (l : list R) (k i : nat) (w : R) :
  k < length l -> i <> k ->
  nth i (firstn k l ++ w :: skipn (S k) l) 0%R = nth i l 0%R.
Proof.
  intros Hk Hi.
  rewrite <- (firstn_skipn k l) at 3.
  destruct (Nat.lt_ge_cases i k) as [Hlt|Hge].
  - rewrite !app_nth1 by (rewrite length_firstn; lia). reflexivity.
  - rewrite !app_nth2 by (rewrite length_firstn; lia).
    rewrite length_firstn, Nat.min_l by lia.
    destruct (i - k) as [|j] eqn:Ej; [lia|].
    change (S k) with (1 + k). rewrite <- skipn_skipn.
    destruct (skipn k l) as [|x rest]; [now destruct j|reflexivity].
Qed.

Lemma setitem_spec (weight : list R) (key : Z) (w : R) :
  setitem weight key w
  = if key_in_range (length weight) key
    then Ok (firstn (key_index (length weight) key) weight
               ++ w :: skipn (S (key_index (length weight) key)) weight)
    else Raise IndexError.
Proof.
  unfold setitem, key_in_range, key_index.
  destruct (Z.leb_spec 0 key), (Z.ltb_spec key (Z.of_nat (length weight))),
    (Z.leb_spec (- Z.of_nat (length weight)) key), (Z.ltb_spec key 0);
    cbn [andb]; try reflexivity; lia.
Qed.

Lemma key_index_lt (n : nat) (key : Z) :
  key_in_range n key = true -> key_index n key < n.
Proof.
  unfold key_in_range, key_index. intros H. apply andb_prop in H. destruct H as [H1 H2].
  apply Z.leb_le in H1. apply Z.ltb_lt in H2.
  destruct (Z.leb_spec 0 key); lia.
Qed.

Lemma setitem_length (weight weight' : list R) (key : Z) (w : R) :
  setitem weight key w = Ok weight' -> length weight' = length weight.
Proof.
  rewrite setitem_spec. destruct (key_in_range (length weight) key) eqn:E; [|discriminate].
  intros H. injection H as <-. apply key_index_lt in E. now apply length_update.
Qed.

Lemma setitem_nth_other (weight weight' : list R) (key : Z) (w : R) (i : nat) :
  setitem weight key w = Ok weight' -> i <> key_index (length weight) key ->
  nth i weight' 0%R = nth i weight 0%R.
Proof.
  rewrite setitem_spec. destruct (key_in_range (length weight) key) eqn:E; [|discriminate].
  intros H Hi. injection H as <-. apply key_index_lt in E. now apply nth_update_other.
Qed.

Lemma set_class_weights_spec (overrides : list (Z * R)) :
  forall weight weight',
    set_class_weights weight overrides = Ok weight' ->
    length weight' = length weight
    /\ forall i,
        (forall key w, In (key, w) overrides -> i <> key_index (length weight) key) ->
        nth i weight' 0%R = nth i weight 0%R.
Proof.
  induction overrides as [|[key w] rest IH]; intros weight weight' H; simpl in H.
  - inversion H. split; [reflexivity|]. intros; reflexivity.
  - destruct (setitem weight key w) as [w1|e] eqn:E; cbn [bind] in H; [|discriminate].
    destruct (IH w1 weight' H) as [Hl Hn].
    pose proof (setitem_length weight w1 key w E) as Hl1.
    split; [congruence|].
    intros i Hi. rewrite Hn.
    + apply (setitem_nth_other weight w1 key w i E). apply (Hi key w). now left.
    + intros k x Hk. rewrite Hl1. apply (Hi k x). now right.
Qed.

Lemma set_class_weights_out_of_range (overrides : list (Z * R)) :
  forall weight,
    Exists (fun kw => key_in_range (length weight) (fst kw) = false) overrides ->
    set_class_weights weight overrides = Raise IndexError.
Proof.
  induction overrides as [|[key w] rest IH]; intros weight H; [inversion H|].
  simpl. rewrite setitem_spec.
  destruct (key_in_range (length weight) key) eqn:E; [|reflexivity].
  cbn [bind]. apply IH.
  inversion H as [? ? Hk|? ? Hr]; subst.
  - simpl in Hk. congruence.
  - apply key_index_lt in E. rewrite (length_update weight _ w E). exact Hr.
Qed.

(** For "cross_entropy" the factory builds a weight vector of [num_classes]
    entries, 1 everywhere except at the positions [class_weights] overrides
    (a negative key counts from the end); an override whose key lies outside
    [-num_classes, num_classes) raises IndexError. *)
Lemma get_loss_cross_entropy_weights :
  forall (mc : ModelConfig) (sc : SolverConfig) (device : string)
         (reduction : reduction_t) (n : Z) (overrides : list (Z * R)),
    loss_function sc = Value (LossName "cross_entropy") ->
    num_classes mc = Value n ->
    class_weights sc = Value overrides ->
    if forallb (fun kw => key_in_range (Z.to_nat n) (fst kw)) overrides
    then exists weight,
        get_loss {| MODEL := Some mc; SOLVER := Some sc |} device reduction
        = Ok (PyModule (M_CrossEntropyLoss (Some weight) reduction 0))
        /\ length weight = Z.to_nat n
        /\ forall i,
            i < Z.to_nat n ->
            (forall key w, In (key, w) overrides -> i <> key_index (Z.to_nat n) key) ->
            nth i weight 0%R = 1%R
    else get_loss {| MODEL := Some mc; SOLVER := Some sc |} device reduction
         = Raise IndexError.
Proof.
  intros mc sc device reduction n overrides Hlf Hn Hcw.
  rewrite (get_loss_single mc sc _ device reduction Hlf).
  unfold get_loss_named. cbn [in_names existsb String.eqb Ascii.eqb Bool.eqb orb].
  rewrite Hn, Hcw. cbn [get_params_values_None getitem bind].
  destruct (forallb (fun kw => key_in_range (Z.to_nat n) (fst kw)) overrides) eqn:E.
  - assert (Hret : exists weight,
               set_class_weights (repeat 1%R (Z.to_nat n)) overrides = Ok weight).
    { clear Hcw. assert (Hlen : length (repeat 1%R (Z.to_nat n)) = Z.to_nat n)
        by apply repeat_length.
      revert Hlen. generalize (repeat 1%R (Z.to_nat n)) as w0.
      induction overrides as [|[key w] rest IH]; intros w0 Hlen; [eexists; reflexivity|].
      simpl in E. apply andb_prop in E. destruct E as [E1 E2].
      simpl. rewrite setitem_spec, Hlen, E1. cbn [bind].
      apply (IH E2). apply key_index_lt in E1.
      rewrite length_update by (rewrite Hlen; exact E1). exact Hlen. }
    destruct Hret as [weight Hw].
    destruct (set_class_weights_spec overrides _ _ Hw) as [Hl Hnth].
    rewrite repeat_length in Hl, Hnth.
    exists weight. split; [|split].
    + destruct overrides; [inversion Hw; reflexivity|]. rewrite Hw. reflexivity.
    + exact Hl.
    + intros i Hi Ho. rewrite (Hnth i Ho). apply nth_repeat_lt. exact Hi.
  - assert (Hex : Exists (fun kw => key_in_range (length (repeat 1%R (Z.to_nat n)))
                                      (fst kw) = false) overrides).
    { rewrite repeat_length. clear Hcw.
      induction overrides as [|kw rest IH]; [discriminate|].
      simpl in E. destruct (key_in_range (Z.to_nat n) (fst kw)) eqn:Ek.
      - right. apply IH. exact E.
      - left. exact Ek. }
    destruct overrides as [|kw rest]; [inversion Hex|].
    now rewrite (set_class_weights_out_of_range _ _ Hex).
Qed.

Lemma get_loss_cross_entropy_weights_witness :
  exists weight,
    get_loss {| MODEL := Some {| num_classes := Value 3%Z |};
                SOLVER := Some {| loss_function := Value (LossName "cross_entropy");
                                  pos_weight := Missing;
                                  class_weights := Value [(1%Z, 5%R); ((-1)%Z, 2%R)];
                                  label_smoothing := Missing; gamma := Missing;
                                  alpha := Missing; smooth := Missing; beta := Missing;
                                  loss_weights := Missing |} |} "cpu" None
    = Ok (PyModule (M_CrossEntropyLoss (Some weight) None 0))
    /\ length weight = 3
    /\ forall i,
        i < 3 ->
        (forall key w, In (key, w) [(1%Z, 5%R); ((-1)%Z, 2%R)] -> i <> key_index 3 key) ->
        nth i weight 0%R = 1%R.
Proof.
  exact (get_loss_cross_entropy_weights
           {| num_classes := Value 3%Z |}
           {| loss_function := Value (LossName "cross_entropy");
              pos_weight := Missing;
              class_weights := Value [(1%Z, 5%R); ((-1)%Z, 2%R)];
              label_smoothing := Missing; gamma := Missing;
              alpha := Missing; smooth := Missing; beta := Missing;
              loss_weights := Missing |} "cpu" None 3%Z
           [(1%Z, 5%R); ((-1)%Z, 2%R)] eq_refl eq_refl eq_refl).
Defined.

Lemma get_loss_named_unsupported (mc : ModelConfig) (sc : SolverConfig) (s : string)
    (device : string) (reduction : reduction_t) :
  ~ In s supported_identifiers ->
  get_loss_named mc sc (Some s) device reduction = Ok PyNone.
Proof.
  intros Hs.
  assert (Hne : forall x, In x supported_identifiers -> String.eqb s x = false).
  { intros x Hx. apply String.eqb_neq. intros ->. contradiction. }
  unfold get_loss_named, in_names. cbn [existsb].
  repeat match goal with
         | |- context [String.eqb s ?x] =>
             rewrite (Hne x) by (unfold supported_identifiers; simpl; tauto)
         end.
  reflexivity.
Qed.

(** A list of identifiers is never refused for an identifier the factory
    does not know: whenever the factory returns, the result is a list with one
    entry per identifier, and the entry of every unsupported identifier is
    [None]; a list of unsupported identifiers only gives a list of [None]s,
    whatever the rest of the configuration holds. *)
Lemma get_loss_list_unknown_identifiers :
  forall (mc : ModelConfig) (sc : SolverConfig) (device : string) (reduction : reduction_t)
         (ids : list string),
    loss_function sc = Value (LossNames (map LossName ids)) ->
    (forall v,
        get_loss {| MODEL := Some mc; SOLVER := Some sc |} device reduction = Ok v ->
        exists vs, v = PyList vs
                   /\ Forall2 (fun id x => ~ In id supported_identifiers -> x = PyNone) ids vs)
    /\ (Forall (fun id => ~ In id supported_identifiers) ids ->
        get_loss {| MODEL := Some mc; SOLVER := Some sc |} device reduction
        = Ok (PyList (repeat PyNone (length ids)))).
Proof.
  intros mc sc device reduction ids Hlf.
  unfold get_loss. cbn [MODEL SOLVER]. rewrite Hlf. cbn [getitem bind get_loss_of].
  clear Hlf. split.
  - intros v H.
    destruct (for_each (get_loss_of mc sc device reduction) (map LossName ids))
      as [vs|e] eqn:E; cbn [bind] in H; [|discriminate].
    injection H as <-. exists vs. split; [reflexivity|].
    revert vs E. induction ids as [|id ids IH]; intros vs E; simpl in E.
    + injection E as <-. constructor.
    + destruct (get_loss_named mc sc (Some id) device reduction) as [x|e] eqn:Ex;
        cbn [bind] in E; [|discriminate].
      destruct (for_each (get_loss_of mc sc device reduction) (map LossName ids))
        as [xs|e] eqn:Exs; cbn [bind] in E; [|discriminate].
      injection E as <-. constructor; [|now apply IH].
      intros Hid. rewrite (get_loss_named_unsupported mc sc id device reduction Hid) in Ex.
      now injection Ex as <-.
  - intros Hall. induction Hall as [|id ids Hid Hall IH]; [reflexivity|].
    simpl. rewrite (get_loss_named_unsupported mc sc id device reduction Hid). cbn [bind].
    destruct (for_each (get_loss_of mc sc device reduction) (map LossName ids))
      as [xs|e]; cbn [bind] in *; [|discriminate].
    injection IH as ->. reflexivity.
Qed.

Lemma get_loss_list_unknown_identifiers_witness :
  get_loss (bare_config (LossNames (map LossName ["dice_loss"; "lovasz"]%string)))
    "cpu" None
  = Ok (PyList [PyNone; PyNone]).
Proof.
  apply (proj2 (get_loss_list_unknown_identifiers
                  {| num_classes := Missing |}
                  (bare_solver (LossNames (map LossName ["dice_loss"; "lovasz"]%string)))
                  "cpu" None ["dice_loss"; "lovasz"]%string eq_refl)).
  unfold supported_identifiers.
  repeat constructor; simpl; intros H;
    repeat (destruct H as [H|H]; [discriminate H|]); exact H.
Defined.

(** ** CombinedLoss with too few weights *)

Section CombinedLoss_weights.
Variables F Inputs Targets : Type.
Variable call : F -> Inputs -> Targets -> result (tensor R).
Variables (inputs : Inputs) (targets : Targets).

Lemma CombinedLoss_loop_short (ws : list R) (fns : list F) :
  forall i loss,
    i <= length ws < i + length fns ->
    ~ returns (CombinedLoss_loop call ws inputs targets i fns loss).
Proof.
  induction fns as [|f fns IH]; intros i loss H [v Hv]; simpl in *; [lia|].
  unfold list_item in Hv.
  destruct (nth_error ws i) as [w|] eqn:Ew; cbn [bind] in Hv; [|discriminate].
  assert (Hi : i < length ws) by (apply nth_error_Some; congruence).
  destruct (call f inputs targets) as [t|e]; cbn [bind] in Hv; [|discriminate].
  destruct (add_term loss (tmap (Rmult w) t)) as [l|e]; cbn [bind] in Hv; [|discriminate].
  apply (IH (S i) l); [lia|]. exists v. exact Hv.
Qed.

(** With fewer weights than sub-losses forward never returns a loss, whatever
    the sub-losses compute; with no weight at all it raises IndexError before
    any sub-loss is called. *)
Lemma CombinedLoss_too_few_weights (self : CombinedLoss F) :
  length (weights self) < length (loss_fns self) ->
  ~ returns (CombinedLoss_forward call self inputs targets)
  /\ (weights self = [] ->
      CombinedLoss_forward call self inputs targets = Raise IndexError).
Proof.
  intros H. split.
  - apply CombinedLoss_loop_short. lia.
  - intros Hw. unfold CombinedLoss_forward. rewrite Hw in *.
    destruct (loss_fns self) as [|f fns]; [simpl in H; lia|]. reflexivity.
Qed.
End CombinedLoss_weights.

(** Two sub-losses that each return the scalar 1, and a single weight. *)
Lemma CombinedLoss_too_few_weights_witness :
  ~ returns (CombinedLoss_forward (fun (_ : unit) (_ _ : unit) => Ok (scalar 1%R))
               {| loss_fns := [tt; tt]; weights := [1%R] |} tt tt).
Proof.
  apply (proj1 (CombinedLoss_too_few_weights unit unit unit
                  (fun (_ : unit) (_ _ : unit) => Ok (scalar 1%R)) tt tt
                  {| loss_fns := [tt; tt]; weights := [1%R] |}
                  (Nat.lt_succ_diag_r 1))).
Defined.

(** ** What a mask keeps *)

Lemma select_app {A} (m1 m2 : list bool) (x1 x2 : list A) :
  length m1 = length x1 ->
  select (m1 ++ m2) (x1 ++ x2) = select m1 x1 ++ select m2 x2.
Proof.
  revert x1; induction m1 as [|b m1 IH]; intros [|x x1] H; simpl in *; try discriminate.
  - reflexivity.
  - destruct b; simpl; rewrite IH by lia; reflexivity.
Qed.

Lemma select_repeat {A} (b : bool) (xs : list A) :
  select (repeat b (length xs)) xs = if b then xs else [].
Proof.
  induction xs as [|x xs IH]; simpl; [now destruct b|].
  rewrite IH. now destruct b.
Qed.

Lemma select_length {A B} (m : list bool) (xs : list A) (ys : list B) :
  length xs = length m -> length ys = length m ->
  length (select m xs) = length (select m ys).
Proof.
  revert xs ys; induction m as [|b m IH]; intros [|x xs] [|y ys] Hx Hy; simpl in *;
    try discriminate; [reflexivity|].
  destruct b; simpl; rewrite (IH xs ys) by lia; reflexivity.
Qed.

Lemma chunks_length {A} (n k : nat) (d : list A) : length (chunks n k d) = n.
Proof.
  revert d; induction n as [|n IH]; intros d; simpl; [reflexivity|]. now rewrite IH.
Qed.

(** Selecting elements with a mask in which every entry is written [c] times
    is selecting blocks of [c] elements. *)
Lemma select_flat_map_repeat {A} (c : nat) (dm : list bool) :
  forall dl : list A,
    length dl = length dm * c ->
    select (flat_map (fun b => repeat b c) dm) dl
    = concat (select dm (chunks (length dm) c dl)).
Proof.
  induction dm as [|b dm IH]; intros dl H; [reflexivity|].
  cbn [flat_map length chunks select].
  rewrite <- (firstn_skipn c dl) at 1.
  assert (Hf : length (firstn c dl) = c) by (rewrite length_firstn; simpl in H; lia).
  rewrite select_app by (now rewrite repeat_length).
  rewrite <- Hf at 1. rewrite select_repeat.
  rewrite IH by (rewrite length_skipn; simpl in H; lia).
  now destruct b.
Qed.

Lemma select_Forall {A} (P : A -> Prop) (m : list bool) (xs : list A) :
  Forall P xs -> Forall P (select m xs).
Proof.
  intros H. revert m. induction H as [|x xs Hx H IH]; intros [|b m]; simpl;
    try constructor.
  destruct b; [constructor; [exact Hx|apply IH]|apply IH].
Qed.

Lemma concat_length_blocks {A} (c : nat) (l : list (list A)) :
  Forall (fun r => length r = c) l -> length (concat l) = length l * c.
Proof.
  induction 1 as [|r l Hr H IH]; simpl; [reflexivity|].
  now rewrite length_app, Hr, IH.
Qed.

Lemma kept_rows_length {A} (c n : nat) (dm : list bool) (dl : list A) :
  length dm = n -> length dl = n * c ->
  length (concat (select dm (chunks n c dl))) = length (select dm (chunks n c dl)) * c.
Proof.
  intros Hm Hl. apply concat_length_blocks, select_Forall, chunks_Forall_length, Hl.
Qed.

(** Lines 224-225 and 266-269: the rows of the logits are indexed with the mask
    repeated along the class axis. *)
Lemma mask_index_repeated (n c : nat) (dl : list R) (dm : list bool) :
  length dl = n * c -> length dm = n ->
  mask_index (Tensor [n; c] dl) (Tensor [n; c] (flat_map (fun b => repeat b c) dm))
  = Ok (Tensor [length (select dm (chunks n c dl)) * c]
          (concat (select dm (chunks n c dl)))).
Proof.
  intros Hl Hm.
  rewrite (mask_index_same_shape (Tensor [n; c] dl) (Tensor [n; c] _) eq_refl).
  2:{ unfold well_formed. cbn [data shape numel_of_shape fold_right]. lia. }
  2:{ unfold well_formed. cbn [data shape numel_of_shape fold_right].
      rewrite flat_map_repeat_length. lia. }
  cbn [data]. subst n.
  rewrite select_flat_map_repeat by exact Hl.
  now rewrite kept_rows_length.
Qed.

Lemma mask_index_column {A} (n : nat) (dt : list A) (dm : list bool) :
  length dt = n -> length dm = n ->
  mask_index (Tensor [n; 1] dt) (Tensor [n; 1] dm)
  = Ok (Tensor [length (select dm dt)] (select dm dt)).
Proof.
  intros Ht Hm.
  rewrite (mask_index_same_shape (Tensor [n; 1] dt) (Tensor [n; 1] dm) eq_refl).
  - reflexivity.
  - unfold well_formed. cbn [data shape numel_of_shape fold_right]. lia.
  - unfold well_formed. cbn [data shape numel_of_shape fold_right]. lia.
Qed.

(** MaskedFocalLoss called with [(target, mask)] is FocalLoss on the rows of
    the flattened logits, and the entries of the target, at the positions
    where the mask is true: same value, or same exception. *)
Lemma MaskedFocalLoss_mask_keeps_rows :
  forall (gamma : R) (alpha : option (list R)) (reduction : reduction_t)
         (logits : tensor R) (target : tensor Z) (mask : tensor bool) (n c : nat),
    last_size logits = Ok c -> c <> 0 ->
    numel logits = n * c -> numel target = n -> numel mask = n ->
    MaskedFocalLoss_forward
      {| mfl_gamma := gamma; mfl_alpha := alpha; mfl_reduction := reduction |}
      logits (GSeq (ItemsN target mask []))
    = FocalLoss_forward
        {| fl_gamma := gamma; fl_alpha := alpha; fl_reduction := reduction |}
        (kept_rows c mask logits) (kept mask target).
Proof.
  intros gamma alpha reduction [sl dl] [st dt] [sm dm] n c Hc Hc0 Hl Ht Hm.
  unfold numel in *. cbn [data] in *.
  unfold MaskedFocalLoss_forward, FocalLoss_forward, kept_rows, kept.
  cbn [MaskedCrossEntropyLoss_ground_truth len length Nat.add Nat.eqb item0 item1 bind
         mfl_gamma mfl_alpha mfl_reduction fl_gamma fl_alpha fl_reduction].
  rewrite !reshape_rows_1. unfold numel. cbn [data bind]. rewrite Hc. cbn [bind].
  rewrite (reshape_rows_exact sl dl n c Hc0 Hl). cbn [bind].
  rewrite Ht, Hm, (mask_index_column n dt dm Ht Hm).
  cbn [bind last_size shape rev app].
  rewrite <- Hm at 1. rewrite repeat_last_column, Hm. cbn [bind].
  rewrite (mask_index_repeated n c dl dm Hl Hm). cbn [bind].
  rewrite (reshape_rows_exact _ _ (length (select dm (chunks n c dl))) c Hc0)
    by (apply kept_rows_length; assumption).
  cbn [bind].
  unfold channels_last_rows, log_softmax_dim1.
  cbn [dim shape length Nat.ltb Nat.leb bind unsqueeze_last app reshape_flat numel data].
  rewrite (select_length dm (chunks n c dl) dt) by (rewrite ?chunks_length; lia).
  reflexivity.
Qed.

(** Three pixels of two classes, in a tensor of shape (1, 3, 2); the second
    pixel is masked out. *)
Lemma MaskedFocalLoss_mask_keeps_rows_witness :
  MaskedFocalLoss_forward
    {| mfl_gamma := 2; mfl_alpha := None; mfl_reduction := Some "mean"%string |}
    (Tensor [1; 3; 2] [0%R; 1%R; 2%R; 0%R; 1%R; 1%R])
    (GSeq (ItemsN (Tensor [1; 3] [0%Z; 1%Z; 1%Z]) (Tensor [1; 3] [true; false; true]) []))
  = FocalLoss_forward
      {| fl_gamma := 2; fl_alpha := None; fl_reduction := Some "mean"%string |}
      (Tensor [2; 2] [0%R; 1%R; 1%R; 1%R]) (Tensor [2] [0%Z; 1%Z]).
Proof.
  apply (MaskedFocalLoss_mask_keeps_rows 2 None (Some "mean"%string)
           (Tensor [1; 3; 2] [0%R; 1%R; 2%R; 0%R; 1%R; 1%R])
           (Tensor [1; 3] [0%Z; 1%Z; 1%Z]) (Tensor [1; 3] [true; false; true]) 3 2).
  - reflexivity.
  - discriminate.
  - reflexivity.
  - reflexivity.
  - reflexivity.
Defined.

(** MaskedCrossEntropyLoss called with [(target, mask)] is
    MaskedCrossEntropyLoss called without a mask on the rows of the flattened
    logits, and the entries of the target, at the positions where the mask is
    true: the masked-out positions have no influence on the loss. *)
Lemma MaskedCrossEntropyLoss_mask_keeps_rows :
  forall (self : MaskedCrossEntropyLoss)
         (logits : tensor R) (target : tensor Z) (mask : tensor bool) (n c : nat),
    last_size logits = Ok c -> c <> 0 ->
    numel logits = n * c -> numel target = n -> numel mask = n ->
    MaskedCrossEntropyLoss_forward self logits (GSeq (ItemsN target mask []))
    = MaskedCrossEntropyLoss_forward self (kept_rows c mask logits)
        (GTensor (kept mask target)).
Proof.
  intros self [sl dl] [st dt] [sm dm] n c Hc Hc0 Hl Ht Hm.
  unfold numel in *. cbn [data] in *.
  unfold MaskedCrossEntropyLoss_forward, kept_rows, kept.
  cbn [MaskedCrossEntropyLoss_ground_truth len length Nat.add Nat.eqb item0 item1 bind].
  rewrite !reshape_rows_1. unfold numel. cbn [data bind]. rewrite Hc. cbn [bind].
  rewrite (reshape_rows_exact sl dl n c Hc0 Hl). cbn [bind].
  rewrite Ht, Hm.
  rewrite <- Hm at 1. rewrite repeat_last_column, Hm. cbn [bind].
  rewrite (mask_index_repeated n c dl dm Hl Hm). cbn [bind].
  rewrite (reshape_rows_exact _ _ (length (select dm (chunks n c dl))) c Hc0)
    by (apply kept_rows_length; assumption).
  cbn [bind].
  rewrite (mask_index_column n dt dm Ht Hm).
  cbn [bind last_size shape rev app unsqueeze_last].
  rewrite (reshape_rows_exact _ _ (length (select dm (chunks n c dl))) c Hc0)
    by (apply kept_rows_length; assumption).
  cbn [bind].
  rewrite (select_length dm (chunks n c dl) dt) by (rewrite ?chunks_length; lia).
  reflexivity.
Qed.

Lemma MaskedCrossEntropyLoss_mask_keeps_rows_witness :
  MaskedCrossEntropyLoss_forward {| mce_mean := true |}
    (Tensor [1; 3; 2] [0%R; 1%R; 2%R; 0%R; 1%R; 1%R])
    (GSeq (ItemsN (Tensor [1; 3] [0%Z; 1%Z; 1%Z]) (Tensor [1; 3] [true; false; true]) []))
  = MaskedCrossEntropyLoss_forward {| mce_mean := true |}
      (Tensor [2; 2] [0%R; 1%R; 1%R; 1%R]) (GTensor (Tensor [2] [0%Z; 1%Z])).
Proof.
  apply (MaskedCrossEntropyLoss_mask_keeps_rows {| mce_mean := true |}
           (Tensor [1; 3; 2] [0%R; 1%R; 2%R; 0%R; 1%R; 1%R])
           (Tensor [1; 3] [0%Z; 1%Z; 1%Z]) (Tensor [1; 3] [true; false; true]) 3 2).
  - reflexivity.
  - discriminate.
  - reflexivity.
  - reflexivity.
  - reflexivity.
Defined.

Lemma select_zip_with {A B C} (f : A -> B -> C) (m : list bool) :
  forall (xs : list A) (ys : list B),
    length xs = length m -> length ys = length m ->
    zip_with f (select m xs) (select m ys) = select m (zip_with f xs ys).
Proof.
  induction m as [|b m IH]; intros [|x xs] [|y ys] Hx Hy; simpl in *;
    try discriminate; [reflexivity|].
  destruct b; simpl; rewrite IH by lia; reflexivity.
Qed.

Lemma select_count_true {A} (m : list bool) :
  forall xs : list A,
    length xs = length m -> Z.of_nat (length (select m xs)) = count_true m.
Proof.
  induction m as [|b m IH]; intros [|x xs] H; simpl in *; try discriminate; [reflexivity|].
  destruct b; cbn [length]; rewrite <- (IH xs) by lia; lia.
Qed.

(** MaskedBinaryCrossEntropy with a target and a mask of the shape of the
    logits is the binary cross-entropy of the kept elements only; with
    reduction "mean" the losses of the kept elements are summed and divided by
    the number of true mask elements, not by the number of all elements.
    Elements of the ground truth after the mask are ignored. *)
Lemma MaskedBinaryCrossEntropy_kept_elements :
  forall (self : MaskedBinaryCrossEntropy) (logits target : tensor R) (mask : tensor bool)
         (more : list any_tensor),
    shape target = shape logits -> shape mask = shape logits ->
    well_formed logits -> well_formed target -> well_formed mask ->
    MaskedBinaryCrossEntropy_forward self logits (GSeq (ItemsN target mask more))
    = BCEWithLogitsLoss (mbce_reduction self) (mbce_pos_weight self)
        (kept mask logits) (kept mask target)
    /\ (mbce_reduction self = Some "mean"%string ->
        exists losses,
          BCEWithLogitsLoss (Some "none"%string) (mbce_pos_weight self) logits target
          = Ok losses
          /\ MaskedBinaryCrossEntropy_forward self logits (GSeq (ItemsN target mask more))
             = Ok (scalar (Rsum (select (data mask) (data losses))
                           / IZR (count_true (data mask)))%R)).
Proof.
  intros [red pw] [sl dl] [st dt] [sm dm] more Hst Hsm Hl Ht Hm.
  unfold well_formed in *. cbn [shape data mbce_reduction mbce_pos_weight] in *. subst st sm.
  assert (E : MaskedBinaryCrossEntropy_forward
                {| mbce_reduction := red; mbce_pos_weight := pw |}
                (Tensor sl dl) (GSeq (ItemsN (Tensor sl dt) (Tensor sl dm) more))
              = BCEWithLogitsLoss red pw (kept (Tensor sl dm) (Tensor sl dl))
                  (kept (Tensor sl dm) (Tensor sl dt))).
  { unfold MaskedBinaryCrossEntropy_forward.
    assert (Hlen : (len (ItemsN (Tensor sl dt) (Tensor sl dm) more) =? 1) = false)
      by reflexivity.
    rewrite Hlen. cbn [item0 item1 bind].
    rewrite (mask_index_same_shape (Tensor sl dt) (Tensor sl dm) eq_refl Ht Hm).
    rewrite (mask_index_same_shape (Tensor sl dl) (Tensor sl dm) eq_refl Hl Hm).
    reflexivity. }
  split; [exact E|].
  intros ->. rewrite E. unfold BCEWithLogitsLoss, kept.
  cbn [String.eqb Ascii.eqb Bool.eqb bind shape data].
  destruct (list_eq_dec Nat.eq_dec sl sl) as [_|N]; [|contradiction].
  eexists. split; [reflexivity|]. cbn [data].
  rewrite (select_length dm dt dl) by lia.
  destruct (list_eq_dec Nat.eq_dec _ _) as [_|N]; [|contradiction].
  unfold tmean, numel. cbn [data].
  rewrite select_zip_with by lia.
  rewrite INR_IZR_INZ, select_count_true by (rewrite zip_with_length; lia).
  reflexivity.
Qed.

Lemma MaskedBinaryCrossEntropy_kept_elements_witness :
  MaskedBinaryCrossEntropy_forward
    {| mbce_reduction := Some "mean"%string; mbce_pos_weight := None |}
    (Tensor [2; 2] [0%R; 1%R; 2%R; 3%R])
    (GSeq (ItemsN (Tensor [2; 2] [1%R; 0%R; 1%R; 0%R])
             (Tensor [2; 2] [true; false; true; true]) []))
  = BCEWithLogitsLoss (Some "mean"%string) None
      (kept (Tensor [2; 2] [true; false; true; true]) (Tensor [2; 2] [0%R; 1%R; 2%R; 3%R]))
      (kept (Tensor [2; 2] [true; false; true; true]) (Tensor [2; 2] [1%R; 0%R; 1%R; 0%R]))
  /\ exists losses,
      BCEWithLogitsLoss (Some "none"%string) None
        (Tensor [2; 2] [0%R; 1%R; 2%R; 3%R]) (Tensor [2; 2] [1%R; 0%R; 1%R; 0%R])
      = Ok losses
      /\ MaskedBinaryCrossEntropy_forward
           {| mbce_reduction := Some "mean"%string; mbce_pos_weight := None |}
           (Tensor [2; 2] [0%R; 1%R; 2%R; 3%R])
           (GSeq (ItemsN (Tensor [2; 2] [1%R; 0%R; 1%R; 0%R])
                    (Tensor [2; 2] [true; false; true; true]) []))
         = Ok (scalar (Rsum (select [true; false; true; true] (data losses)) / 3)%R).
Proof.
  destruct (MaskedBinaryCrossEntropy_kept_elements
              {| mbce_reduction := Some "mean"%string; mbce_pos_weight := None |}
              (Tensor [2; 2] [0%R; 1%R; 2%R; 3%R]) (Tensor [2; 2] [1%R; 0%R; 1%R; 0%R])
              (Tensor [2; 2] [true; false; true; true]) []
              eq_refl eq_refl eq_refl eq_refl eq_refl) as [H1 H2].
  split; [exact H1|exact (H2 eq_refl)].
Defined.

Lemma zip_with_map_diag {A B C} (f : B -> A -> C) (g : A -> B) (xs : list A) :
  zip_with f (map g xs) xs = map (fun x => f (g x) x) xs.
Proof.
  induction xs as [|x xs IH]; simpl; [reflexivity|]. now rewrite IH.
Qed.

Lemma repeat_last_rows (n c : nat) (dm : list bool) :
  length dm = n ->
  repeat_last 2 c (Tensor [n; 1] dm)
  = Ok (Tensor [n; c] (flat_map (fun b => repeat b c) dm)).
Proof.
  intros <-. apply repeat_last_column.
Qed.

(** With gamma 0 and no alpha (the constructor's defaults) MaskedFocalLoss is
    the masked cross-entropy: its loss is the flattened per-element loss of
    MaskedCrossEntropyLoss on the same arguments, reduced as asked. *)
Lemma MaskedFocalLoss_gamma_0_is_cross_entropy :
  forall (reduction : reduction_t)
         (logits : tensor R) (target : tensor Z) (mask : tensor bool) (n c : nat),
    last_size logits = Ok c -> c <> 0 ->
    numel logits = n * c -> numel target = n -> numel mask = n ->
    MaskedFocalLoss_forward (MaskedFocalLoss_init 0 None reduction)
      logits (GSeq (ItemsN target mask []))
    = let* losses := MaskedCrossEntropyLoss_forward {| mce_mean := false |}
                       logits (GSeq (ItemsN target mask [])) in
      reduce focal_msg reduction (reshape_flat losses).
Proof.
  intros reduction [sl dl] [st dt] [sm dm] n c Hc Hc0 Hl Ht Hm.
  unfold numel in *. cbn [data] in *.
  unfold MaskedFocalLoss_forward, MaskedCrossEntropyLoss_forward, MaskedFocalLoss_init,
    init_alpha.
  cbn [MaskedCrossEntropyLoss_ground_truth len length Nat.add Nat.eqb item0 item1 bind
         mfl_gamma mfl_alpha mfl_reduction mce_mean].
  rewrite !reshape_rows_1. unfold numel. cbn [data bind]. rewrite Hc. cbn [bind].
  rewrite (reshape_rows_exact sl dl n c Hc0 Hl). cbn [bind].
  rewrite Ht, Hm, (mask_index_column n dt dm Ht Hm).
  cbn [bind last_size shape rev app].
  rewrite (repeat_last_rows n c dm Hm). cbn [bind].
  rewrite (mask_index_repeated n c dl dm Hl Hm). cbn [bind].
  rewrite (reshape_rows_exact _ _ (length (select dm (chunks n c dl))) c Hc0)
    by (apply kept_rows_length; assumption).
  cbn [bind unsqueeze_last shape data app].
  destruct (gather_rows _ _) as [g|e]; cbn [bind]; [|reflexivity].
  rewrite tensor_op_same_shape;
    [|reflexivity
     |unfold well_formed, reshape_flat, tmap, numel;
      cbn [shape data numel_of_shape fold_right]; rewrite ?length_map; lia ..].
  cbn [bind]. f_equal.
  unfold reshape_flat, tmap, numel. cbn [shape data]. rewrite length_map. f_equal.
  rewrite map_map, zip_with_map_diag.
  apply map_ext. intros x. rewrite Rpow_0. ring.
Qed.

Lemma MaskedFocalLoss_gamma_0_is_cross_entropy_witness :
  MaskedFocalLoss_forward (MaskedFocalLoss_init 0 None (Some "sum"%string))
    (Tensor [1; 3; 2] [0%R; 1%R; 2%R; 0%R; 1%R; 1%R])
    (GSeq (ItemsN (Tensor [1; 3] [0%Z; 1%Z; 1%Z]) (Tensor [1; 3] [true; false; true]) []))
  = let* losses := MaskedCrossEntropyLoss_forward {| mce_mean := false |}
                     (Tensor [1; 3; 2] [0%R; 1%R; 2%R; 0%R; 1%R; 1%R])
                     (GSeq (ItemsN (Tensor [1; 3] [0%Z; 1%Z; 1%Z])
                              (Tensor [1; 3] [true; false; true]) [])) in
    reduce focal_msg (Some "sum"%string) (reshape_flat losses).
Proof.
  apply (MaskedFocalLoss_gamma_0_is_cross_entropy (Some "sum"%string)
           (Tensor [1; 3; 2] [0%R; 1%R; 2%R; 0%R; 1%R; 1%R])
           (Tensor [1; 3] [0%Z; 1%Z; 1%Z]) (Tensor [1; 3] [true; false; true]) 3 2).
  - reflexivity.
  - discriminate.
  - reflexivity.
  - reflexivity.
  - reflexivity.
Defined.

(** ** Signs *)

Lemma Forall_firstn_skipn {A} (P : A -> Prop) (k : nat) (d : list A) :
  Forall P d -> Forall P (firstn k d) /\ Forall P (skipn k d).
Proof.
  intros H. rewrite <- (firstn_skipn k d) in H. now apply Forall_app in H.
Qed.

Lemma chunks_Forall {A} (P : A -> Prop) (n k : nat) :
  forall d : list A, Forall P d -> Forall (Forall P) (chunks n k d).
Proof.
  induction n as [|n IH]; intros d H; simpl; constructor.
  - apply (Forall_firstn_skipn P k d H).
  - apply IH. apply (Forall_firstn_skipn P k d H).
Qed.

Lemma nth_Forall {A} (P : A -> Prop) (l : list A) (d : A) (i : nat) :
  Forall P l -> P d -> P (nth i l d).
Proof.
  intros H Hd. revert i. induction H as [|x l Hx H IH]; intros [|i]; simpl; auto.
Qed.

Lemma zip_with_Forall {A B C} (P : A -> Prop) (Q : C -> Prop) (f : A -> B -> C) :
  (forall a b, P a -> Q (f a b)) ->
  forall (xs : list A) (ys : list B), Forall P xs -> Forall Q (zip_with f xs ys).
Proof.
  intros Hf xs ys H. revert ys. induction H as [|x xs Hx H IH]; intros [|y ys]; simpl;
    constructor; auto.
Qed.

(** What [gather] returns was read in the tensor, or is the value of an empty
    position. *)
Lemma gather_rows_Forall (P : R -> Prop) (t g : tensor R) (index : tensor Z) :
  Forall P (data t) -> P 0%R -> gather_rows t index = Ok g -> Forall P (data g).
Proof.
  intros Ht H0 H. unfold gather_rows in H.
  destruct (numel index =? 0); [injection H as <-; constructor|].
  destruct (shape t) as [|n [|c [|? ?]]]; try discriminate.
  destruct (shape index) as [|m [|k [|? ?]]]; try discriminate.
  destruct (m <=? n); [|discriminate].
  destruct (forallb _ _); [|discriminate].
  injection H as <-. cbn [data].
  apply Forall_concat.
  apply (zip_with_Forall (Forall P)); [|apply chunks_Forall, Ht].
  intros row irow Hrow. apply Forall_map, Forall_forall. intros i _.
  now apply nth_Forall.
Qed.

Lemma Rsum_exp_ge (r : list R) (x : R) :
  In x r -> (exp x <= Rsum (map exp r))%R /\ (0 < Rsum (map exp r))%R.
Proof.
  unfold Rsum.
  assert (Hpos : forall l : list R, (0 <= fold_right Rplus 0 (map exp l))%R).
  { induction l as [|y l IH]; simpl; [lra|]. pose proof (exp_pos y). lra. }
  induction r as [|y r IH]; intros H; [contradiction|].
  simpl. pose proof (exp_pos y) as Hy. pose proof (Hpos r) as Hr.
  destruct H as [->|H]; [lra|].
  destruct (IH H). lra.
Qed.

(** Log-probabilities are never positive. *)
Lemma log_softmax_nonpositive (t : tensor R) :
  Forall (fun x => (x <= 0)%R) (data (log_softmax t)).
Proof.
  unfold log_softmax. cbn [data].
  rewrite flat_map_concat_map. apply Forall_concat, Forall_map, Forall_forall.
  intros r _. unfold log_softmax_row. apply Forall_map, Forall_forall. intros x Hx.
  destruct (Rsum_exp_ge r x Hx) as [Hle Hpos].
  assert (x <= ln (Rsum (map exp r)))%R; [|lra].
  rewrite <- (ln_exp x) at 1.
  destruct Hle as [Hlt|Heq]; [left; apply ln_increasing; [apply exp_pos|exact Hlt]|].
  right. now rewrite Heq.
Qed.

Lemma MaskedCrossEntropyLoss_losses_sign (logits : tensor R) (ground_truth : ground_truth Z)
    (losses : tensor R) :
  MaskedCrossEntropyLoss_forward {| mce_mean := false |} logits ground_truth = Ok losses ->
  Forall (fun x => (0 <= x)%R) (data losses).
Proof.
  intros H.
  unfold MaskedCrossEntropyLoss_forward in H. cbn [mce_mean] in H.
  destruct (MaskedCrossEntropyLoss_ground_truth ground_truth) as [[target mask]|e];
    cbn [bind] in H; [|discriminate].
  match type of H with
  | bind ?c _ = _ => destruct c as [[lf tf]|e]; cbn [bind] in H; [|discriminate]
  end.
  destruct (gather_rows (log_softmax lf) tf) as [g|e] eqn:Eg; cbn [bind] in H; [|discriminate].
  injection H as <-. cbn [tmap data].
  apply Forall_map.
  apply (gather_rows_Forall (fun x => (x <= 0)%R)) in Eg;
    [|apply log_softmax_nonpositive|lra].
  revert Eg. apply Forall_impl. intros x Hx. lra.
Qed.

Lemma expand_Forall {A} (P : A -> Prop) (src : list nat) :
  forall (dst : list nat) (d : list A), Forall P d -> Forall P (expand src dst d).
Proof.
  induction src as [|s src IH]; intros [|t dst] d H; simpl; try exact H.
  assert (Hrows : Forall P (concat (map (expand src dst)
                                       (chunks s (numel_of_shape src) d)))).
  { apply Forall_concat, Forall_map.
    eapply Forall_impl; [|apply (chunks_Forall P), H]. intros r Hr. now apply IH. }
  destruct (s =? t); [exact Hrows|].
  apply Forall_concat. clear - Hrows. induction t as [|t IHt]; simpl; constructor; auto.
Qed.

Lemma zip_with_Forall2 {A B C} (P : A -> Prop) (Q : B -> Prop) (S : C -> Prop)
    (f : A -> B -> C) :
  (forall a b, P a -> Q b -> S (f a b)) ->
  forall (xs : list A) (ys : list B),
    Forall P xs -> Forall Q ys -> Forall S (zip_with f xs ys).
Proof.
  intros Hf xs ys Hx. revert ys. induction Hx as [|x xs Hx Hxs IH]; intros ys Hy;
    destruct Hy as [|y ys Hy Hys]; simpl; constructor; auto.
Qed.

(** A broadcast operation combines elements of its two arguments only. *)
Lemma tensor_op_Forall {A B C} (P : A -> Prop) (Q : B -> Prop) (S : C -> Prop)
    (f : A -> B -> C) (a : tensor A) (b : tensor B) (r : tensor C) :
  (forall x y, P x -> Q y -> S (f x y)) ->
  Forall P (data a) -> Forall Q (data b) ->
  tensor_op f a b = Ok r -> Forall S (data r).
Proof.
  intros Hf Ha Hb H. unfold tensor_op in H.
  destruct (broadcast_shapes (shape a) (shape b)) as [s|]; [|discriminate].
  injection H as <-. cbn [data].
  apply (zip_with_Forall2 P Q S f Hf); unfold expand_to; now apply expand_Forall.
Qed.

Lemma Rpow_nonnegative (x y : R) : (0 <= x)%R -> (0 <= Rpow x y)%R.
Proof.
  intros Hx. unfold Rpow. destruct (Req_dec_T y 0); [lra|].
  destruct (Req_dec_T x 0); [lra|].
  destruct (Rlt_dec 0 x); [|lra].
  unfold Rpower. left. apply exp_pos.
Qed.

Lemma gather_vec_Forall (P : R -> Prop) (alpha : list R) (index : tensor Z) (g : tensor R) :
  Forall P alpha -> P 0%R -> gather_vec alpha index = Ok g -> Forall P (data g).
Proof.
  intros Ha H0 H. unfold gather_vec in H.
  destruct (numel index =? 0); [injection H as <-; constructor|].
  destruct (forallb _ _); [|discriminate].
  injection H as <-. cbn [data]. apply Forall_map, Forall_forall. intros i _.
  now apply nth_Forall.
Qed.

(** Lines 274-283 and 379-388: the focal loss of log-probabilities [logpt]. *)
Lemma focal_tail_sign (gamma : R) (alpha : option (list R)) (reduction : reduction_t)
    (logpt : tensor R) (target : tensor Z) (losses : tensor R) :
  nonnegative_alpha alpha ->
  Forall (fun x => (x <= 0)%R) (data logpt) ->
  (let logpt := reshape_flat logpt in
   let pt := tmap exp logpt in
   let* logpt := match alpha with
                 | Some alpha =>
                     let* at_ := gather_vec alpha (reshape_flat target) in
                     tensor_op Rmult logpt at_
                 | None => Ok logpt
                 end in
   let* loss := tensor_op Rmult (tmap (fun p => (-1 * Rpow (1 - p) gamma)%R) pt) logpt in
   reduce focal_msg None loss) = Ok losses ->
  Forall (fun x => (0 <= x)%R) (data losses).
Proof.
  intros Ha Hl H. cbv zeta in H.
  match type of H with
  | bind ?c _ = _ => destruct c as [lp|e] eqn:Elp; cbn [bind] in H; [|discriminate]
  end.
  assert (Hlp : Forall (fun x => (x <= 0)%R) (data lp)).
  { destruct alpha as [a|]; [|injection Elp as <-; exact Hl].
    destruct (gather_vec a (reshape_flat target)) as [at_|e] eqn:Eat;
      cbn [bind] in Elp; [|discriminate].
    apply (gather_vec_Forall (fun w => (0 <= w)%R) a _ _ Ha) in Eat; [|lra].
    revert Elp. apply (tensor_op_Forall (fun x => (x <= 0)%R) (fun w => (0 <= w)%R));
      [|exact Hl|exact Eat].
    intros x y Hx Hy. nra. }
  match type of H with
  | bind ?c _ = _ => destruct c as [loss|e] eqn:El; cbn [bind] in H; [|discriminate]
  end.
  cbn [reduce] in H. injection H as <-.
  revert El. apply (tensor_op_Forall (fun x => (x <= 0)%R) (fun x => (x <= 0)%R));
    [| |exact Hlp].
  - intros x y Hx Hy. nra.
  - cbn [tmap reshape_flat data]. apply Forall_map, Forall_map.
    revert Hl. apply Forall_impl. intros x Hx.
    assert (Hp : (exp x <= 1)%R).
    { rewrite <- exp_0. destruct Hx as [Hlt|E]; [left; now apply exp_increasing|].
      rewrite E. lra. }
    assert (Hb : (0 <= 1 - exp x)%R) by lra.
    pose proof (Rpow_nonnegative (1 - exp x) gamma Hb). lra.
Qed.

(** With no reduction, MaskedCrossEntropyLoss, and MaskedFocalLoss and
    FocalLoss built with a gamma that is not negative and no negative class
    weight in alpha, return no negative loss. *)
Lemma log_likelihood_losses_nonnegative :
  forall (f : functor) (logits : tensor R) (arg : second_argument f) (losses : tensor R),
    log_likelihood_functor f ->
    forward f None logits arg = Ok losses ->
    Forall (fun x => (0 <= x)%R) (data losses).
Proof.
  intros [pw|pw| |gamma alpha|ls device|gamma alpha|s a b g] logits arg losses Hf H;
    try contradiction; cbn [forward second_argument log_likelihood_functor] in *.
  - exact (MaskedCrossEntropyLoss_losses_sign logits arg losses H).
  - unfold MaskedFocalLoss_forward in H.
    cbn [mfl_gamma mfl_alpha mfl_reduction] in H.
    repeat match type of H with
           | bind ?c _ = _ =>
               lazymatch c with
               | gather_rows _ _ => fail
               | _ => destruct c as [?|?]; cbn [bind] in H; [|discriminate]
               end
           | (let (_, _) := ?p in _) = _ => destruct p
           end.
    match type of H with
    | bind (gather_rows ?t ?i) _ = _ =>
        destruct (gather_rows t i) as [g|e] eqn:Eg; cbn [bind] in H; [|discriminate]
    end.
    apply (gather_rows_Forall (fun x => (x <= 0)%R)) in Eg;
      [|apply log_softmax_nonpositive|lra].
    exact (focal_tail_sign gamma alpha None g _ losses (proj2 Hf) Eg H).
  - unfold FocalLoss_forward in H.
    cbn [fl_gamma fl_alpha fl_reduction] in H.
    destruct (channels_last_rows logits) as [input|e]; cbn [bind] in H; [|discriminate].
    destruct (reshape_rows arg 1) as [target|e]; cbn [bind] in H; [|discriminate].
    unfold log_softmax_dim1 in H.
    destruct (dim input <? 2); cbn [bind] in H; [discriminate|].
    destruct (gather_rows (log_softmax input) target) as [g|e] eqn:Eg;
      cbn [bind] in H; [|discriminate].
    apply (gather_rows_Forall (fun x => (x <= 0)%R)) in Eg;
      [|apply log_softmax_nonpositive|lra].
    exact (focal_tail_sign gamma alpha None g _ losses (proj2 Hf) Eg H).
Qed.

(** One row of two classes, the target class 1, with the class weights
    (1, 3) and gamma 2. *)
Lemma log_likelihood_losses_nonnegative_witness :
  exists losses,
    forward (FocalF 2 (Some [1%R; 3%R])) None (Tensor [1; 2] [0%R; 1%R]) (Tensor [1] [1%Z])
    = Ok losses
    /\ Forall (fun x => (0 <= x)%R) (data losses).
Proof.
  eexists. split; [reflexivity|].
  apply (log_likelihood_losses_nonnegative (FocalF 2 (Some [1%R; 3%R]))
           (Tensor [1; 2] [0%R; 1%R]) (Tensor [1] [1%Z])).
  - split; [lra|]. repeat constructor; lra.
  - reflexivity.
Defined.

(** ** per_class_loss on well-shaped arguments *)

(** [idx.repeat(1, 1, 1, c)] for [idx] of shape (a, b, h, 1). *)
Lemma repeat_last_4 (a b h c : nat) (idx : tensor bool) :
  shape idx = [a; b; h; 1] -> well_formed idx ->
  repeat_last 4 c idx
  = Ok (Tensor [a; b; h; c] (flat_map (fun x => repeat x c) (data idx))).
Proof.
  destruct idx as [s d]. cbn [shape data]. intros -> Hwf.
  unfold well_formed in Hwf. cbn [shape data numel_of_shape fold_right] in Hwf.
  unfold repeat_last.
  cbn [dim shape length Nat.ltb Nat.leb Nat.sub repeat app removelast last
         numel_of_shape fold_right data].
  rewrite Nat.mul_1_l.
  replace (a * (b * (h * 1))) with (length d) by lia.
  rewrite chunks_1. f_equal. f_equal.
  rewrite flat_map_concat_map, map_map, <- flat_map_concat_map.
  apply flat_map_ext. intros x. apply concat_repeat_singleton.
Qed.

Section per_class_well_shaped.
Variable criterion : tensor R -> tensor Z -> tensor bool -> result (tensor R).
Variables (logits : tensor R) (labels : tensor Z) (unk_masks : tensor bool).
Variables a b h n_classes : nat.
Hypothesis logits_shape : shape logits = [a; b; h; n_classes].
Hypothesis labels_shape : shape labels = [a; b; h; 1].
Hypothesis masks_shape : shape unk_masks = [a; b; h; 1].
Hypothesis logits_wf : well_formed logits.
Hypothesis labels_wf : well_formed labels.
Hypothesis masks_wf : well_formed unk_masks.

(** Lines 124-130 for one class: the only call that can raise is the
    criterion's, on the pixels of the class. *)
Lemma per_class_step_well_shaped (class_ : nat) :
  class_ < n_classes ->
  let idx := tmap (Z.eqb (Z.of_nat class_)) labels in
  per_class_step criterion logits labels unk_masks n_classes class_
  = let* loss := criterion (kept_rows n_classes idx logits)
                   (unsqueeze_last (kept idx labels))
                   (unsqueeze_last (kept idx unk_masks)) in
    Ok (loss, class_count labels unk_masks class_).
Proof.
  intros Hc idx. unfold per_class_step. fold idx.
  assert (Hidx_shape : shape idx = [a; b; h; 1]) by exact labels_shape.
  assert (Hidx_wf : well_formed idx) by (apply well_formed_tmap; exact labels_wf).
  assert (Hn : length (data idx) = a * b * h).
  { unfold well_formed in Hidx_wf. rewrite Hidx_wf, Hidx_shape.
    cbn [numel_of_shape fold_right]. lia. }
  assert (Hl : length (data logits) = length (data idx) * n_classes).
  { unfold well_formed in logits_wf. rewrite logits_wf, logits_shape, Hn.
    cbn [numel_of_shape fold_right]. lia. }
  rewrite (repeat_last_4 a b h n_classes idx Hidx_shape Hidx_wf). cbn [bind].
  rewrite (mask_index_same_shape logits (Tensor [a; b; h; n_classes] _)).
  2:{ now rewrite logits_shape. }
  2:{ exact logits_wf. }
  2:{ unfold well_formed. cbn [shape data numel_of_shape fold_right].
      rewrite flat_map_repeat_length, Hn. lia. }
  cbn [bind data].
  rewrite (select_flat_map_repeat n_classes (data idx) (data logits) Hl).
  rewrite (reshape_rows_exact _ _ (length (select (data idx)
                                            (chunks (length (data idx)) n_classes
                                               (data logits)))) n_classes)
    by first [lia | apply kept_rows_length; [reflexivity|exact Hl]].
  cbn [bind].
  rewrite (mask_index_same_shape labels idx)
    by first [assumption | now rewrite Hidx_shape].
  rewrite (mask_index_same_shape unk_masks idx)
    by first [assumption | now rewrite Hidx_shape, masks_shape].
  cbn [bind]. rewrite !reshape_rows_1. unfold numel. cbn [bind data].
  reflexivity.
Qed.
End per_class_well_shaped.

Lemma per_class_loop_for_each
    (criterion : tensor R -> tensor Z -> tensor bool -> result (tensor R))
    (logits : tensor R) (labels : tensor Z) (unk_masks : tensor bool) (n_classes : nat)
    (f : nat -> result (tensor R)) (count : nat -> Z) (classes : list nat) :
  (forall class_,
      In class_ classes ->
      per_class_step criterion logits labels unk_masks n_classes class_
      = let* loss := f class_ in Ok (loss, count class_)) ->
  per_class_loop criterion logits labels unk_masks n_classes classes
  = let* class_loss := for_each f classes in Ok (class_loss, map count classes).
Proof.
  induction classes as [|c classes IH]; intros H; [reflexivity|].
  cbn [per_class_loop for_each map].
  rewrite (H c) by now left.
  rewrite IH by (intros x Hx; apply H; now right).
  destruct (f c) as [loss|e]; cbn [bind]; [|reflexivity].
  destruct (for_each f classes) as [ls|e]; reflexivity.
Qed.

(** On logits of shape (a, b, h, n_classes) with labels and a mask of shape
    (a, b, h, 1), per_class_loss calls the criterion once per class, in
    order, on the rows of the logits, the labels and the mask entries at the
    positions holding that label; nothing but the criterion, or results of
    different shapes, makes it raise, and class [i] is counted with the true
    mask entries at the positions labelled [i]. *)
Lemma per_class_loss_well_shaped :
  forall (criterion : tensor R -> tensor Z -> tensor bool -> result (tensor R))
         (logits : tensor R) (labels : tensor Z) (unk_masks : tensor bool)
         (a b h n_classes : nat),
    shape logits = [a; b; h; n_classes] ->
    shape labels = [a; b; h; 1] ->
    shape unk_masks = [a; b; h; 1] ->
    well_formed logits -> well_formed labels -> well_formed unk_masks ->
    per_class_loss criterion logits labels unk_masks n_classes
    = let* class_loss :=
        for_each (fun class_ =>
                    let idx := tmap (Z.eqb (Z.of_nat class_)) labels in
                    criterion (kept_rows n_classes idx logits)
                      (unsqueeze_last (kept idx labels))
                      (unsqueeze_last (kept idx unk_masks)))
                 (seq 0 n_classes) in
      if same_shapes class_loss
      then Ok (class_loss, map (class_count labels unk_masks) (seq 0 n_classes))
      else Raise (ValueError "setting an array element with a sequence").
Proof.
  intros criterion logits labels unk_masks a b h n_classes Hsl Hsb Hsm Hl Hb Hm.
  unfold per_class_loss.
  rewrite (per_class_loop_for_each criterion logits labels unk_masks n_classes
             (fun class_ =>
                let idx := tmap (Z.eqb (Z.of_nat class_)) labels in
                criterion (kept_rows n_classes idx logits)
                  (unsqueeze_last (kept idx labels))
                  (unsqueeze_last (kept idx unk_masks)))
             (class_count labels unk_masks)).
  - destruct (for_each _ _) as [ls|e]; reflexivity.
  - intros class_ Hin. apply in_seq in Hin.
    apply (per_class_step_well_shaped criterion logits labels unk_masks a b h n_classes
             Hsl Hsb Hsm Hl Hb Hm class_).
    lia.
Qed.

(** Labels 0, 1, 1 over two classes, the second pixel masked out, and a
    criterion that averages the logits it receives. *)
Lemma per_class_loss_well_shaped_witness :
  per_class_loss (fun l _ _ => Ok (tmean l))
    (Tensor [1; 1; 3; 2] [0%R; 1%R; 2%R; 3%R; 4%R; 5%R])
    (Tensor [1; 1; 3; 1] [0%Z; 1%Z; 1%Z])
    (Tensor [1; 1; 3; 1] [true; false; true]) 2
  = Ok ([tmean (Tensor [1; 2] [0%R; 1%R]); tmean (Tensor [2; 2] [2%R; 3%R; 4%R; 5%R])],
        [1%Z; 1%Z]).
Proof.
  rewrite (per_class_loss_well_shaped (fun l _ _ => Ok (tmean l))
             (Tensor [1; 1; 3; 2] [0%R; 1%R; 2%R; 3%R; 4%R; 5%R])
             (Tensor [1; 1; 3; 1] [0%Z; 1%Z; 1%Z])
             (Tensor [1; 1; 3; 1] [true; false; true]) 1 1 3 2
             eq_refl eq_refl eq_refl eq_refl eq_refl eq_refl).
  reflexivity.
Defined.

(** ** The range of the Dice loss *)

Lemma softmax_range (t : tensor R) :
  Forall (fun x => (0 <= x <= 1)%R) (data (softmax t)).
Proof.
  unfold softmax. cbn [data].
  rewrite flat_map_concat_map. apply Forall_concat, Forall_map, Forall_forall.
  intros r _. unfold softmax_row. apply Forall_map, Forall_forall. intros x Hx.
  destruct (Rsum_exp_ge r x Hx) as [Hle Hpos]. pose proof (exp_pos x) as Hx0.
  split.
  - apply Rlt_le, Rdiv_lt_0_compat; assumption.
  - apply (Rmult_le_reg_r (Rsum (map exp r))); [exact Hpos|].
    unfold Rdiv. rewrite Rmult_assoc, Rinv_l by lra. lra.
Qed.

Lemma column_Forall (P : R -> Prop) (j : nat) (t r : tensor R) :
  Forall P (data t) -> P 0%R -> column j t = Ok r ->
  Forall P (data r)
  /\ exists n c, shape t = [n; c] /\ j < c /\ shape r = [n] /\ length (data r) = n.
Proof.
  intros Ht H0 H. unfold column in H.
  destruct (shape t) as [|n [|c [|? ?]]]; try discriminate.
  destruct (Nat.ltb_spec j c) as [Hj|_]; [|discriminate].
  injection H as <-. cbn [data shape]. split.
  - apply Forall_map. eapply Forall_impl; [|apply (chunks_Forall P), Ht].
    intros row Hrow. now apply nth_Forall.
  - exists n, c. rewrite length_map, chunks_length. auto.
Qed.

Lemma class_matrix_Forall (P : R -> Prop) (on off : R) (c : nat) (target : tensor Z)
    (m : tensor R) :
  P on -> P off -> class_matrix on off c target = Ok m ->
  Forall P (data m) /\ shape m = [numel target; c].
Proof.
  intros Hon Hoff H. unfold class_matrix in H.
  destruct (forallb _ _); [|discriminate].
  injection H as <-. cbn [data shape]. split; [|reflexivity].
  rewrite flat_map_concat_map. apply Forall_concat, Forall_map, Forall_forall.
  intros t _. apply Forall_map, Forall_forall. intros j _.
  now destruct (Z.of_nat j =? t)%Z.
Qed.

(** Sums of products of numbers between 0 and 1. *)
Lemma Rsum_products (ps ts : list R) :
  Forall (fun x => (0 <= x <= 1)%R) ps -> Forall (fun x => (0 <= x <= 1)%R) ts ->
  length ps = length ts ->
  (0 <= Rsum (zip_with Rmult ps ts) <= Rsum ps)%R
  /\ (Rsum (zip_with Rmult ps ts) <= Rsum ts)%R.
Proof.
  unfold Rsum. intros Hp. revert ts.
  induction Hp as [|p ps Hp Hps IH]; intros ts Ht Hl; destruct Ht as [|t ts Ht Hts];
    simpl in *; try discriminate; [lra|].
  destruct (IH ts Hts) as [[H1 H2] H3]; [lia|]. nra.
Qed.

Lemma dice_range (inter sp st : R) :
  (0 <= inter <= sp)%R -> (inter <= st)%R ->
  (0 <= 1 - 2 * inter / (sp + st) <= 1)%R.
Proof.
  intros [H0 H1] H2.
  destruct (Req_dec (sp + st) 0) as [E|E].
  - assert (inter = 0)%R as -> by lra. unfold Rdiv. rewrite Rmult_0_r, Rmult_0_l. lra.
  - assert (Hpos : (0 < sp + st)%R) by lra.
    assert (0 <= 2 * inter / (sp + st) <= 1)%R; [|lra].
    split.
    + apply Rmult_le_pos; [lra|]. left. now apply Rinv_0_lt_compat.
    + apply (Rmult_le_reg_r (sp + st)); [exact Hpos|].
      unfold Rdiv. rewrite Rmult_assoc, Rinv_l by exact E. lra.
Qed.

(** Without a mask, on logits that hold one row per target entry and with a
    label smoothing of at most 1, the Dice loss lies between 0 and 1, under
    every reduction. *)
Lemma MaskedDiceLoss_range :
  forall (self : MaskedDiceLoss) (logits : tensor R) (target : tensor Z)
         (losses : tensor R) (c : nat),
    (mdl_label_smoothing self <= 1)%R ->
    last_size logits = Ok c ->
    numel logits = numel target * c ->
    numel target <> 0 ->
    MaskedDiceLoss_forward self logits (GTensor target) = Ok losses ->
    Forall (fun x => (0 <= x <= 1)%R) (data losses).
Proof.
  intros [reduction ls device] logits target losses c Hls Hc Hn Hn0 H.
  unfold MaskedDiceLoss_forward in H.
  cbn [MaskedCrossEntropyLoss_ground_truth bind mdl_label_smoothing mdl_reduction] in *.
  rewrite Hc in H. cbn [bind] in H.
  unfold reshape_rows in H.
  destruct (Nat.eqb_spec c 0) as [E|Hc0]; [discriminate|].
  rewrite Hn, Nat.Div0.mod_mul, Nat.div_mul in H by exact Hc0.
  cbn [Nat.eqb bind last_size shape rev app] in H.
  set (L := Tensor [numel target; c] (data logits)) in *.
  set (T := reshape_flat target) in *.
  match type of H with
  | bind ?x _ = _ => destruct x as [m|e] eqn:Em; cbn [bind] in H; [|discriminate]
  end.
  assert (Hmr : Forall (fun x => (0 <= x <= 1)%R) (data m) /\ shape m = [numel T; c]).
  { destruct (Rlt_dec 0 ls) as [Hpos|_].
    - destruct (Nat.eqb_spec c 1) as [E|Hc1]; [discriminate|].
      assert (Hcr : (2 <= INR c)%R) by (apply (le_INR 2); lia).
      revert Em. apply class_matrix_Forall; [lra|].
      split.
      + apply Rmult_le_pos; [lra|]. left. apply Rinv_0_lt_compat. lra.
      + apply (Rmult_le_reg_r (INR c - 1)); [lra|].
        unfold Rdiv. rewrite Rmult_assoc, Rinv_l by lra. lra.
    - revert Em. apply class_matrix_Forall; lra. }
  destruct Hmr as [Hmr Hms].
  destruct (column 1 (softmax L)) as [p1|e] eqn:Ep; cbn [bind] in H; [|discriminate].
  destruct (column 1 m) as [t1|e] eqn:Et; cbn [bind] in H; [|discriminate].
  apply (column_Forall (fun x => (0 <= x <= 1)%R)) in Ep; [|apply softmax_range|lra].
  apply (column_Forall (fun x => (0 <= x <= 1)%R)) in Et; [|exact Hmr|lra].
  destruct Ep as [Hp (n1 & c1 & Hs1 & _ & Hps & Hpl)].
  destruct Et as [Ht (n2 & c2 & Hs2 & _ & Hts & Htl)].
  cbn [softmax L shape] in Hs1. injection Hs1 as <- <-.
  rewrite Hms in Hs2. injection Hs2 as <- <-.
  assert (HT : numel T = numel target) by reflexivity.
  rewrite HT in *.
  rewrite (tensor_op_same_shape Rmult p1 t1) in H.
  2:{ now rewrite Hps, Hts. }
  2:{ unfold well_formed. rewrite Hps, Hpl. cbn [numel_of_shape fold_right]. lia. }
  2:{ unfold well_formed. rewrite Hts, Htl. cbn [numel_of_shape fold_right]. lia. }
  cbn [bind data] in H.
  destruct (Rsum_products (data p1) (data t1) Hp Ht) as [Hi1 Hi2]; [lia|].
  pose proof (dice_range _ _ _ Hi1 Hi2) as Hrange.
  unfold reduce in H.
  destruct reduction as [r|].
  - destruct (String.eqb r "mean").
    + injection H as <-. unfold tmean, scalar, numel. cbn [data length INR].
      constructor; [|constructor]. unfold Rsum. cbn [fold_right].
      rewrite Rdiv_1_r, Rplus_0_r. exact Hrange.
    + destruct (String.eqb r "sum"); [|discriminate].
      injection H as <-. unfold tsum, scalar, Rsum. cbn [data fold_right].
      constructor; [|constructor]. rewrite Rplus_0_r. exact Hrange.
  - injection H as <-. constructor; [exact Hrange|constructor].
Qed.

(** Two rows of two classes with the targets 1 and 0. *)
Lemma MaskedDiceLoss_range_witness :
  exists losses,
    MaskedDiceLoss_forward
      {| mdl_reduction := None; mdl_label_smoothing := 0; mdl_device := "cpu" |}
      (Tensor [2; 2] [0%R; 1%R; 2%R; 0%R]) (GTensor (Tensor [2] [1%Z; 0%Z]))
    = Ok losses
    /\ Forall (fun x => (0 <= x <= 1)%R) (data losses).
Proof.
  destruct (MaskedDiceLoss_forward
              {| mdl_reduction := None; mdl_label_smoothing := 0; mdl_device := "cpu" |}
              (Tensor [2; 2] [0%R; 1%R; 2%R; 0%R]) (GTensor (Tensor [2] [1%Z; 0%Z])))
    as [losses|e] eqn:H.
  - exists losses. split; [reflexivity|].
    apply (MaskedDiceLoss_range
             {| mdl_reduction := None; mdl_label_smoothing := 0; mdl_device := "cpu" |}
             (Tensor [2; 2] [0%R; 1%R; 2%R; 0%R]) (Tensor [2] [1%Z; 0%Z]) losses 2).
    + cbn. lra.
    + reflexivity.
    + reflexivity.
    + discriminate.
    + exact H.
  - exfalso. unfold MaskedDiceLoss_forward in H.
    cbn -[Rlt_dec softmax] in H.
    destruct (Rlt_dec 0 0); cbn in H; discriminate.
Defined.

(** ** The range of the Tversky loss *)

Lemma Rsum_nonnegative (l : list R) :
  Forall (fun x => (0 <= x)%R) l -> (0 <= Rsum l)%R.
Proof.
  unfold Rsum. induction 1 as [|x l Hx H IH]; simpl; lra.
Qed.

Lemma Rpow_range (x y : R) :
  (0 <= x <= 1)%R -> (0 <= y)%R -> (0 <= Rpow x y <= 1)%R.
Proof.
  intros [Hx0 Hx1] Hy. split; [apply Rpow_nonnegative; exact Hx0|].
  unfold Rpow. destruct (Req_dec_T y 0); [lra|].
  destruct (Req_dec_T x 0); [lra|].
  destruct (Rlt_dec 0 x); [|lra].
  unfold Rpower. rewrite <- exp_0.
  assert (Hln : (ln x <= 0)%R).
  { rewrite <- ln_1. destruct Hx1 as [Hlt|E]; [|subst x; lra].
    left. apply ln_increasing; lra. }
  assert (Hprod : (y * ln x <= 0)%R) by nra.
  destruct Hprod as [Hlt|E]; [left; now apply exp_increasing|rewrite E; lra].
Qed.

(** For binary targets and parameters that are not negative, with a positive
    [smooth], the focal Tversky loss lies between 0 and 1 under each
    reduction. *)
Lemma FocalTverskyLoss_range :
  forall (self : FocalTverskyLoss) (a : R) (inputs : tensor R) (targets : tensor Z)
         (losses : tensor R),
    ftl_alpha self = AlphaNumber a ->
    (0 <= a)%R -> (0 <= ftl_beta self)%R -> (0 <= ftl_gamma self)%R ->
    (0 < ftl_smooth self)%R ->
    Forall (fun t => t = 0%Z \/ t = 1%Z) (data targets) ->
    FocalTverskyLoss_forward self inputs targets = Ok losses ->
    Forall (fun x => (0 <= x <= 1)%R) (data losses).
Proof.
  intros [smooth alpha beta gamma reduction] a inputs targets losses Ha Ha0 Hb Hg Hs Ht H.
  cbn [ftl_alpha ftl_beta ftl_gamma ftl_smooth] in *. subst alpha.
  unfold FocalTverskyLoss_forward in H.
  cbn [ftl_alpha ftl_beta ftl_gamma ftl_smooth ftl_reduction] in H.
  destruct (channels_last_rows inputs) as [rows_|e]; cbn [bind] in H; [|discriminate].
  unfold softmax_dim1 in H.
  destruct (dim rows_ <? 2); cbn [bind] in H; [discriminate|].
  set (T := tmap IZR (reshape_flat targets)) in *.
  assert (HT : Forall (fun x => (0 <= x <= 1)%R) (data T)).
  { cbn [T tmap reshape_flat data]. apply Forall_map.
    revert Ht. apply Forall_impl. intros t [E|E]; subst t; simpl; lra. }
  destruct (column 1 (softmax rows_)) as [p1|e] eqn:Ep1; cbn [bind] in H; [|discriminate].
  apply (column_Forall (fun x => (0 <= x <= 1)%R)) in Ep1; [|apply softmax_range|lra].
  destruct Ep1 as [Hp1 _].
  destruct (tensor_op Rmult p1 T) as [tp|e] eqn:Etp; cbn [bind] in H; [|discriminate].
  destruct (tensor_op Rmult (tmap (fun t => (1 - t)%R) T) p1) as [fp|e] eqn:Efp;
    cbn [bind] in H; [|discriminate].
  destruct (column 0 (softmax rows_)) as [p0|e] eqn:Ep0; cbn [bind] in H; [|discriminate].
  apply (column_Forall (fun x => (0 <= x <= 1)%R)) in Ep0; [|apply softmax_range|lra].
  destruct Ep0 as [Hp0 _].
  destruct (tensor_op Rmult T p0) as [fn|e] eqn:Efn; cbn [bind] in H; [|discriminate].
  assert (Htp : (0 <= Rsum (data tp))%R).
  { apply Rsum_nonnegative. revert Etp.
    apply (tensor_op_Forall (fun x => (0 <= x <= 1)%R) (fun x => (0 <= x <= 1)%R));
      [|exact Hp1|exact HT].
    intros x y Hx Hy. nra. }
  assert (Hfp : (0 <= Rsum (data fp))%R).
  { apply Rsum_nonnegative. revert Efp.
    apply (tensor_op_Forall (fun x => (0 <= x <= 1)%R) (fun x => (0 <= x <= 1)%R));
      [| |exact Hp1].
    - intros x y Hx Hy. nra.
    - cbn [tmap data]. apply Forall_map. revert HT. apply Forall_impl. intros x Hx. lra. }
  assert (Hfn : (0 <= Rsum (data fn))%R).
  { apply Rsum_nonnegative. revert Efn.
    apply (tensor_op_Forall (fun x => (0 <= x <= 1)%R) (fun x => (0 <= x <= 1)%R));
      [|exact HT|exact Hp0].
    intros x y Hx Hy. nra. }
  set (TP := Rsum (data tp)) in *. set (FP := Rsum (data fp)) in *.
  set (FN := Rsum (data fn)) in *.
  assert (Hden : (0 < TP + a * FP + beta * FN + smooth)%R) by nra.
  assert (Hrange : (0 <= 1 - (TP + smooth) / (TP + a * FP + beta * FN + smooth) <= 1)%R).
  { assert (0 <= (TP + smooth) / (TP + a * FP + beta * FN + smooth) <= 1)%R; [|lra].
    split.
    - apply Rmult_le_pos; [lra|]. left. now apply Rinv_0_lt_compat.
    - apply (Rmult_le_reg_r (TP + a * FP + beta * FN + smooth)); [exact Hden|].
      unfold Rdiv. rewrite Rmult_assoc, Rinv_l by lra. nra. }
  pose proof (Rpow_range _ gamma Hrange Hg) as Hloss.
  unfold reduce in H.
  destruct reduction as [r|].
  - destruct (String.eqb r "mean").
    + injection H as <-. unfold tmean, scalar, numel. cbn [data length INR].
      constructor; [|constructor]. unfold Rsum. cbn [fold_right].
      rewrite Rdiv_1_r, Rplus_0_r. exact Hloss.
    + destruct (String.eqb r "sum"); [|discriminate].
      injection H as <-. unfold tsum, scalar, Rsum. cbn [data fold_right].
      constructor; [|constructor]. rewrite Rplus_0_r. exact Hloss.
  - injection H as <-. constructor; [exact Hloss|constructor].
Qed.

(** Two rows of two classes with the targets 1 and 0, and the constructor's
    default parameters. *)
Lemma FocalTverskyLoss_range_witness :
  exists losses,
    FocalTverskyLoss_forward
      {| ftl_smooth := 1; ftl_alpha := AlphaNumber (1 / 2); ftl_beta := 1 / 2;
         ftl_gamma := 1; ftl_reduction := None |}
      (Tensor [2; 2] [0%R; 1%R; 2%R; 0%R]) (Tensor [2] [1%Z; 0%Z])
    = Ok losses
    /\ Forall (fun x => (0 <= x <= 1)%R) (data losses).
Proof.
  eexists. split; [reflexivity|].
  apply (FocalTverskyLoss_range
           {| ftl_smooth := 1; ftl_alpha := AlphaNumber (1 / 2); ftl_beta := 1 / 2;
              ftl_gamma := 1; ftl_reduction := None |}
           (1 / 2) (Tensor [2; 2] [0%R; 1%R; 2%R; 0%R]) (Tensor [2] [1%Z; 0%Z])).
  - reflexivity.
  - lra.
  - cbn. lra.
  - cbn. lra.
  - cbn. lra.
  - constructor; [right; reflexivity|constructor; [left; reflexivity|constructor]].
  - reflexivity.
Defined.

(** ** The warm-up of LinearLRScheduler *)

(** During the warm-up, at the steps [0 <= t < warmup_t], [_get_lr] returns
    for every base value a learning rate between [warmup_lr_init] and that
    value: the rates move linearly from the one to the other. *)
Lemma LinearLRScheduler_warmup_range :
  forall (base_values : list R) (t_initial : Z) (lr_min_rate : R) (warmup_t : Z)
         (warmup_lr_init : R) (t_in_epochs : bool) (t : Z),
    (0 <= t < warmup_t)%Z ->
    exists lrs,
      LinearLRScheduler_get_lr
        (LinearLRScheduler_init base_values t_initial lr_min_rate warmup_t
           warmup_lr_init t_in_epochs) t = Ok lrs
      /\ Forall2 (fun v lr =>
                    ((warmup_lr_init <= v)%R -> (warmup_lr_init <= lr <= v)%R)
                    /\ ((v <= warmup_lr_init)%R -> (v <= lr <= warmup_lr_init)%R))
           base_values lrs.
Proof.
  intros base_values t_initial lr_min_rate warmup_t warmup_lr_init t_in_epochs t Ht.
  unfold LinearLRScheduler_get_lr, LinearLRScheduler_init.
  cbn [lin_warmup_t lin_warmup_steps lin_warmup_lr_init].
  assert (E1 : (t <? warmup_t)%Z = true) by (apply Z.ltb_lt; lia).
  assert (E2 : (warmup_t =? 0)%Z = false) by (apply Z.eqb_neq; lia).
  rewrite E1, E2. eexists. split; [reflexivity|].
  rewrite map_map.
  assert (Hw : (0 < IZR warmup_t)%R) by (apply IZR_lt; lia).
  assert (Ht0 : (0 <= IZR t)%R) by (apply IZR_le; lia).
  assert (Ht1 : (IZR t <= IZR warmup_t)%R) by (apply IZR_le; lia).
  assert (Hq : (0 <= IZR t / IZR warmup_t <= 1)%R).
  { split.
    - apply Rmult_le_pos; [exact Ht0|]. left. now apply Rinv_0_lt_compat.
    - apply (Rmult_le_reg_r (IZR warmup_t)); [exact Hw|].
      unfold Rdiv. rewrite Rmult_assoc, Rinv_l by lra. lra. }
  induction base_values as [|v vs IH]; simpl; constructor; [|exact IH].
  replace (warmup_lr_init + IZR t * ((v - warmup_lr_init) / IZR warmup_t))%R
    with (warmup_lr_init + (IZR t / IZR warmup_t) * (v - warmup_lr_init))%R
    by (field; lra).
  split; intros Hv; split; nra.
Qed.

Lemma LinearLRScheduler_warmup_range_witness :
  exists lrs,
    LinearLRScheduler_get_lr (LinearLRScheduler_init [1%R; 2%R] 10 (1 / 10) 4 0 true) 1
    = Ok lrs
    /\ Forall2 (fun v lr =>
                  ((0 <= v)%R -> (0 <= lr <= v)%R) /\ ((v <= 0)%R -> (v <= lr <= 0)%R))
         [1%R; 2%R] lrs.
Proof.
  apply (LinearLRScheduler_warmup_range [1%R; 2%R] 10 (1 / 10) 4 0 true 1). lia.
Defined.

(** ** The class axis of FocalLoss and FocalTverskyLoss *)

Lemma nth_chunks {A} (n k : nat) :
  forall (d : list A) (i : nat),
    i < n -> nth i (chunks n k d) [] = firstn k (skipn (i * k) d).
Proof.
  induction n as [|n IH]; intros d i Hi; [lia|].
  destruct i as [|i]; simpl; [reflexivity|].
  rewrite IH by lia. rewrite skipn_skipn. f_equal. f_equal. lia.
Qed.

Lemma flat_map_blocks_length {A B} (f : A -> list B) (k : nat) (l : list A) :
  (forall x, In x l -> length (f x) = k) -> length (flat_map f l) = length l * k.
Proof.
  induction l as [|x l IH]; intros H; simpl; [reflexivity|].
  rewrite length_app, (H x) by (now left).
  rewrite IH by (intros y Hy; apply H; now right). reflexivity.
Qed.

Lemma nth_flat_map_blocks {A B} (f : A -> list B) (k : nat) (dx : A) (d : B) :
  forall (l : list A) (i j : nat),
    (forall x, In x l -> length (f x) = k) ->
    i < length l -> j < k ->
    nth (i * k + j) (flat_map f l) d = nth j (f (nth i l dx)) d.
Proof.
  induction l as [|x l IH]; intros i j H Hi Hj; simpl in Hi; [lia|].
  cbn [flat_map].
  assert (Hx : length (f x) = k) by (apply H; now left).
  destruct i as [|i].
  - cbn [Nat.mul Nat.add nth]. apply app_nth1. lia.
  - rewrite app_nth2 by (rewrite Hx; simpl; lia).
    replace (S i * k + j - length (f x)) with (i * k + j) by (rewrite Hx; simpl; lia).
    cbn [nth]. apply IH; [|lia|exact Hj].
    intros y Hy. apply H. now right.
Qed.

Lemma firstn_1_skipn {A} (j : nat) (row : list A) (d : A) :
  j < length row -> firstn 1 (skipn j row) = [nth j row d].
Proof.
  revert row; induction j as [|j IH]; intros [|x row] H; simpl in *; try lia.
  - reflexivity.
  - apply IH. lia.
Qed.

(** An [r] x [c] block read column by column: entry [i] of column [j]. *)
Lemma nth_transpose_block {A} (r c : nat) (d : list A) (dflt : A) (i j : nat) :
  length d = r * c -> i < r -> j < c ->
  nth (j * r + i) (transpose_block r c d) dflt = nth (i * c + j) d dflt.
Proof.
  intros Hd Hi Hj. unfold transpose_block.
  assert (Hrow : forall row, In row (chunks r c d) -> length row = c).
  { apply Forall_forall, chunks_Forall_length, Hd. }
  assert (Hcol : forall j', j' < c ->
                   forall row, In row (chunks r c d) ->
                     length (firstn 1 (skipn j' row)) = 1).
  { intros j' Hj' row Hin. rewrite (firstn_1_skipn j' row dflt); [reflexivity|].
    rewrite (Hrow row Hin). exact Hj'. }
  rewrite (nth_flat_map_blocks _ r 0 dflt (seq 0 c) j i).
  - rewrite seq_nth by exact Hj. cbn [Nat.add].
    replace i with (i * 1 + 0) at 1 by lia.
    rewrite (nth_flat_map_blocks _ 1 [] dflt (chunks r c d) i 0);
      [|apply Hcol; exact Hj|rewrite chunks_length; exact Hi|lia].
    rewrite nth_chunks by exact Hi.
    rewrite (firstn_1_skipn j _ dflt).
    + cbn [nth]. rewrite nth_firstn.
      destruct (Nat.ltb_spec j c) as [_|E]; [|lia].
      rewrite nth_skipn. reflexivity.
    + rewrite length_firstn, length_skipn. nia.
  - intros j' Hin. apply in_seq in Hin.
    rewrite (flat_map_blocks_length _ 1), chunks_length; [lia|].
    apply Hcol. lia.
  - rewrite length_seq. exact Hj.
  - exact Hi.
Qed.

Lemma transpose_block_length {A} (r c : nat) (d : list A) :
  length d = r * c -> length (transpose_block r c d) = c * r.
Proof.
  intros Hd. unfold transpose_block.
  rewrite (flat_map_blocks_length _ r), length_seq; [reflexivity|].
  intros j Hin. apply in_seq in Hin.
  rewrite (flat_map_blocks_length _ 1), chunks_length; [lia|].
  intros row Hrow.
  pose proof (chunks_Forall_length r c d Hd) as HF. rewrite Forall_forall in HF.
  rewrite length_firstn, length_skipn, (HF row Hrow). lia.
Qed.

(** Lines 371-374 and 414-417 on a non-empty input of shape (N, C, ...) with
    more than two dimensions: the result has one row of [C] entries for each
    of the [N * P] positions ([P] the product of the sizes after the second),
    and entry [c] of the row of position [p] of sample [n] is the input's
    entry at [(n, c, p)]: the classes are read along axis 1. *)
Lemma channels_last_rows_layout :
  forall (input : tensor R) (N C P : nat) (rest : list nat),
    shape input = N :: C :: rest -> rest <> [] -> numel_of_shape rest = P ->
    well_formed input -> N * C <> 0 ->
    exists out,
      channels_last_rows input = Ok (Tensor [N * P; C] out)
      /\ length out = N * P * C
      /\ forall n p c,
          n < N -> p < P -> c < C ->
          nth ((n * P + p) * C + c) out 0%R = nth ((n * C + c) * P + p) (data input) 0%R.
Proof.
  intros [s d] N C P rest Hs Hrest HP Hwf HNC. cbn [shape data] in *. subst s.
  unfold well_formed in Hwf. cbn [shape data numel_of_shape fold_right] in Hwf.
  fold (numel_of_shape rest) in Hwf. rewrite HP in Hwf.
  assert (HC : C <> 0) by lia.
  unfold channels_last_rows, dim. cbn [shape length].
  destruct rest as [|r0 rest]; [contradiction|]. cbn [length Nat.ltb Nat.leb].
  unfold view3, numel. cbn [shape data].
  destruct (Nat.eqb_spec (N * C) 0) as [E|_]; [contradiction|].
  replace (length d) with (P * (N * C)) by lia.
  rewrite Nat.Div0.mod_mul, Nat.div_mul by exact HNC.
  cbn [Nat.eqb bind transpose12 shape data size_at nth_error].
  set (out := flat_map (transpose_block C P) (chunks N (C * P) d)).
  assert (Hblocks : forall x, In x (chunks N (C * P) d) ->
                      length (transpose_block C P x) = P * C).
  { intros x Hx. apply transpose_block_length.
    assert (HF : Forall (fun c => length c = C * P) (chunks N (C * P) d))
      by (apply chunks_Forall_length; lia).
    rewrite Forall_forall in HF. now apply HF. }
  assert (Hout : length out = N * P * C).
  { unfold out. rewrite (flat_map_blocks_length _ (P * C)), chunks_length by exact Hblocks.
    lia. }
  rewrite (reshape_rows_exact _ out (N * P) C HC Hout).
  exists out. split; [reflexivity|]. split; [exact Hout|].
  intros n p c Hn Hp Hc. unfold out.
  replace ((n * P + p) * C + c) with (n * (P * C) + (p * C + c)) by lia.
  rewrite (nth_flat_map_blocks _ (P * C) [] 0%R (chunks N (C * P) d) n (p * C + c));
    [|exact Hblocks|rewrite chunks_length; exact Hn|nia].
  rewrite nth_chunks by exact Hn.
  rewrite nth_transpose_block; [|rewrite length_firstn, length_skipn; nia|exact Hc|exact Hp].
  rewrite nth_firstn.
  destruct (Nat.ltb_spec (c * P + p) (C * P)) as [_|E]; [|nia].
  rewrite nth_skipn. f_equal. lia.
Qed.

(** One sample of two classes on three positions. *)
Lemma channels_last_rows_layout_witness :
  exists out,
    channels_last_rows (Tensor [1; 2; 3; 1] [0%R; 1%R; 2%R; 3%R; 4%R; 5%R])
    = Ok (Tensor [1 * 3; 2] out)
    /\ length out = 1 * 3 * 2
    /\ forall n p c,
        n < 1 -> p < 3 -> c < 2 ->
        nth ((n * 3 + p) * 2 + c) out 0%R
        = nth ((n * 2 + c) * 3 + p)
            (data (Tensor [1; 2; 3; 1] [0%R; 1%R; 2%R; 3%R; 4%R; 5%R])) 0%R.
Proof.
  apply (channels_last_rows_layout (Tensor [1; 2; 3; 1] [0%R; 1%R; 2%R; 3%R; 4%R; 5%R])
           1 2 3 [3; 1]).
  - reflexivity.
  - discriminate.
  - reflexivity.
  - reflexivity.
  - discriminate.
Defined.

(** ** Labels out of range *)

Lemma forallb_Exists_false {A} (p : A -> bool) (l : list A) :
  Exists (fun x => p x = false) l -> forallb p l = false.
Proof.
  induction 1 as [x l Hx|x l H IH]; simpl.
  - now rewrite Hx.
  - rewrite IH. apply andb_false_r.
Qed.

Lemma gather_rows_out_of_range (t : tensor R) (index : tensor Z) (n c : nat) :
  shape t = [n; c] ->
  Exists (fun i => index_in_range c i = false) (data index) ->
  ~ returns (gather_rows t index).
Proof.
  intros Hs Hex [g H]. unfold gather_rows in H.
  destruct (Nat.eqb_spec (numel index) 0) as [E|_].
  - unfold numel in E. destruct (data index); [inversion Hex|discriminate].
  - rewrite Hs in H.
    destruct (shape index) as [|m [|k [|? ?]]]; try discriminate.
    destruct (m <=? n); [|discriminate].
    rewrite (forallb_Exists_false _ _ Hex) in H. discriminate.
Qed.

(** A label outside [0, C) is an error, never ignored: on logits of shape
    (n, C), MaskedCrossEntropyLoss called without a mask and FocalLoss do not
    return a loss when some target entry is negative or at least [C]. *)
Lemma label_out_of_range :
  forall (mce : MaskedCrossEntropyLoss) (fl : FocalLoss)
         (logits : tensor R) (target : tensor Z) (n c : nat),
    shape logits = [n; c] ->
    Exists (fun t => ~ (0 <= t < Z.of_nat c)%Z) (data target) ->
    ~ returns (MaskedCrossEntropyLoss_forward mce logits (GTensor target))
    /\ ~ returns (FocalLoss_forward fl logits target).
Proof.
  intros mce fl logits target n c Hs Hex.
  assert (Hex' : Exists (fun i => index_in_range c i = false) (data target)).
  { revert Hex. apply Exists_impl. intros t Ht. unfold index_in_range.
    destruct (Z.leb_spec 0 t), (Z.ltb_spec t (Z.of_nat c)); try reflexivity.
    exfalso. apply Ht. lia. }
  split; intros [v H].
  - unfold MaskedCrossEntropyLoss_forward in H.
    cbn [MaskedCrossEntropyLoss_ground_truth bind] in H.
    unfold last_size in H. rewrite Hs in H. cbn [rev app bind] in H.
    destruct (reshape_rows logits c) as [lf|e] eqn:El; cbn [bind] in H; [|discriminate].
    rewrite reshape_rows_1 in H. cbn [bind] in H.
    destruct (gather_rows (log_softmax lf) _) as [g|e] eqn:Eg; cbn [bind] in H;
      [|discriminate].
    unfold reshape_rows in El.
    destruct (c =? 0); [discriminate|].
    destruct (numel logits mod c =? 0); [|discriminate].
    injection El as <-.
    refine (gather_rows_out_of_range _ _ (numel logits / c) c _ _ (ex_intro _ g Eg));
      [reflexivity|exact Hex'].
  - unfold FocalLoss_forward, channels_last_rows, dim in H.
    rewrite Hs in H. cbn [length Nat.ltb Nat.leb bind] in H.
    rewrite reshape_rows_1 in H. cbn [bind] in H.
    unfold log_softmax_dim1, dim in H. rewrite Hs in H.
    cbn [length Nat.ltb Nat.leb bind] in H.
    destruct (gather_rows (log_softmax logits) _) as [g|e] eqn:Eg; cbn [bind] in H;
      [|discriminate].
    refine (gather_rows_out_of_range _ _ n c _ _ (ex_intro _ g Eg));
      [exact Hs|exact Hex'].
Qed.

Lemma label_out_of_range_witness :
  ~ returns (MaskedCrossEntropyLoss_forward {| mce_mean := true |}
               (Tensor [1; 2] [0%R; 1%R]) (GTensor (Tensor [1] [(-1)%Z])))
  /\ ~ returns (FocalLoss_forward (FocalLoss_init 2 None None)
                  (Tensor [1; 2] [0%R; 1%R]) (Tensor [1] [(-1)%Z])).
Proof.
  apply (label_out_of_range {| mce_mean := true |} (FocalLoss_init 2 None None)
           (Tensor [1; 2] [0%R; 1%R]) (Tensor [1] [(-1)%Z]) 1 2).
  - reflexivity.
  - left. simpl. lia.
Defined.

(** A focal functor built with a number for alpha holds the two class
    weights [alpha, 1 - alpha]: FocalLoss then returns no loss for a target
    that names a class other than 0 and 1. *)
Lemma FocalLoss_scalar_alpha_is_binary :
  forall (gamma a : R) (reduction : reduction_t) (input : tensor R) (target : tensor Z),
    Exists (fun t => t <> 0%Z /\ t <> 1%Z) (data target) ->
    ~ returns (FocalLoss_forward (FocalLoss_init gamma (Some (AlphaNumber a)) reduction)
                 input target).
Proof.
  intros gamma a reduction input target Hex [v H].
  unfold FocalLoss_forward, FocalLoss_init, init_alpha in H.
  cbn [fl_gamma fl_alpha fl_reduction] in H.
  destruct (channels_last_rows input) as [rows_|e]; cbn [bind] in H; [|discriminate].
  rewrite reshape_rows_1 in H. cbn [bind] in H.
  destruct (log_softmax_dim1 rows_) as [lp|e]; cbn [bind] in H; [|discriminate].
  destruct (gather_rows lp _) as [g|e]; cbn [bind] in H; [|discriminate].
  unfold gather_vec, reshape_flat, numel in H. cbn [data length] in H.
  destruct (Nat.eqb_spec (length (data target)) 0) as [E|_].
  - destruct (data target); [inversion Hex|discriminate].
  - rewrite forallb_Exists_false in H; [discriminate|].
    revert Hex. apply Exists_impl. intros t [H0 H1]. unfold index_in_range.
    cbn [length].
    destruct (Z.leb_spec 0 t), (Z.ltb_spec t (Z.of_nat 2)); try reflexivity. lia.
Qed.

Lemma FocalLoss_scalar_alpha_is_binary_witness :
  ~ returns (FocalLoss_forward (FocalLoss_init 2 (Some (AlphaNumber (1 / 4))) None)
               (Tensor [1; 3] [0%R; 1%R; 2%R]) (Tensor [1] [2%Z])).
Proof.
  apply (FocalLoss_scalar_alpha_is_binary 2 (1 / 4) None
           (Tensor [1; 3] [0%R; 1%R; 2%R]) (Tensor [1] [2%Z])).
  left. simpl. split; discriminate.
Defined.

(** ** The Tversky loss and the Dice loss *)

Lemma chunks_flat_map {A B} (f : A -> list B) (k : nat) (l : list A) :
  (forall x, In x l -> length (f x) = k) ->
  chunks (length l) k (flat_map f l) = map f l.
Proof.
  induction l as [|x l IH]; intros H; [reflexivity|].
  cbn [length chunks flat_map map].
  assert (Hx : length (f x) = k) by (apply H; now left).
  rewrite <- Hx at 1 3.
  rewrite firstn_app, Nat.sub_diag, firstn_all, firstn_O, app_nil_r.
  rewrite skipn_app, Nat.sub_diag, skipn_all, skipn_O, app_nil_l.
  f_equal. apply IH. intros y Hy. apply H. now right.
Qed.

Lemma Rpow_1 (x : R) : (0 <= x)%R -> Rpow x 1 = x.
Proof.
  intros Hx. unfold Rpow.
  destruct (Req_dec_T 1 0) as [E|_]; [lra|].
  destruct (Req_dec_T x 0) as [E|E]; [now rewrite E|].
  destruct (Rlt_dec 0 x); [|lra].
  apply Rpower_1. lra.
Qed.

Lemma Rsum_false_positives (ps ts : list R) :
  length ps = length ts ->
  Rsum (zip_with Rmult (map (fun t => (1 - t)%R) ts) ps)
  = (Rsum ps - Rsum (zip_with Rmult ps ts))%R.
Proof.
  unfold Rsum. revert ts; induction ps as [|p ps IH]; intros [|t ts] H; simpl in *;
    try discriminate; [lra|].
  rewrite IH by lia. lra.
Qed.

Lemma Rsum_false_negatives (p0s p1s ts : list R) :
  Forall2 (fun p0 p1 => (p0 + p1 = 1)%R) p0s p1s ->
  length ts = length p1s ->
  Rsum (zip_with Rmult ts p0s) = (Rsum ts - Rsum (zip_with Rmult p1s ts))%R.
Proof.
  unfold Rsum. intros H. revert ts.
  induction H as [|p0 p1 p0s p1s Hp H IH]; intros [|t ts] Hl; simpl in *;
    try discriminate; [lra|].
  rewrite IH by lia. nra.
Qed.

Lemma softmax_row_two (r : list R) :
  length r = 2 ->
  (nth 0 (softmax_row r) 0 + nth 1 (softmax_row r) 0 = 1)%R
  /\ (0 < nth 1 (softmax_row r) 0)%R.
Proof.
  destruct r as [|x [|y [|? ?]]]; try discriminate. intros _.
  unfold softmax_row, Rsum. cbn [map fold_right nth].
  pose proof (exp_pos x) as Hx. pose proof (exp_pos y) as Hy.
  split; [field; lra|apply Rdiv_lt_0_compat; lra].
Qed.

(** The two columns of the softmax of rows of two logits. *)
Lemma softmax_two_classes (rs : list (list R)) :
  Forall (fun r => length r = 2) rs ->
  Forall2 (fun p0 p1 => (p0 + p1 = 1)%R)
    (map (fun r => nth 0 (softmax_row r) 0%R) rs)
    (map (fun r => nth 1 (softmax_row r) 0%R) rs)
  /\ Forall (fun p => (0 < p)%R) (map (fun r => nth 1 (softmax_row r) 0%R) rs).
Proof.
  induction 1 as [|r rs Hr H [IH1 IH2]]; cbn [map]; [split; constructor|].
  destruct (softmax_row_two r Hr) as [H1 H2].
  split; constructor; assumption.
Qed.

Lemma Rsum_positive (l : list R) :
  l <> [] -> Forall (fun p => (0 < p)%R) l -> (0 < Rsum l)%R.
Proof.
  unfold Rsum. intros Hne H. destruct H as [|x l Hx H]; [contradiction|].
  simpl. pose proof (Rsum_nonnegative l) as Hl. unfold Rsum in Hl.
  assert (0 <= fold_right Rplus 0 l)%R; [|lra].
  apply Hl. revert H. apply Forall_impl. intros; lra.
Qed.

(** On [n >= 1] rows of two logits with binary targets, FocalTverskyLoss with
    alpha = beta = 0.5, gamma = 1 and no smoothing term ([smooth = 0]) is the
    Dice loss MaskedDiceLoss computes without mask and label smoothing. *)
Lemma FocalTverskyLoss_is_dice :
  forall (reduction : reduction_t) (device : string)
         (logits : tensor R) (target : tensor Z) (n : nat),
    shape logits = [n; 2] -> well_formed logits -> n <> 0 ->
    numel target = n ->
    Forall (fun t => t = 0%Z \/ t = 1%Z) (data target) ->
    reduction = None \/ reduction = Some "mean"%string \/ reduction = Some "sum"%string ->
    FocalTverskyLoss_forward
      {| ftl_smooth := 0; ftl_alpha := AlphaNumber (1 / 2); ftl_beta := 1 / 2;
         ftl_gamma := 1; ftl_reduction := reduction |} logits target
    = MaskedDiceLoss_forward
        {| mdl_reduction := reduction; mdl_label_smoothing := 0; mdl_device := device |}
        logits (GTensor target).
Proof.
  intros reduction device [s d] [st dt] n Hs Hwf Hn Ht Hbin Hred.
  unfold well_formed, numel in *. cbn [shape data] in *. subst s.
  cbn [numel_of_shape fold_right] in Hwf.
  unfold FocalTverskyLoss_forward, MaskedDiceLoss_forward.
  cbn [ftl_smooth ftl_alpha ftl_beta ftl_gamma ftl_reduction mdl_reduction
         mdl_label_smoothing MaskedCrossEntropyLoss_ground_truth bind].
  unfold channels_last_rows, softmax_dim1, dim.
  cbn [shape length Nat.ltb Nat.leb bind last_size rev app].
  rewrite (reshape_rows_exact [n; 2] d n 2) by lia. cbn [bind last_size shape rev app].
  destruct (Rlt_dec 0 0) as [Hlt|_]; [lra|].
  (* the columns of the probabilities *)
  set (rs := chunks n 2 d).
  assert (Hrs : Forall (fun r => length r = 2) rs) by (apply chunks_Forall_length; lia).
  assert (Hrl : length rs = n) by apply chunks_length.
  assert (Hrows : chunks n 2 (flat_map softmax_row rs) = map softmax_row rs).
  { rewrite <- Hrl at 1. apply chunks_flat_map.
    intros r Hr. unfold softmax_row. rewrite length_map.
    rewrite Forall_forall in Hrs. now apply Hrs. }
  assert (Hsoft : softmax (Tensor [n; 2] d) = Tensor [n; 2] (flat_map softmax_row rs)).
  { unfold softmax, rows. cbn [shape data removelast last numel_of_shape fold_right].
    rewrite Nat.mul_1_r. reflexivity. }
  rewrite Hsoft. unfold column. cbn [shape data Nat.ltb Nat.leb bind].
  rewrite Hrows, !map_map.
  set (P1 := map (fun r => nth 1 (softmax_row r) 0%R) rs).
  set (P0 := map (fun r => nth 0 (softmax_row r) 0%R) rs).
  destruct (softmax_two_classes rs Hrs) as [H01 Hpos]. fold P0 P1 in H01, Hpos.
  (* the targets *)
  set (Tz := map IZR dt).
  assert (Hmatrix : class_matrix 1 0 2 (reshape_flat (Tensor st dt))
                    = Ok (Tensor [n; 2]
                            (flat_map (fun t => map (fun j => if (Z.of_nat j =? t)%Z
                                                              then 1%R else 0%R)
                                                  (seq 0 2)) dt))).
  { unfold class_matrix, reshape_flat, numel. cbn [data]. rewrite Ht.
    replace (forallb (index_in_range 2) dt) with true; [reflexivity|].
    symmetry. apply forallb_forall. intros t Hin. rewrite Forall_forall in Hbin.
    destruct (Hbin t Hin) as [E|E]; subst t; reflexivity. }
  rewrite Hmatrix. cbn [bind shape data Nat.ltb Nat.leb].
  match goal with
  | |- context [chunks n 2 (flat_map ?F dt)] =>
      replace (chunks n 2 (flat_map F dt)) with (map F dt)
        by (symmetry; rewrite <- Ht; apply chunks_flat_map; intros; reflexivity)
  end.
  rewrite map_map. cbn [seq map nth].
  assert (HT1 : map (fun t => if (Z.of_nat 1 =? t)%Z then 1%R else 0%R) dt = Tz).
  { unfold Tz. apply map_ext_in. intros t Hin. rewrite Forall_forall in Hbin.
    destruct (Hbin t Hin) as [E|E]; subst t; reflexivity. }
  rewrite HT1.
  unfold reshape_flat, tmap, numel. cbn [shape data]. rewrite Ht. fold Tz.
  assert (HlP1 : length P1 = n) by (unfold P1; now rewrite length_map).
  assert (HlP0 : length P0 = n) by (unfold P0; now rewrite length_map).
  assert (HlT : length Tz = n) by (unfold Tz; now rewrite length_map).
  assert (Hwf1 : forall l : list R, length l = n -> well_formed (Tensor [n] l)).
  { intros l Hl. unfold well_formed. cbn [shape data numel_of_shape fold_right]. lia. }
  rewrite !tensor_op_same_shape
    by first [reflexivity | apply Hwf1; rewrite ?length_map; assumption].
  cbn [bind data shape].
  (* the sums *)
  rewrite (Rsum_false_positives P1 Tz) by lia.
  rewrite (Rsum_false_negatives P0 P1 Tz H01) by lia.
  set (TP := Rsum (zip_with Rmult P1 Tz)).
  assert (HTz : Forall (fun x => (0 <= x <= 1)%R) Tz).
  { unfold Tz. apply Forall_map. revert Hbin. apply Forall_impl.
    intros t [E|E]; subst t; simpl; lra. }
  assert (HP1 : Forall (fun x => (0 <= x <= 1)%R) P1).
  { assert (H := softmax_range (Tensor [n; 2] d)). rewrite Hsoft in H. cbn [data] in H.
    unfold P1. apply Forall_map.
    rewrite flat_map_concat_map in H. apply Forall_concat in H.
    rewrite Forall_map in H. revert H. apply Forall_impl. intros r Hr.
    apply nth_Forall; [exact Hr|lra]. }
  destruct (Rsum_products P1 Tz HP1 HTz) as [[Htp0 Htp1] Htp2]; [lia|]. fold TP in Htp0, Htp1, Htp2.
  assert (HsP : (0 < Rsum P1)%R).
  { apply Rsum_positive; [|exact Hpos]. intros E. rewrite E in HlP1. simpl in HlP1. lia. }
  assert (HsT : (0 <= Rsum Tz)%R).
  { apply Rsum_nonnegative. revert HTz. apply Forall_impl. intros; lra. }
  assert (HU : (Rsum P1 + Rsum Tz <> 0)%R) by lra.
  assert (Hq : ((TP + 0) / (TP + 1 / 2 * (Rsum P1 - TP) + 1 / 2 * (Rsum Tz - TP) + 0)
                = 2 * TP / (Rsum P1 + Rsum Tz))%R) by (field; lra).
  rewrite Hq.
  rewrite Rpow_1.
  2:{ pose proof (dice_range TP (Rsum P1) (Rsum Tz) (conj Htp0 Htp1) Htp2). lra. }
  destruct Hred as [->|[->| ->]]; reflexivity.
Qed.

Lemma FocalTverskyLoss_is_dice_witness :
  FocalTverskyLoss_forward
    {| ftl_smooth := 0; ftl_alpha := AlphaNumber (1 / 2); ftl_beta := 1 / 2;
       ftl_gamma := 1; ftl_reduction := Some "mean"%string |}
    (Tensor [2; 2] [0%R; 1%R; 2%R; 0%R]) (Tensor [2] [1%Z; 0%Z])
  = MaskedDiceLoss_forward
      {| mdl_reduction := Some "mean"%string; mdl_label_smoothing := 0;
         mdl_device := "cuda" |}
      (Tensor [2; 2] [0%R; 1%R; 2%R; 0%R]) (GTensor (Tensor [2] [1%Z; 0%Z])).
Proof.
  apply (FocalTverskyLoss_is_dice (Some "mean"%string) "cuda"
           (Tensor [2; 2] [0%R; 1%R; 2%R; 0%R]) (Tensor [2] [1%Z; 0%Z]) 2).
  - reflexivity.
  - reflexivity.
  - discriminate.
  - reflexivity.
  - constructor; [right; reflexivity|constructor; [left; reflexivity|constructor]].
  - right. left. reflexivity.
Defined.

(** ** The ground truth of the masked functors *)

(** MaskedCrossEntropyLoss, MaskedFocalLoss and MaskedDiceLoss look at the
    ground truth before anything else: for a sequence of no element, or of
    three elements and more, [forward] raises ValueError with the one message
    (which names MaskedCrossEntropyLoss in the three classes) whatever the
    functor's parameters and the logits are; and a sequence of one element is
    treated as the bare tensor it holds. *)
Lemma masked_functors_ground_truth_arity :
  forall (mce : MaskedCrossEntropyLoss) (mfl : MaskedFocalLoss) (mdl : MaskedDiceLoss)
         (logits : tensor R) (s : gt_items Z),
    len s <> 1 -> len s <> 2 ->
    (MaskedCrossEntropyLoss_forward mce logits (GSeq s)
     = Raise (ValueError ground_truth_msg)
     /\ MaskedFocalLoss_forward mfl logits (GSeq s) = Raise (ValueError ground_truth_msg)
     /\ MaskedDiceLoss_forward mdl logits (GSeq s) = Raise (ValueError ground_truth_msg))
    /\ (forall target : tensor Z,
           MaskedCrossEntropyLoss_forward mce logits (GSeq (Items1 target))
           = MaskedCrossEntropyLoss_forward mce logits (GTensor target)
           /\ MaskedFocalLoss_forward mfl logits (GSeq (Items1 target))
              = MaskedFocalLoss_forward mfl logits (GTensor target)
           /\ MaskedDiceLoss_forward mdl logits (GSeq (Items1 target))
              = MaskedDiceLoss_forward mdl logits (GTensor target)).
Proof.
  intros mce mfl mdl logits s H1 H2.
  destruct (MaskedCrossEntropyLoss_ground_truth_rule Z) as (_ & _ & _ & Hraise).
  split.
  - unfold MaskedCrossEntropyLoss_forward, MaskedFocalLoss_forward, MaskedDiceLoss_forward.
    rewrite (Hraise s H1 H2). repeat split; reflexivity.
  - intros target. repeat split; reflexivity.
Qed.

(** A ground truth of three elements, on logits of no element. *)
Lemma masked_functors_ground_truth_arity_witness :
  MaskedCrossEntropyLoss_forward {| mce_mean := true |} (Tensor [0] [])
    (GSeq (ItemsN (Tensor [1] [0%Z]) (Tensor [1] [true]) [BoolTensor (Tensor [1] [true])]))
  = Raise (ValueError ground_truth_msg)
  /\ MaskedFocalLoss_forward (MaskedFocalLoss_init 2 None None) (Tensor [0] [])
       (GSeq (ItemsN (Tensor [1] [0%Z]) (Tensor [1] [true])
                [BoolTensor (Tensor [1] [true])]))
     = Raise (ValueError ground_truth_msg)
  /\ MaskedDiceLoss_forward
       {| mdl_reduction := None; mdl_label_smoothing := 0; mdl_device := "cpu" |}
       (Tensor [0] [])
       (GSeq (ItemsN (Tensor [1] [0%Z]) (Tensor [1] [true])
                [BoolTensor (Tensor [1] [true])]))
     = Raise (ValueError ground_truth_msg).
Proof.
  refine (proj1 (masked_functors_ground_truth_arity
                   {| mce_mean := true |} (MaskedFocalLoss_init 2 None None)
                   {| mdl_reduction := None; mdl_label_smoothing := 0; mdl_device := "cpu" |}
                   (Tensor [0] [])
                   (ItemsN (Tensor [1] [0%Z]) (Tensor [1] [true])
                      [BoolTensor (Tensor [1] [true])]) _ _));
    simpl; discriminate.
Defined.

(** ** Powers of a negative base *)

Lemma Rpow_negative_base (x : R) (n : Z) :
  (x < 0)%R -> n <> 0%Z -> Rpow x (IZR n) = powerRZ x n.
Proof.
  intros Hx Hn. unfold Rpow.
  destruct (Req_dec_T (IZR n) 0) as [E|_]; [apply eq_IZR_R0 in E; contradiction|].
  destruct (Req_dec_T x 0) as [E|_]; [lra|].
  destruct (Rlt_dec 0 x) as [H|_]; [lra|].
  assert (Hi : Int_part (IZR n) = n) by (symmetry; apply Int_part_spec; lra).
  rewrite Hi. destruct (Req_dec_T (IZR n) (IZR n)) as [_|N]; [reflexivity|contradiction].
Qed.
